(** * grpccontroller: identity lifecycle and control plane

    A shallow embedding of the Go sources of the controller (token store,
    presence registries, internal CA, enrollment service, SPIFFE
    interceptor, admin listing) and of the connector's renewal scheduler,
    with the properties the specification states about them.

    Conventions of the embedding.
    - A Go [string] and a Go [[]byte] are byte sequences: [string] here is
      a sequence of 8-bit characters, [bytes] a list of [byte].
    - [time.Time] is an instant counted in nanoseconds from Go's zero time
      (January 1, year 1, 00:00:00 UTC), so [IsZero] is a test against 0.
      Instants are unbounded integers (Go stores int64 seconds).
      [time.Duration] is an int64 count of nanoseconds; products are
      written with their wrap-around and [Sub] with its saturation.
    - Every [time.Now()] of one call reads the same instant, passed in as
      an argument: a call is treated as instantaneous.
    - Mutexes are not modelled: every method runs under its lock, so a
      call is one atomic state transformer.
    - Library calls whose code is not part of the repository (SHA-256,
      PEM, X.509, net/url, net.ParseIP) are the methods of the class
      [Library]; what the operating system decides (crypto/rand, writing
      the token file) is an explicit oracle argument of the call.
    - Log lines are not modelled. *)

From stdpp Require Import base numbers strings list gmap sorting pretty.
From Stdlib Require Import ZArith Lia Strings.Byte Strings.Ascii.

Local Open Scope Z_scope.

(** ** Results and errors *)

Inductive result (E A : Type) : Type :=
| Ok (a : A)
| Err (e : E).
Arguments Ok {E A} a.
Arguments Err {E A} e.

Definition bind {E A B} (r : result E A) (k : A -> result E B) : result E B :=
  match r with
  | Ok a => k a
  | Err e => Err e
  end.

Notation "x <- r ;;; k" := (bind r (fun x => k))
  (at level 100, r at next level, right associativity).

Definition is_ok {E A} (r : result E A) : bool :=
  match r with Ok _ => true | Err _ => false end.

(** ** Go's [strings] helpers used by the sources *)

Module strings.

Fixpoint HasPrefix (s prefix : string) {struct prefix} : bool :=
  match prefix, s with
  | EmptyString, _ => true
  | String p prefix', String c s' => if Ascii.eqb p c then HasPrefix s' prefix' else false
  | String _ _, EmptyString => false
  end.

Fixpoint drop (n : nat) (s : string) : string :=
  match n, s with
  | O, _ => s
  | S n', String _ s' => drop n' s'
  | S _, EmptyString => EmptyString
  end.

Definition TrimPrefix (s prefix : string) : string :=
  if HasPrefix s prefix then drop (String.length prefix) s else s.

Fixpoint Contains (s substr : string) : bool :=
  HasPrefix s substr ||
  match s with
  | EmptyString => false
  | String _ s' => Contains s' substr
  end.

(** [Split s sep] for a non-empty [sep] (the sources only split on "/").
    [cur] is the piece being read; [skip] counts the bytes of a separator
    still to be passed over. *)
Fixpoint split_go (sep : string) (skip : nat) (cur : string) (s : string) : list string :=
  match s with
  | EmptyString => [cur]
  | String c s' =>
      match skip with
      | S k => split_go sep k cur s'
      | O =>
          if HasPrefix s sep
          then cur :: split_go sep (Nat.pred (String.length sep)) EmptyString s'
          else split_go sep O (cur +:+ String c EmptyString) s'
      end
  end.

Definition Split (s sep : string) : list string := split_go sep O EmptyString s.

End strings.

(** ** Go's [time] package: instants and durations *)

Module time.

Definition Time := Z.
Definition Duration := Z.

Definition minDuration : Duration := - 2 ^ 63.
Definition maxDuration : Duration := 2 ^ 63 - 1.

Definition Nanosecond : Duration := 1.
Definition Second : Duration := 1000000000.
Definition Minute : Duration := 60 * Second.
Definition Hour : Duration := 60 * Minute.

(** int64 wrap-around of a Duration computation. *)
Definition wrap (z : Z) : Duration := (z + 2 ^ 63) mod 2 ^ 64 - 2 ^ 63.

(** The zero value [time.Time{}]. *)
Definition zero : Time := 0.
Definition IsZero (t : Time) : bool := t =? 0.

Definition Add (t : Time) (d : Duration) : Time := t + d.

(** [t.Sub(u)]: the difference, saturated to the Duration range. *)
Definition Sub (t u : Time) : Duration :=
  if t - u <? minDuration then minDuration
  else if maxDuration <? t - u then maxDuration
  else t - u.

Definition After (t u : Time) : bool := u <? t.
Definition Before (t u : Time) : bool := t <? u.

(** [time.Until(t)] at clock reading [now]. *)
Definition Until (now t : Time) : Duration := Sub t now.

End time.

(** ** Connector: the renewal scheduler (package run) *)

(** [nextRenewal(notAfter, totalTTL)] of the connector's run loop. *)
Definition nextRenewal (now : time.Time) (notAfter : time.Time) (totalTTL : time.Duration)
  : time.Time :=
  let remaining := time.Until now notAfter in
  if remaining <=? 0 then time.Add now (10 * time.Second)
  else
    let totalTTL := if totalTTL <=? 0 then remaining else totalTTL in
    let renewAt := Z.quot (time.wrap (totalTTL * 30)) 100 in
    let next := time.Add notAfter (time.wrap (- renewAt)) in
    if time.Before next (time.Add now (10 * time.Second))
    then time.Add now (10 * time.Second)
    else next.

(** The earlier one-argument scheduler still present in
    connector/run/run.go: a third of the remaining lifetime, at least five
    minutes ahead, never sooner than thirty seconds from now. *)
Module RunV1.

Definition nextRenewal (now : time.Time) (notAfter : time.Time) : time.Time :=
  let ttl := time.Until now notAfter in
  if ttl <=? 0 then time.Add now (10 * time.Second)
  else
    let advance := Z.quot ttl 3 in
    let advance := if advance <? 5 * time.Minute then 5 * time.Minute else advance in
    let next := time.Add notAfter (time.wrap (- advance)) in
    if time.Before next (time.Add now (30 * time.Second))
    then time.Add now (30 * time.Second)
    else next.

End RunV1.


(** ** Errors: plain Go errors and gRPC status errors *)

Inductive Code : Type :=
| InvalidArgument
| Unauthenticated
| PermissionDenied
| FailedPrecondition
| Internal.

Inductive error : Type :=
| errors_New (msg : string)
| status_Error (c : Code) (msg : string).

Definition Code_String (c : Code) : string :=
  match c with
  | InvalidArgument => "InvalidArgument"
  | Unauthenticated => "Unauthenticated"
  | PermissionDenied => "PermissionDenied"
  | FailedPrecondition => "FailedPrecondition"
  | Internal => "Internal"
  end.

(** [err.Error()], as [%v] prints it. *)
Definition Error (e : error) : string :=
  match e with
  | errors_New msg => msg
  | status_Error c msg => "rpc error: code = " +:+ Code_String c +:+ " desc = " +:+ msg
  end.

(** [status.Code(err)] when [err] is a status error. *)
Definition status_Code (e : error) : option Code :=
  match e with
  | errors_New _ => None
  | status_Error c _ => Some c
  end.

Abbreviation bytes := (list byte).

#[global] Instance byte_eq_dec : EqDecision byte.
Proof.
  intros x y. destruct (Byte.eqb x y) eqn:E.
  - left. by apply Byte.byte_dec_bl.
  - right. intros ->. by rewrite Byte.byte_dec_lb in E.
Defined.

(** ** encoding/hex *)

Definition hextable : string := "0123456789abcdef".

Definition hexdigit (n : N) : Ascii.ascii :=
  default "0"%char (String.get (N.to_nat n) hextable).

Fixpoint hex_EncodeToString (src : bytes) : string :=
  match src with
  | [] => EmptyString
  | b :: rest =>
      String (hexdigit (N.shiftr (Byte.to_N b) 4))
        (String (hexdigit (N.land (Byte.to_N b) 15)) (hex_EncodeToString rest))
  end.

(** ** The library data the sources handle *)

Module url.

(** The parts of [url.URL] the sources read, and the two that complete a
    hierarchical URI. *)
Record URL : Type := mkURL {
  Scheme : string;
  Host : string;
  Path : string;
  RawQuery : string;
  Fragment : string
}.

End url.

Module net.

(** [net.IP] is a byte slice of length 4 or 16. *)
Definition IP := bytes.

End net.

Module pem.

Record Block : Type := mkBlock {
  Type_ : string;
  Bytes : bytes
}.

End pem.

Module x509.

Definition KeyUsageDigitalSignature : Z := 1.

Inductive ExtKeyUsage : Type :=
| ExtKeyUsageAny
| ExtKeyUsageServerAuth
| ExtKeyUsageClientAuth.

(** The fields of [x509.Certificate] that the issuing template sets; the
    subject stays empty. *)
Record Certificate : Type := mkCertificate {
  SerialNumber : Z;
  NotBefore : time.Time;
  NotAfter : time.Time;
  KeyUsage : Z;
  ExtKeyUsages : list ExtKeyUsage;
  BasicConstraintsValid : bool;
  IsCA : bool;
  URIs : list url.URL;
  DNSNames : list string;
  IPAddresses : list net.IP
}.

End x509.

(** A parsed public key and a signing key are kept as opaque encodings. *)
Inductive crypto_PublicKey : Type := mkPublicKey (der : bytes).
Inductive crypto_Signer : Type := mkSigner (pkcs8 : bytes).

(** The library functions the controller calls.  [x509_CreateCertificate]
    takes the entropy it draws from [rand.Reader] as its first argument.
    [Duration_Seconds_int d] is [int(d.Seconds())], a conversion through
    float64. *)
Class Library : Type := {
  sha256_Sum256 : bytes -> bytes;
  pem_Decode : bytes -> option pem.Block;
  pem_EncodeToMemory : pem.Block -> bytes;
  x509_ParsePKIXPublicKey : bytes -> result error crypto_PublicKey;
  x509_CreateCertificate :
    bytes -> x509.Certificate -> x509.Certificate -> crypto_PublicKey -> crypto_Signer
    -> result error bytes;
  x509_ParseCertificate : bytes -> result error x509.Certificate;
  url_Parse : string -> result error url.URL;
  URL_String : url.URL -> string;
  net_ParseIP : string -> option net.IP;
  Duration_Seconds_int : time.Duration -> Z
}.

(** ** Controller: package state (token store with persistence, registries) *)

Module state.

Module TokenRecord.
Record t : Type := mk {
  Hash : string;
  ExpiresAt : time.Time;
  Used : bool;
  ConnectorID : string
}.
End TokenRecord.

Record TokenStore : Type := mkTokenStore {
  tokens : gmap string TokenRecord.t;
  ttl : time.Duration;
  path : string
}.

Definition hashToken `{Library} (token : string) : string :=
  hex_EncodeToString (sha256_Sum256 (String.list_byte_of_string token)).

(** [NewTokenStore(ttl, path)].  [disk] is what [load] reads: [Some
    records] when the file at [path] exists and parses, [None] otherwise
    (the error of [load] is dropped). *)
Definition NewTokenStore (ttl : time.Duration) (path : string)
    (disk : option (gmap string TokenRecord.t)) : TokenStore :=
  {| tokens := if decide (path = EmptyString) then ∅ else default ∅ disk;
     ttl := ttl;
     path := path |}.

(** [saveLocked]: nothing to do without a path; otherwise [io] is the
    error, if any, of creating the directory, encoding and writing. *)
Definition saveLocked (s : TokenStore) (io : option error) : option error :=
  if decide (path s = EmptyString) then None else io.

(** [CreateToken].  [raw] is the outcome of [rand.Read] on 16 bytes. *)
Definition CreateToken `{Library} (s : TokenStore) (now : time.Time)
    (raw : result error bytes) (io : option error)
  : TokenStore * result error (string * time.Time) :=
  match raw with
  | Err e => (s, Err e)
  | Ok raw =>
      let token := hex_EncodeToString raw in
      let hash := hashToken token in
      let expires :=
        if 0 <? ttl s then time.Add now (ttl s)
        else time.Add now (10 * 365 * 24 * time.Hour) in
      let s' :=
        {| tokens :=
             <[hash := {| TokenRecord.Hash := hash;
                          TokenRecord.ExpiresAt := expires;
                          TokenRecord.Used := false;
                          TokenRecord.ConnectorID := EmptyString |}]> (tokens s);
           ttl := ttl s;
           path := path s |} in
      match saveLocked s' io with
      | Some e => (s', Err e)
      | None => (s', Ok (token, expires))
      end
  end.

(** [ConsumeToken]: the record is rebound to [connectorID]; [Used] is
    neither read nor written. *)
Definition ConsumeToken `{Library} (s : TokenStore) (token connectorID : string)
    (now : time.Time) (io : option error) : TokenStore * option error :=
  if decide (token = EmptyString) then (s, Some (errors_New "missing token"))
  else if decide (connectorID = EmptyString) then (s, Some (errors_New "missing connector id"))
  else
    let hash := hashToken token in
    match tokens s !! hash with
    | None => (s, Some (errors_New "invalid token"))
    | Some rec =>
        if negb (time.IsZero (TokenRecord.ExpiresAt rec))
           && time.After now (TokenRecord.ExpiresAt rec)
        then (s, Some (errors_New "token expired"))
        else
          let s' :=
            {| tokens :=
                 <[hash := {| TokenRecord.Hash := TokenRecord.Hash rec;
                              TokenRecord.ExpiresAt := TokenRecord.ExpiresAt rec;
                              TokenRecord.Used := TokenRecord.Used rec;
                              TokenRecord.ConnectorID := connectorID |}]> (tokens s);
               ttl := ttl s;
               path := path s |} in
          (s', saveLocked s' io)
    end.

Module ConnectorRecord.
Record t : Type := mk {
  ID : string;
  PrivateIP : string;
  Version : string;
  LastSeen : time.Time
}.
End ConnectorRecord.

Record Registry : Type := mkRegistry {
  connectors : gmap string ConnectorRecord.t
}.

Definition NewRegistry : Registry := {| connectors := ∅ |}.

(** The record a method works on: the stored one, or a fresh
    [&ConnectorRecord{ID: id}]. *)
Definition connectorOrNew (r : Registry) (id : string) : ConnectorRecord.t :=
  default {| ConnectorRecord.ID := id;
             ConnectorRecord.PrivateIP := EmptyString;
             ConnectorRecord.Version := EmptyString;
             ConnectorRecord.LastSeen := time.zero |}
          (connectors r !! id).

Definition Register (r : Registry) (id privateIP version : string) (now : time.Time)
  : Registry :=
  let rec := connectorOrNew r id in
  {| connectors :=
       <[id := {| ConnectorRecord.ID := ConnectorRecord.ID rec;
                  ConnectorRecord.PrivateIP := privateIP;
                  ConnectorRecord.Version := version;
                  ConnectorRecord.LastSeen := now |}]> (connectors r) |}.

Definition RecordHeartbeat (r : Registry) (id privateIP : string) (now : time.Time)
  : Registry :=
  let rec := connectorOrNew r id in
  {| connectors :=
       <[id := {| ConnectorRecord.ID := ConnectorRecord.ID rec;
                  ConnectorRecord.PrivateIP :=
                    if decide (privateIP = EmptyString)
                    then ConnectorRecord.PrivateIP rec else privateIP;
                  ConnectorRecord.Version := ConnectorRecord.Version rec;
                  ConnectorRecord.LastSeen := now |}]> (connectors r) |}.

(** [List]: copies of all records, most recently seen first.  Go leaves
    the order of records with equal [LastSeen] open; the merge sort fixes
    one of the permitted orders. *)
Definition Registry_List (r : Registry) : list ConnectorRecord.t :=
  @merge_sort _ (λ a b, ConnectorRecord.LastSeen b ≤ ConnectorRecord.LastSeen a)
             (λ a b, decide (ConnectorRecord.LastSeen b ≤ ConnectorRecord.LastSeen a))
             (snd <$> map_to_list (connectors r)).

Definition Get (r : Registry) (id : string) : ConnectorRecord.t * bool :=
  match connectors r !! id with
  | None => ({| ConnectorRecord.ID := EmptyString;
                ConnectorRecord.PrivateIP := EmptyString;
                ConnectorRecord.Version := EmptyString;
                ConnectorRecord.LastSeen := time.zero |}, false)
  | Some rec => (rec, true)
  end.

Module TunnelerInfo.
Record t : Type := mk {
  ID : string;
  SPIFFEID : string
}.
End TunnelerInfo.

(** The allowlist of enrolled tunnelers, in order of first enrollment. *)
Record TunnelerRegistry : Type := mkTunnelerRegistry {
  byID : gmap string TunnelerInfo.t;
  order : list string
}.

Definition NewTunnelerRegistry : TunnelerRegistry := {| byID := ∅; order := [] |}.

Definition Add (r : TunnelerRegistry) (id spiffeID : string) : TunnelerRegistry :=
  if decide (id = EmptyString ∨ spiffeID = EmptyString) then r
  else
    {| byID := <[id := {| TunnelerInfo.ID := id; TunnelerInfo.SPIFFEID := spiffeID |}]> (byID r);
       order := if decide (is_Some (byID r !! id)) then order r else order r ++ [id] |}.

Definition TunnelerRegistry_List (r : TunnelerRegistry) : list TunnelerInfo.t :=
  omap (λ id, byID r !! id) (order r).

Module TunnelerRecord.
Record t : Type := mk {
  ID : string;
  SPIFFEID : string;
  ConnectorID : string;
  LastSeen : time.Time
}.
End TunnelerRecord.

Record TunnelerStatusRegistry : Type := mkTunnelerStatusRegistry {
  tunnelers : gmap string TunnelerRecord.t
}.

Definition NewTunnelerStatusRegistry : TunnelerStatusRegistry := {| tunnelers := ∅ |}.

(** The method [Record] of the tunneler status registry. *)
Definition TunnelerStatus_Record (r : TunnelerStatusRegistry)
    (id spiffeID connectorID : string) (now : time.Time) : TunnelerStatusRegistry :=
  if decide (id = EmptyString) then r
  else
    let rec :=
      default {| TunnelerRecord.ID := id;
                 TunnelerRecord.SPIFFEID := EmptyString;
                 TunnelerRecord.ConnectorID := EmptyString;
                 TunnelerRecord.LastSeen := time.zero |}
              (tunnelers r !! id) in
    {| tunnelers :=
         <[id := {| TunnelerRecord.ID := TunnelerRecord.ID rec;
                    TunnelerRecord.SPIFFEID :=
                      if decide (spiffeID = EmptyString)
                      then TunnelerRecord.SPIFFEID rec else spiffeID;
                    TunnelerRecord.ConnectorID :=
                      if decide (connectorID = EmptyString)
                      then TunnelerRecord.ConnectorID rec else connectorID;
                    TunnelerRecord.LastSeen := now |}]> (tunnelers r) |}.

Definition TunnelerStatus_List (r : TunnelerStatusRegistry) : list TunnelerRecord.t :=
  @merge_sort _ (λ a b, TunnelerRecord.LastSeen b ≤ TunnelerRecord.LastSeen a)
             (λ a b, decide (TunnelerRecord.LastSeen b ≤ TunnelerRecord.LastSeen a))
             (snd <$> map_to_list (tunnelers r)).

End state.

(** ** The earlier in-memory token store (single use) *)

Module state_mem.

Record TokenStore : Type := mkTokenStore {
  tokens : gmap string state.TokenRecord.t;
  ttl : time.Duration
}.

Definition NewTokenStore (ttl : time.Duration) : TokenStore :=
  {| tokens := ∅; ttl := ttl |}.

Definition hashToken `{Library} (token : string) : string :=
  hex_EncodeToString (sha256_Sum256 (String.list_byte_of_string token)).

Definition CreateToken `{Library} (s : TokenStore) (now : time.Time)
    (raw : result error bytes) : TokenStore * result error (string * time.Time) :=
  match raw with
  | Err e => (s, Err e)
  | Ok raw =>
      let token := hex_EncodeToString raw in
      let hash := hashToken token in
      let expires := time.Add now (ttl s) in
      ({| tokens :=
            <[hash := {| state.TokenRecord.Hash := hash;
                         state.TokenRecord.ExpiresAt := expires;
                         state.TokenRecord.Used := false;
                         state.TokenRecord.ConnectorID := EmptyString |}]> (tokens s);
          ttl := ttl s |},
       Ok (token, expires))
  end.

Definition ConsumeToken `{Library} (s : TokenStore) (token connectorID : string)
    (now : time.Time) : TokenStore * option error :=
  if decide (token = EmptyString) then (s, Some (errors_New "missing token"))
  else if decide (connectorID = EmptyString) then (s, Some (errors_New "missing connector id"))
  else
    let hash := hashToken token in
    match tokens s !! hash with
    | None => (s, Some (errors_New "invalid token"))
    | Some rec =>
        if time.After now (state.TokenRecord.ExpiresAt rec)
        then (s, Some (errors_New "token expired"))
        else if state.TokenRecord.Used rec
        then (s, Some (errors_New "token already used"))
        else
          ({| tokens :=
                <[hash := {| state.TokenRecord.Hash := state.TokenRecord.Hash rec;
                             state.TokenRecord.ExpiresAt := state.TokenRecord.ExpiresAt rec;
                             state.TokenRecord.Used := true;
                             state.TokenRecord.ConnectorID := connectorID |}]> (tokens s);
              ttl := ttl s |},
           None)
    end.

End state_mem.

(** ** What one call reads from its surroundings *)

(** [env_now]: the clock; [env_io]: the error, if any, of rewriting the
    token file; [env_serial]: the outcome of [rand.Int] below 2^62;
    [env_entropy]: the randomness the signature draws. *)
Record Env : Type := mkEnv {
  env_now : time.Time;
  env_io : option error;
  env_serial : result error Z;
  env_entropy : bytes
}.

(** ** Controller: package ca *)

Module ca.

Record CA : Type := mkCA {
  Cert : option x509.Certificate;
  Key : option crypto_Signer
}.

(** The template [tmpl] that [IssueWorkloadCert] signs. *)
Definition tmpl (uri : url.URL) (serial : Z) (now : time.Time) (ttl : time.Duration)
    (dnsNames : list string) (ipAddrs : list net.IP) : x509.Certificate :=
  {| x509.SerialNumber := serial;
     x509.NotBefore := time.Add now (-1 * time.Minute);
     x509.NotAfter := time.Add now ttl;
     x509.KeyUsage := x509.KeyUsageDigitalSignature;
     x509.ExtKeyUsages := [x509.ExtKeyUsageClientAuth; x509.ExtKeyUsageServerAuth];
     x509.BasicConstraintsValid := true;
     x509.IsCA := false;
     x509.URIs := [uri];
     x509.DNSNames := dnsNames;
     x509.IPAddresses := ipAddrs |}.

Definition IssueWorkloadCert `{Library} (ca : option CA) (spiffeID : string)
    (pubKey : crypto_PublicKey) (ttl : time.Duration) (dnsNames : list string)
    (ipAddrs : list net.IP) (env : Env) : result error bytes :=
  match ca with
  | None => Err (errors_New "CA is not initialized")
  | Some c =>
      match Cert c, Key c with
      | Some caCert, Some caKey =>
          if ttl <=? 0 then Err (errors_New "invalid certificate TTL")
          else
            uri <- url_Parse spiffeID ;;;
            if negb (String.eqb (url.Scheme uri) "spiffe")
            then Err (errors_New "SPIFFE ID must use spiffe:// scheme")
            else
              serial <- env_serial env ;;;
              der <- x509_CreateCertificate (env_entropy env)
                       (tmpl uri serial (env_now env) ttl dnsNames ipAddrs)
                       caCert pubKey caKey ;;;
              Ok (pem_EncodeToMemory {| pem.Type_ := "CERTIFICATE"; pem.Bytes := der |})
      | _, _ => Err (errors_New "CA is not initialized")
      end
  end.

End ca.

(** ** Controller: the enrollment messages *)

Module controllerpb.

Record EnrollRequest : Type := mkEnrollRequest {
  Id : string;
  PublicKey : bytes;
  Token : string;
  PrivateIp : string;
  Version : string
}.

Record EnrollResponse : Type := mkEnrollResponse {
  Certificate : bytes;
  CaCertificate : bytes
}.

End controllerpb.

(** ** Controller: package api *)

Module api.

(** *** The SPIFFE interceptor *)

(** [peer.AuthInfo]: TLS with the peer's certificates, or anything else. *)
Inductive AuthInfo : Type :=
| TLSInfo (PeerCertificates : list x509.Certificate)
| OtherAuthInfo.

Record Peer : Type := mkPeer {
  peer_AuthInfo : AuthInfo
}.

(** The parts of a request context the sources read: the transport peer
    and the two values the interceptor publishes under its private keys. *)
Record Ctx : Type := mkCtx {
  ctx_peer : option Peer;
  ctx_spiffe_id : option string;
  ctx_spiffe_role : option string
}.

Definition SPIFFEIDFromContext (ctx : Ctx) : string * bool :=
  match ctx_spiffe_id ctx with
  | None => (EmptyString, false)
  | Some id => (id, true)
  end.

Definition RoleFromContext (ctx : Ctx) : string * bool :=
  match ctx_spiffe_role ctx with
  | None => (EmptyString, false)
  | Some role => (role, true)
  end.

Definition makeRoleSet (roles : list string) : gset string :=
  match roles with
  | [] => ∅
  | _ => list_to_set (filter (λ r, r ≠ EmptyString) roles)
  end.

Definition extractAndVerifySPIFFE `{Library} (ctx : Ctx) (trustDomain : string)
    (allowedRoles : gset string) : result error (string * string) :=
  match ctx_peer ctx with
  | None => Err (errors_New "missing peer information")
  | Some p =>
      match peer_AuthInfo p with
      | OtherAuthInfo => Err (errors_New "connection is not using TLS")
      | TLSInfo [] => Err (errors_New "no peer certificates presented")
      | TLSInfo (cert :: _) =>
          match x509.URIs cert with
          | [uri] =>
              if negb (String.eqb (url.Scheme uri) "spiffe")
              then Err (errors_New "SPIFFE ID must use spiffe:// scheme")
              else if negb (String.eqb (url.Host uri) trustDomain)
              then Err (errors_New "SPIFFE trust domain mismatch")
              else
                let path := strings.TrimPrefix (url.Path uri) "/" in
                match strings.Split path "/" with
                | [role; _] =>
                    if negb (bool_decide (allowedRoles = ∅))
                       && negb (bool_decide (role ∈ allowedRoles))
                    then Err (errors_New "invalid SPIFFE role")
                    else Ok (URL_String uri, role)
                | _ => Err (errors_New "invalid SPIFFE path format")
                end
          | _ => Err (errors_New "exactly one SPIFFE ID is required")
          end
      end
  end.

(** [context.WithValue] for the two keys. *)
Definition withIdentity (ctx : Ctx) (spiffeID role : string) : Ctx :=
  {| ctx_peer := ctx_peer ctx;
     ctx_spiffe_id := Some spiffeID;
     ctx_spiffe_role := Some role |}.

Definition UnarySPIFFEInterceptor `{Library} {Req Resp : Type} (trustDomain : string)
    (allowedRoles : list string) (ctx : Ctx) (req : Req)
    (handler : Ctx -> Req -> result error Resp) : result error Resp :=
  let roles := makeRoleSet allowedRoles in
  match extractAndVerifySPIFFE ctx trustDomain roles with
  | Err e => Err e
  | Ok (spiffeID, role) => handler (withIdentity ctx spiffeID role) req
  end.

(** [info.FullMethod] is the argument [fullMethod]. *)
Definition UnaryAuthInterceptor `{Library} {Req Resp : Type} (trustDomain : string)
    (unauthenticatedMethods : gset string) (allowedRoles : list string)
    (ctx : Ctx) (req : Req) (fullMethod : string)
    (handler : Ctx -> Req -> result error Resp) : result error Resp :=
  let roles := makeRoleSet allowedRoles in
  if bool_decide (fullMethod ∈ unauthenticatedMethods) then handler ctx req
  else
    match extractAndVerifySPIFFE ctx trustDomain roles with
    | Err e => Err e
    | Ok (spiffeID, role) => handler (withIdentity ctx spiffeID role) req
    end.

(** The stream's context is [ctx]; the handler receives the wrapped
    stream, that is, the stream with the enriched context. *)
Definition StreamSPIFFEInterceptor `{Library} {Srv Resp : Type} (trustDomain : string)
    (allowedRoles : list string) (srv : Srv) (ctx : Ctx)
    (handler : Srv -> Ctx -> result error Resp) : result error Resp :=
  let roles := makeRoleSet allowedRoles in
  match extractAndVerifySPIFFE ctx trustDomain roles with
  | Err e => Err e
  | Ok (spiffeID, role) => handler srv (withIdentity ctx spiffeID role)
  end.

(** *** The enrollment service *)

(** [Notifier] is the control-plane server behind the [TunnelerNotifier]
    interface, reduced to the allowlist it appends to; the broadcast to
    connected streams is not modelled. *)
Record EnrollmentServer : Type := mkEnrollmentServer {
  CA : option ca.CA;
  CAPEM : bytes;
  TrustDomain : string;
  Tokens : option state.TokenStore;
  Registry : option state.Registry;
  Notifier : option state.TunnelerRegistry
}.

(** The test of one rune of an id.  A byte outside ASCII decodes to a
    rune of at least 128, which no range below admits, so testing bytes
    and testing runes agree. *)
Definition idRune (c : Ascii.ascii) : bool :=
  let r := Z.of_N (Ascii.N_of_ascii c) in
  ((97 <=? r) && (r <=? 122)) || ((65 <=? r) && (r <=? 90))
  || ((48 <=? r) && (r <=? 57)) || (r =? 45) || (r =? 95) || (r =? 46).

Fixpoint allRunes (id : string) : bool :=
  match id with
  | EmptyString => true
  | String c rest => if idRune c then allRunes rest else false
  end.

Definition validID (id : string) : bool :=
  if bool_decide (id = EmptyString) || (128 <? String.length id)%nat then false
  else allRunes id.

Definition parsePublicKey `{Library} (pemBytes : bytes) : result error crypto_PublicKey :=
  if (length pemBytes =? 0)%nat then Err (errors_New "public key is empty")
  else
    match pem_Decode pemBytes with
    | None => Err (errors_New "failed to decode PEM block")
    | Some block => x509_ParsePKIXPublicKey (pem.Bytes block)
    end.

Definition identityFromContext (s : EnrollmentServer) (ctx : Ctx)
  : result error (string * string) :=
  let '(spiffeID, ok) := SPIFFEIDFromContext ctx in
  if negb ok then Err (status_Error Unauthenticated "missing SPIFFE identity")
  else
    let '(role, ok) := RoleFromContext ctx in
    if negb ok then Err (status_Error Unauthenticated "missing SPIFFE role")
    else
      let id := strings.TrimPrefix spiffeID
                  ("spiffe://" +:+ TrustDomain s +:+ "/" +:+ role +:+ "/") in
      if bool_decide (id = EmptyString) || strings.Contains id "/"
      then Err (status_Error Unauthenticated "invalid SPIFFE id")
      else Ok (role, id).

Definition authorize (s : EnrollmentServer) (ctx : Ctx) (expectedRole expectedID : string)
  : option error :=
  match identityFromContext s ctx with
  | Err e => Some e
  | Ok (role, id) =>
      if negb (String.eqb role expectedRole)
      then Some (status_Error PermissionDenied "role not permitted for enrollment")
      else if negb (String.eqb id expectedID)
      then Some (status_Error PermissionDenied "id mismatch for enrollment")
      else None
  end.

Definition withTokens (s : EnrollmentServer) (ts : state.TokenStore) : EnrollmentServer :=
  {| CA := CA s; CAPEM := CAPEM s; TrustDomain := TrustDomain s;
     Tokens := Some ts; Registry := Registry s; Notifier := Notifier s |}.

(** What [authorizeConnectorToken] makes of the outcome of [ConsumeToken],
    whichever token store is linked in: every error becomes
    PermissionDenied. *)
Definition consumeOutcome (err : option error) : option error :=
  match err with
  | Some _ => Some (status_Error PermissionDenied "invalid enrollment token")
  | None => None
  end.

Definition authorizeConnectorToken `{Library} (s : EnrollmentServer)
    (token connectorID : string) (env : Env) : EnrollmentServer * option error :=
  match Tokens s with
  | None => (s, Some (status_Error FailedPrecondition "token service unavailable"))
  | Some ts =>
      let '(ts', err) := state.ConsumeToken ts token connectorID (env_now env) (env_io env) in
      (withTokens s ts', consumeOutcome err)
  end.

(** The registration side effect of a connector enrollment. *)
Definition registerConnector (s : EnrollmentServer) (id privateIP version : string)
    (now : time.Time) : EnrollmentServer :=
  match Registry s with
  | None => s
  | Some r =>
      {| CA := CA s; CAPEM := CAPEM s; TrustDomain := TrustDomain s;
         Tokens := Tokens s;
         Registry := Some (state.Register r id privateIP version now);
         Notifier := Notifier s |}
  end.

(** [s.Notifier.NotifyTunnelerAllowed(id, spiffeID)] when a notifier is set. *)
Definition notifyTunneler (s : EnrollmentServer) (id spiffeID : string) : EnrollmentServer :=
  match Notifier s with
  | None => s
  | Some n =>
      {| CA := CA s; CAPEM := CAPEM s; TrustDomain := TrustDomain s;
         Tokens := Tokens s; Registry := Registry s;
         Notifier := Some (state.Add n id spiffeID) |}
  end.

Definition EnrollConnector `{Library} (s : EnrollmentServer) (env : Env)
    (req : controllerpb.EnrollRequest)
  : EnrollmentServer * result error controllerpb.EnrollResponse :=
  if negb (validID (controllerpb.Id req))
  then (s, Err (status_Error InvalidArgument "missing connector id"))
  else if bool_decide (controllerpb.PrivateIp req = EmptyString)
  then (s, Err (status_Error InvalidArgument "missing private ip"))
  else if bool_decide (controllerpb.Version req = EmptyString)
  then (s, Err (status_Error InvalidArgument "missing version"))
  else
    match parsePublicKey (controllerpb.PublicKey req) with
    | Err e => (s, Err (status_Error InvalidArgument ("invalid public key: " +:+ Error e)))
    | Ok pubKey =>
        match authorizeConnectorToken s (controllerpb.Token req) (controllerpb.Id req) env with
        | (s1, Some e) => (s1, Err e)
        | (s1, None) =>
            let spiffeID :=
              "spiffe://" +:+ TrustDomain s +:+ "/connector/" +:+ controllerpb.Id req in
            let ipAddrs :=
              match net_ParseIP (controllerpb.PrivateIp req) with
              | Some ip => [ip]
              | None => []
              end in
            match ca.IssueWorkloadCert (CA s) spiffeID pubKey (5 * time.Minute) [] ipAddrs env with
            | Err e =>
                (s1, Err (status_Error Internal ("certificate issuance failed: " +:+ Error e)))
            | Ok certPEM =>
                (registerConnector s1 (controllerpb.Id req) (controllerpb.PrivateIp req)
                   (controllerpb.Version req) (env_now env),
                 Ok {| controllerpb.Certificate := certPEM;
                       controllerpb.CaCertificate := CAPEM s |})
            end
        end
    end.

Definition EnrollTunneler `{Library} (s : EnrollmentServer) (env : Env)
    (req : controllerpb.EnrollRequest)
  : EnrollmentServer * result error controllerpb.EnrollResponse :=
  if negb (validID (controllerpb.Id req))
  then (s, Err (status_Error InvalidArgument "missing tunneler id"))
  else if bool_decide (controllerpb.Token req = EmptyString)
  then (s, Err (status_Error InvalidArgument "missing enrollment token"))
  else
    match parsePublicKey (controllerpb.PublicKey req) with
    | Err e => (s, Err (status_Error InvalidArgument ("invalid public key: " +:+ Error e)))
    | Ok pubKey =>
        match authorizeConnectorToken s (controllerpb.Token req) (controllerpb.Id req) env with
        | (s1, Some e) => (s1, Err e)
        | (s1, None) =>
            let spiffeID :=
              "spiffe://" +:+ TrustDomain s +:+ "/tunneler/" +:+ controllerpb.Id req in
            match ca.IssueWorkloadCert (CA s) spiffeID pubKey (30 * time.Minute) [] [] env with
            | Err e =>
                (s1, Err (status_Error Internal ("certificate issuance failed: " +:+ Error e)))
            | Ok certPEM =>
                (notifyTunneler s1 (controllerpb.Id req) spiffeID,
                 Ok {| controllerpb.Certificate := certPEM;
                       controllerpb.CaCertificate := CAPEM s |})
            end
        end
    end.

(** The IP SANs a renewal carries: the registered private IP of a
    connector, when it parses. *)
Definition renewIPAddrs `{Library} (s : EnrollmentServer) (role id : string) : list net.IP :=
  if String.eqb role "connector" then
    match Registry s with
    | None => []
    | Some r =>
        let '(rec, ok) := state.Get r id in
        if ok then
          match net_ParseIP (state.ConnectorRecord.PrivateIP rec) with
          | Some ip => [ip]
          | None => []
          end
        else []
    end
  else [].

Definition Renew `{Library} (s : EnrollmentServer) (ctx : Ctx) (env : Env)
    (req : controllerpb.EnrollRequest) : result error controllerpb.EnrollResponse :=
  if negb (validID (controllerpb.Id req))
  then Err (status_Error InvalidArgument "missing id")
  else
    match parsePublicKey (controllerpb.PublicKey req) with
    | Err e => Err (status_Error InvalidArgument ("invalid public key: " +:+ Error e))
    | Ok pubKey =>
        match identityFromContext s ctx with
        | Err e => Err e
        | Ok (role, id) =>
            if negb (String.eqb id (controllerpb.Id req))
            then Err (status_Error PermissionDenied "id mismatch for renewal")
            else
              let spiffeID :=
                "spiffe://" +:+ TrustDomain s +:+ "/" +:+ role +:+ "/" +:+ controllerpb.Id req in
              let ttl :=
                if String.eqb role "connector" then 5 * time.Minute else 30 * time.Minute in
              let ipAddrs := renewIPAddrs s role (controllerpb.Id req) in
              match ca.IssueWorkloadCert (CA s) spiffeID pubKey ttl [] ipAddrs env with
              | Err e => Err (status_Error Internal ("certificate renewal failed: " +:+ Error e))
              | Ok certPEM =>
                  Ok {| controllerpb.Certificate := certPEM;
                        controllerpb.CaCertificate := CAPEM s |}
              end
        end
    end.

End api.

(** ** The enrollment service over the in-memory token store *)

(** The main program of the earlier controller builds the in-memory store,
    [state.NewTokenStore(10 * time.Minute)], and hands it to
    [api.NewEnrollmentServer]; [s.Tokens.ConsumeToken] in
    [authorizeConnectorToken] is then the single-use [ConsumeToken], and
    the method is this function of the store. *)
Module api_mem.

Definition authorizeConnectorToken `{Library} (tokens : option state_mem.TokenStore)
    (token connectorID : string) (now : time.Time)
  : option state_mem.TokenStore * option error :=
  match tokens with
  | None => (None, Some (status_Error FailedPrecondition "token service unavailable"))
  | Some ts =>
      match state_mem.ConsumeToken ts token connectorID now with
      | (ts', Some _) =>
          (Some ts', Some (status_Error PermissionDenied "invalid enrollment token"))
      | (ts', None) => (Some ts', None)
      end
  end.

End api_mem.

(** ** Controller: package admin (the listing handlers) *)

Module admin.

Record Server : Type := mkServer {
  Tokens : state.TokenStore;
  Reg : state.Registry;
  Tunnelers : option state.TunnelerStatusRegistry;
  AdminAuthToken : string;
  InternalAuthToken : string
}.

(** What a handler writes: [http.Error(w, msg, code)] or
    [writeJSON(w, status, payload)]. *)
Inductive Response (A : Type) : Type :=
| http_Error (msg : string) (code : Z)
| writeJSON (status : Z) (payload : A).
Arguments http_Error {A} msg code.
Arguments writeJSON {A} status payload.

Definition StatusOK : Z := 200.
Definition StatusMethodNotAllowed : Z := 405.

Definition humanizeDuration `{Library} (d : time.Duration) : string :=
  let d := if d <? 0 then 0 else d in
  let seconds := Duration_Seconds_int d in
  if seconds <? 5 then "just now"
  else if seconds <? 60 then pretty seconds +:+ " seconds ago"
  else if seconds <? 3600 then pretty (Z.quot seconds 60) +:+ " minutes ago"
  else if seconds <? 86400 then pretty (Z.quot seconds 3600) +:+ " hours ago"
  else pretty (Z.quot seconds 86400) +:+ " days ago".

(** The presence test both handlers apply to one record. *)
Definition statusOf (now lastSeen : time.Time) : string :=
  if time.Sub now lastSeen <? 30 * time.Second then "ONLINE" else "OFFLINE".

Module respConnector.
Record t : Type := mk {
  ID : string;
  Status : string;
  PrivateIP : string;
  LastSeen : string;
  Version : string
}.
End respConnector.

Definition handleListConnectors `{Library} (s : Server) (method : string) (now : time.Time)
  : Response (list respConnector.t) :=
  if negb (String.eqb method "GET")
  then http_Error "method not allowed" StatusMethodNotAllowed
  else
    let records := state.Registry_List (Reg s) in
    writeJSON StatusOK
      ((λ rec,
          {| respConnector.ID := state.ConnectorRecord.ID rec;
             respConnector.Status := statusOf now (state.ConnectorRecord.LastSeen rec);
             respConnector.PrivateIP := state.ConnectorRecord.PrivateIP rec;
             respConnector.LastSeen :=
               humanizeDuration (time.Sub now (state.ConnectorRecord.LastSeen rec));
             respConnector.Version := state.ConnectorRecord.Version rec |})
         <$> records).

Module respTunneler.
Record t : Type := mk {
  ID : string;
  Status : string;
  ConnectorID : string;
  LastSeen : string
}.
End respTunneler.

Definition handleListTunnelers `{Library} (s : Server) (method : string) (now : time.Time)
  : Response (list respTunneler.t) :=
  if negb (String.eqb method "GET")
  then http_Error "method not allowed" StatusMethodNotAllowed
  else
    match Tunnelers s with
    | None => writeJSON StatusOK []
    | Some reg =>
        let records := state.TunnelerStatus_List reg in
        writeJSON StatusOK
          ((λ rec,
              {| respTunneler.ID := state.TunnelerRecord.ID rec;
                 respTunneler.Status := statusOf now (state.TunnelerRecord.LastSeen rec);
                 respTunneler.ConnectorID := state.TunnelerRecord.ConnectorID rec;
                 respTunneler.LastSeen :=
                   humanizeDuration (time.Sub now (state.TunnelerRecord.LastSeen rec)) |})
             <$> records)
    end.

End admin.

(** ** Well-formed identities and what is assumed of the libraries *)

(** A trust domain as the data model describes it: a bare DNS-like name,
    dot-separated non-empty labels of letters, digits, '-' and '_', hence
    without scheme and without a trailing dot. *)
Definition labelRune (c : Ascii.ascii) : bool :=
  let r := Z.of_N (Ascii.N_of_ascii c) in
  ((97 <=? r) && (r <=? 122)) || ((65 <=? r) && (r <=? 90))
  || ((48 <=? r) && (r <=? 57)) || (r =? 45) || (r =? 95).

Fixpoint dnsLikeFrom (afterDot : bool) (s : string) : bool :=
  match s with
  | EmptyString => negb afterDot
  | String c rest =>
      if Ascii.eqb c "."%char
      then if afterDot then false else dnsLikeFrom true rest
      else if labelRune c then dnsLikeFrom false rest else false
  end.

Definition dnsLike (s : string) : bool := dnsLikeFrom true s.

(** A role or id as a path segment: non-empty, of the runes [validID] admits. *)
Definition cleanSegment (s : string) : bool :=
  negb (bool_decide (s = EmptyString)) && api.allRunes s.

Definition spiffeString (host role id : string) : string :=
  "spiffe://" +:+ host +:+ "/" +:+ role +:+ "/" +:+ id.

Definition spiffeURL (host role id : string) : url.URL :=
  {| url.Scheme := "spiffe";
     url.Host := host;
     url.Path := "/" +:+ role +:+ "/" +:+ id;
     url.RawQuery := EmptyString;
     url.Fragment := EmptyString |}.

(** [net.IP.Equal]: equal as addresses, an IPv4 address and its 16-byte
    form being the same address. *)
Definition v4InV6Prefix : bytes :=
  [x00; x00; x00; x00; x00; x00; x00; x00; x00; x00; xff; xff].

Definition IP_Equal (ip x : net.IP) : bool :=
  if (length ip =? length x)%nat then bool_decide (ip = x)
  else if (length ip =? 4)%nat && (length x =? 16)%nat
  then bool_decide (take 12 x = v4InV6Prefix) && bool_decide (ip = drop 12 x)
  else if (length ip =? 16)%nat && (length x =? 4)%nat
  then bool_decide (take 12 ip = v4InV6Prefix) && bool_decide (drop 12 ip = x)
  else false.

(** What the proofs use of net/url, encoding/pem, crypto/x509 and net, on
    the identities this controller builds:
    - a SPIFFE URI with a DNS-like host and two clean segments parses into
      exactly these parts and prints back as the same string;
    - a PEM block of type CERTIFICATE decodes to itself;
    - [net.ParseIP] returns the 16-byte form;
    - a certificate created from a template with such a URI and with IP
      addresses of length 4 or 16 parses, with the same URIs, the same
      [IsCA] and the same addresses. *)
Class LibraryLaws (L : Library) : Prop := {
  url_Parse_spiffe : ∀ host role id,
    dnsLike host = true → cleanSegment role = true → cleanSegment id = true →
    url_Parse (spiffeString host role id) = Ok (spiffeURL host role id);
  URL_String_spiffe : ∀ host role id,
    dnsLike host = true → cleanSegment role = true → cleanSegment id = true →
    URL_String (spiffeURL host role id) = spiffeString host role id;
  pem_Decode_Encode : ∀ der,
    pem_Decode (pem_EncodeToMemory {| pem.Type_ := "CERTIFICATE"; pem.Bytes := der |})
    = Some {| pem.Type_ := "CERTIFICATE"; pem.Bytes := der |};
  net_ParseIP_length : ∀ s ip, net_ParseIP s = Some ip → length ip = 16%nat;
  x509_Parse_Create : ∀ entropy tmpl parent pub key der host role id,
    x509_CreateCertificate entropy tmpl parent pub key = Ok der →
    x509.URIs tmpl = [spiffeURL host role id] →
    dnsLike host = true → cleanSegment role = true → cleanSegment id = true →
    Forall (λ ip : net.IP, length ip = 4%nat ∨ length ip = 16%nat) (x509.IPAddresses tmpl) →
    ∃ leaf, x509_ParseCertificate der = Ok leaf
            ∧ x509.URIs leaf = x509.URIs tmpl
            ∧ x509.IsCA leaf = x509.IsCA tmpl
            ∧ Forall2 (λ a b, IP_Equal a b = true)
                      (x509.IPAddresses leaf) (x509.IPAddresses tmpl)
}.

(** The instant a certificate holds for [t]: a validity bound is written
    as an ASN.1 UTCTime or GeneralizedTime, to the second, and the fraction
    of a second is dropped. *)
Definition wholeSeconds (t : time.Time) : time.Time := t - t mod time.Second.

(** What is assumed of crypto/x509 about the validity of a certificate it
    has signed: parsed back, the certificate holds the two bounds of the
    template in whole seconds. *)
Class ValidityLaws (L : Library) : Prop := {
  x509_Parse_Create_validity : ∀ entropy tmpl parent pub key der leaf,
    x509_CreateCertificate entropy tmpl parent pub key = Ok der →
    x509_ParseCertificate der = Ok leaf →
    x509.NotBefore leaf = wholeSeconds (x509.NotBefore tmpl)
    ∧ x509.NotAfter leaf = wholeSeconds (x509.NotAfter tmpl)
}.

(** ** The leaf behind an issued PEM *)

(** [signedLeaf ca spiffeID pubKey ttl dns ips env certPEM leaf]: [leaf] is
    the template that [IssueWorkloadCert], called with these arguments,
    had signed and PEM-encoded into [certPEM]. *)
Definition signedLeaf `{Library} (c : option ca.CA) (spiffeID : string)
    (pubKey : crypto_PublicKey) (ttl : time.Duration) (dnsNames : list string)
    (ipAddrs : list net.IP) (env : Env) (certPEM : bytes) (leaf : x509.Certificate) : Prop :=
  ∃ c0 caCert caKey uri serial der,
    c = Some c0 ∧ ca.Cert c0 = Some caCert ∧ ca.Key c0 = Some caKey
    ∧ url_Parse spiffeID = Ok uri
    ∧ env_serial env = Ok serial
    ∧ leaf = ca.tmpl uri serial (env_now env) ttl dnsNames ipAddrs
    ∧ x509_CreateCertificate (env_entropy env) leaf caCert pubKey caKey = Ok der
    ∧ certPEM = pem_EncodeToMemory {| pem.Type_ := "CERTIFICATE"; pem.Bytes := der |}.

(** The lifetime [Renew] grants a role. *)
Definition renewTTL (role : string) : time.Duration :=
  if String.eqb role "connector" then 5 * time.Minute else 30 * time.Minute.

(** [issued s env role id ttl certPEM]: one of the three endpoints
    returned the certificate [certPEM], with lifetime [ttl], for the
    identity [role]/[id]. *)
Inductive issued `{Library} (s : api.EnrollmentServer) (env : Env)
  : string → string → time.Duration → bytes → Prop :=
| issued_EnrollConnector req s' resp :
    api.EnrollConnector s env req = (s', Ok resp) →
    issued s env "connector" (controllerpb.Id req) (5 * time.Minute)
      (controllerpb.Certificate resp)
| issued_EnrollTunneler req s' resp :
    api.EnrollTunneler s env req = (s', Ok resp) →
    issued s env "tunneler" (controllerpb.Id req) (30 * time.Minute)
      (controllerpb.Certificate resp)
| issued_Renew ctx req resp role :
    api.Renew s ctx env req = Ok resp →
    api.ctx_spiffe_role ctx = Some role →
    issued s env role (controllerpb.Id req) (renewTTL role)
      (controllerpb.Certificate resp).

(** The segments of a SPIFFE path, split the way the interceptor splits. *)
Definition pathSegments (u : url.URL) : list string :=
  strings.Split (strings.TrimPrefix (url.Path u) "/") "/".

(** ** A small library instance, to run the model on concrete inputs *)

(** The instance below is not Go's library: the digest is the identity,
    a PEM block is its bytes behind one marker byte, the URL parser reads
    only the form scheme://host/path, and a certificate is "encoded" as
    its index in a table of known leaves.  It serves to evaluate the
    functions above on concrete requests. *)

#[global] Instance URL_eq_dec : EqDecision url.URL.
Proof. solve_decision. Defined.

#[global] Instance ExtKeyUsage_eq_dec : EqDecision x509.ExtKeyUsage.
Proof. solve_decision. Defined.

#[global] Instance Certificate_eq_dec : EqDecision x509.Certificate.
Proof. solve_decision. Defined.

Module plain.

Fixpoint cut (c : Ascii.ascii) (s : string) : string * string :=
  match s with
  | EmptyString => (EmptyString, EmptyString)
  | String a rest =>
      if Ascii.eqb a c then (EmptyString, s)
      else let '(x, y) := cut c rest in (String a x, y)
  end.

Definition url_Parse (s : string) : result error url.URL :=
  let '(scheme, r1) := cut ":"%char s in
  if strings.HasPrefix r1 "://" then
    let '(host, path) := cut "/"%char (strings.drop 3 r1) in
    Ok {| url.Scheme := scheme; url.Host := host; url.Path := path;
          url.RawQuery := EmptyString; url.Fragment := EmptyString |}
  else Err (errors_New "missing protocol scheme").

Definition URL_String (u : url.URL) : string :=
  url.Scheme u +:+ "://" +:+ url.Host u +:+ url.Path u.

Definition pem_Decode (data : bytes) : option pem.Block :=
  match data with
  | [] => None
  | _ :: rest => Some {| pem.Type_ := "CERTIFICATE"; pem.Bytes := rest |}
  end.

Definition pem_EncodeToMemory (b : pem.Block) : bytes := x2d :: pem.Bytes b.

Definition ip_10_0_0_5 : net.IP := v4InV6Prefix ++ [x0a; x00; x00; x05].

Definition net_ParseIP (s : string) : option net.IP :=
  if String.eqb s "10.0.0.5" then Some ip_10_0_0_5 else None.

Definition issueInstant : time.Time := 63900000000 * time.Second.

(** The two leaves the table knows: connector c1 of mycorp.internal,
    serial 7, issued at [issueInstant], with and without its IP SAN. *)
Definition leafWithIP : x509.Certificate :=
  ca.tmpl (spiffeURL "mycorp.internal" "connector" "c1") 7 issueInstant
          (5 * time.Minute) [] [ip_10_0_0_5].

Definition leafWithoutIP : x509.Certificate :=
  ca.tmpl (spiffeURL "mycorp.internal" "connector" "c1") 7 issueInstant
          (5 * time.Minute) [] [].

Definition x509_CreateCertificate (entropy : bytes) (template parent : x509.Certificate)
    (pub : crypto_PublicKey) (priv : crypto_Signer) : result error bytes :=
  if decide (template = leafWithIP) then Ok [x00]
  else if decide (template = leafWithoutIP) then Ok [x01]
  else Err (errors_New "x509: unknown template").

Definition x509_ParseCertificate (der : bytes) : result error x509.Certificate :=
  if decide (der = [x00]) then Ok leafWithIP
  else if decide (der = [x01]) then Ok leafWithoutIP
  else Err (errors_New "x509: malformed certificate").

Definition library : Library :=
  Build_Library
    (λ data, data)
    pem_Decode
    pem_EncodeToMemory
    (λ der, Ok (mkPublicKey der))
    x509_CreateCertificate
    x509_ParseCertificate
    url_Parse
    URL_String
    net_ParseIP
    (λ d, Z.quot d time.Second).

(** A controller with trust domain mycorp.internal, an empty registry and
    a token store with a ten-minute TTL and no file behind it. *)
Definition caCert : x509.Certificate :=
  {| x509.SerialNumber := 1;
     x509.NotBefore := issueInstant - 24 * time.Hour;
     x509.NotAfter := issueInstant + 8760 * time.Hour;
     x509.KeyUsage := 96;
     x509.ExtKeyUsages := [];
     x509.BasicConstraintsValid := true;
     x509.IsCA := true;
     x509.URIs := [];
     x509.DNSNames := [];
     x509.IPAddresses := [] |}.

Definition rawToken : bytes :=
  [x00; x01; x02; x03; x04; x05; x06; x07; x08; x09; x0a; x0b; x0c; x0d; x0e; x0f].

Definition token : string := hex_EncodeToString rawToken.

Definition tokenStore : state.TokenStore :=
  fst (@state.CreateToken library (state.NewTokenStore (10 * time.Minute) EmptyString None)
         (issueInstant - time.Minute) (Ok rawToken) None).

Definition server : api.EnrollmentServer :=
  {| api.CA := Some {| ca.Cert := Some caCert; ca.Key := Some (mkSigner [x01]) |};
     api.CAPEM := [x2d; x00];
     api.TrustDomain := "mycorp.internal";
     api.Tokens := Some tokenStore;
     api.Registry := Some state.NewRegistry;
     api.Notifier := None |}.

Definition env : Env :=
  {| env_now := issueInstant; env_io := None; env_serial := Ok 7; env_entropy := [] |}.

Definition request (privateIP : string) : controllerpb.EnrollRequest :=
  {| controllerpb.Id := "c1";
     controllerpb.PublicKey := [x2d; x01];
     controllerpb.Token := token;
     controllerpb.PrivateIp := privateIP;
     controllerpb.Version := "1.0" |}.

(** A peer whose leaf carries [spiffe://mycorp.internal<path>]. *)
Definition peerCtx (path : string) : api.Ctx :=
  {| api.ctx_peer :=
       Some {| api.peer_AuthInfo :=
                 api.TLSInfo
                   [ca.tmpl {| url.Scheme := "spiffe"; url.Host := "mycorp.internal";
                               url.Path := path; url.RawQuery := EmptyString;
                               url.Fragment := EmptyString |}
                            9 issueInstant (5 * time.Minute) [] []] |};
     api.ctx_spiffe_id := None;
     api.ctx_spiffe_role := None |}.

End plain.

(** ** The same library at an instant that is not a whole second *)

Module subsecond.

(** Half a second past [plain.issueInstant]. *)
Definition issueInstant : time.Time := plain.issueInstant + 500000000.

(** The template [IssueWorkloadCert] hands to the signer at that instant
    for connector c1 with its IP SAN, and the certificate the signed DER
    parses into, whose validity holds whole seconds. *)
Definition template : x509.Certificate :=
  ca.tmpl (spiffeURL "mycorp.internal" "connector" "c1") 7 issueInstant
          (5 * time.Minute) [] [plain.ip_10_0_0_5].

Definition certificate : x509.Certificate :=
  {| x509.SerialNumber := x509.SerialNumber template;
     x509.NotBefore := wholeSeconds (x509.NotBefore template);
     x509.NotAfter := wholeSeconds (x509.NotAfter template);
     x509.KeyUsage := x509.KeyUsage template;
     x509.ExtKeyUsages := x509.ExtKeyUsages template;
     x509.BasicConstraintsValid := x509.BasicConstraintsValid template;
     x509.IsCA := x509.IsCA template;
     x509.URIs := x509.URIs template;
     x509.DNSNames := x509.DNSNames template;
     x509.IPAddresses := x509.IPAddresses template |}.

Definition x509_CreateCertificate (entropy : bytes) (tmpl parent : x509.Certificate)
    (pub : crypto_PublicKey) (priv : crypto_Signer) : result error bytes :=
  if decide (tmpl = template) then Ok [x02]
  else Err (errors_New "x509: unknown template").

Definition x509_ParseCertificate (der : bytes) : result error x509.Certificate :=
  if decide (der = [x02]) then Ok certificate
  else Err (errors_New "x509: malformed certificate").

Definition library : Library :=
  Build_Library
    (λ data, data)
    plain.pem_Decode
    plain.pem_EncodeToMemory
    (λ der, Ok (mkPublicKey der))
    x509_CreateCertificate
    x509_ParseCertificate
    plain.url_Parse
    plain.URL_String
    plain.net_ParseIP
    (λ d, Z.quot d time.Second).

Definition env : Env :=
  {| env_now := issueInstant; env_io := None; env_serial := Ok 7; env_entropy := [] |}.

End subsecond.

(** * The rest of the packages *)

(** ** Controller: package admin, the authorisation wrappers and the token endpoints *)

Module admin_http.

(** The decoded body of a consume-token request. *)
Record ConsumeBody : Type := mkConsumeBody {
  Token : string;
  ConnectorID : string
}.

(** What the handlers read of an [http.Request]: the method, the two
    headers (empty when absent) and the JSON body, [None] when it does not
    decode. *)
Record Request : Type := mkRequest {
  Method : string;
  Authorization : string;
  XInternalToken : string;
  Body : option ConsumeBody
}.

Definition StatusBadRequest : Z := 400.
Definition StatusUnauthorized : Z := 401.
Definition StatusInternalServerError : Z := 500.
Definition StatusServiceUnavailable : Z := 503.

(** [adminAuth(next)]: [next] is the wrapped handler, already applied to
    the server. *)
Definition adminAuth {P : Type} (s : admin.Server)
    (next : Request → admin.Server * admin.Response P) (r : Request)
  : admin.Server * admin.Response P :=
  if bool_decide (admin.AdminAuthToken s = EmptyString)
  then (s, admin.http_Error "admin auth not configured" StatusServiceUnavailable)
  else if negb (String.eqb (Authorization r) ("Bearer " +:+ admin.AdminAuthToken s))
  then (s, admin.http_Error "unauthorized" StatusUnauthorized)
  else next r.

Definition internalAuth {P : Type} (s : admin.Server)
    (next : Request → admin.Server * admin.Response P) (r : Request)
  : admin.Server * admin.Response P :=
  if bool_decide (admin.InternalAuthToken s = EmptyString)
  then (s, admin.http_Error "internal auth not configured" StatusServiceUnavailable)
  else if negb (String.eqb (XInternalToken r) (admin.InternalAuthToken s))
  then (s, admin.http_Error "unauthorized" StatusUnauthorized)
  else next r.

Definition withTokens (s : admin.Server) (ts : state.TokenStore) : admin.Server :=
  {| admin.Tokens := ts; admin.Reg := admin.Reg s; admin.Tunnelers := admin.Tunnelers s;
     admin.AdminAuthToken := admin.AdminAuthToken s;
     admin.InternalAuthToken := admin.InternalAuthToken s |}.

(** [handleCreateToken].  The payload is the token and its expiry; the
    handler prints the expiry in RFC 3339, which is left to the library. *)
Definition handleCreateToken `{Library} (s : admin.Server) (now : time.Time)
    (raw : result error bytes) (io : option error) (r : Request)
  : admin.Server * admin.Response (string * time.Time) :=
  if negb (String.eqb (Method r) "POST")
  then (s, admin.http_Error "method not allowed" admin.StatusMethodNotAllowed)
  else
    let '(ts, res) := state.CreateToken (admin.Tokens s) now raw io in
    match res with
    | Err _ => (withTokens s ts,
                admin.http_Error "failed to create token" StatusInternalServerError)
    | Ok (token, expires) => (withTokens s ts, admin.writeJSON admin.StatusOK (token, expires))
    end.

Definition handleConsumeToken `{Library} (s : admin.Server) (now : time.Time)
    (io : option error) (r : Request) : admin.Server * admin.Response string :=
  if negb (String.eqb (Method r) "POST")
  then (s, admin.http_Error "method not allowed" admin.StatusMethodNotAllowed)
  else
    match Body r with
    | None => (s, admin.http_Error "invalid json" StatusBadRequest)
    | Some req =>
        if bool_decide (ConnectorID req = EmptyString)
        then (s, admin.http_Error "missing connector_id" StatusBadRequest)
        else
          let '(ts, err) := state.ConsumeToken (admin.Tokens s) (Token req) (ConnectorID req)
                              now io in
          match err with
          | Some e => (withTokens s ts,
                       admin.http_Error ("token invalid: " +:+ Error e) StatusUnauthorized)
          | None => (withTokens s ts, admin.writeJSON admin.StatusOK "ok"%string)
          end
    end.

End admin_http.

(** ** Connector and tunneler: package tlsutil *)

Module tlsutil.

Definition KeyUsageCertSign : Z := 32.

Definition verifySPIFFEURI (uri : url.URL) (trustDomain expectedRole : string) : option error :=
  if negb (String.eqb (url.Scheme uri) "spiffe")
  then Some (errors_New "SPIFFE ID must use spiffe:// scheme")
  else if negb (String.eqb (url.Host uri) trustDomain)
  then Some (errors_New "SPIFFE trust domain mismatch")
  else
    let path := strings.TrimPrefix (url.Path uri) "/" in
    match strings.Split path "/" with
    | [] => Some (errors_New "invalid SPIFFE path")
    | role :: _ =>
        if negb (bool_decide (expectedRole = EmptyString)) && negb (String.eqb role expectedRole)
        then Some (errors_New "unexpected SPIFFE role")
        else None
    end.

(** [VerifyPeerSPIFFE] over the chains the TLS stack has verified. *)
Definition VerifyPeerSPIFFE (rawCerts : list bytes)
    (verifiedChains : list (list x509.Certificate)) (trustDomain expectedRole : string)
  : option error :=
  match rawCerts with
  | [] => Some (errors_New "no peer certificates")
  | _ =>
      match verifiedChains with
      | (leaf :: _) :: _ =>
          match x509.URIs leaf with
          | [uri] => verifySPIFFEURI uri trustDomain expectedRole
          | _ => Some (errors_New "exactly one SPIFFE ID is required")
          end
      | _ => Some (errors_New "peer verification failed")
      end
  end.

Definition ParseAndValidateCA `{Library} (pemBytes : bytes) : result error x509.Certificate :=
  match pem_Decode pemBytes with
  | None => Err (errors_New "invalid CA PEM")
  | Some block =>
      if negb (String.eqb (pem.Type_ block) "CERTIFICATE")
      then Err (errors_New "invalid CA PEM")
      else
        cert <- x509_ParseCertificate (pem.Bytes block) ;;;
        if negb (x509.IsCA cert) || negb (x509.BasicConstraintsValid cert)
        then Err (errors_New "certificate is not a valid CA")
        else if Z.land (x509.KeyUsage cert) KeyUsageCertSign =? 0
        then Err (errors_New "CA certificate missing key usage")
        else Ok cert
  end.

Definition EqualCAPEM `{Library} (a b : bytes) : bool :=
  match pem_Decode a, pem_Decode b with
  | Some ab, Some bb => bool_decide (pem.Bytes ab = pem.Bytes bb)
  | _, _ => false
  end.

End tlsutil.

(** ** The control messages *)

Module controlpb.

Record ControlMessage : Type := mkControlMessage {
  Type_ : string;
  ConnectorId : string;
  PrivateIp : string;
  Status : string;
  Payload : bytes
}.

Definition typed (t : string) : ControlMessage :=
  {| Type_ := t; ConnectorId := EmptyString; PrivateIp := EmptyString;
     Status := EmptyString; Payload := [] |}.

End controlpb.

(** ** Connector: package run, the allowlist and the loops' backoff *)

Module run.

Record tunnelerInfo : Type := mkTunnelerInfo {
  TunnelerID : string;
  SPIFFEID : string
}.

Record tunnelerAllowlist : Type := mkTunnelerAllowlist {
  bySPIFFE : gset string
}.

Definition newTunnelerAllowlist : tunnelerAllowlist := {| bySPIFFE := ∅ |}.

Definition Allowed (a : tunnelerAllowlist) (spiffeID : string) : bool :=
  bool_decide (spiffeID ∈ bySPIFFE a).

Definition Replace (a : tunnelerAllowlist) (items : list tunnelerInfo) : tunnelerAllowlist :=
  {| bySPIFFE :=
       foldl (λ m item,
                if bool_decide (SPIFFEID item = EmptyString) then m
                else {[SPIFFEID item]} ∪ m)
             ∅ items |}.

Definition Add (a : tunnelerAllowlist) (spiffeID : string) : tunnelerAllowlist :=
  if bool_decide (spiffeID = EmptyString) then a
  else {| bySPIFFE := {[spiffeID]} ∪ bySPIFFE a |}.

(** [handleControlMessage].  [unmarshalItems] and [unmarshalItem] are
    [json.Unmarshal] into a slice of [tunnelerInfo] and into one. *)
Definition handleControlMessage
    (unmarshalItems : bytes → result error (list tunnelerInfo))
    (unmarshalItem : bytes → result error tunnelerInfo)
    (msg : option controlpb.ControlMessage) (allowlist : option tunnelerAllowlist)
  : option tunnelerAllowlist :=
  match msg, allowlist with
  | Some m, Some a =>
      if String.eqb (controlpb.Type_ m) "tunneler_allowlist" then
        match unmarshalItems (controlpb.Payload m) with
        | Ok items => Some (Replace a items)
        | Err _ => Some a
        end
      else if String.eqb (controlpb.Type_ m) "tunneler_allow" then
        match unmarshalItem (controlpb.Payload m) with
        | Ok item => Some (Add a (SPIFFEID item))
        | Err _ => Some a
        end
      else Some a
  | _, _ => allowlist
  end.

Definition parseTunnelerID (spiffeID : string) : string :=
  if bool_decide (spiffeID = EmptyString) then EmptyString
  else
    match strings.Split (strings.TrimPrefix spiffeID "spiffe://") "/" with
    | _ :: role :: id :: _ => if negb (String.eqb role "tunneler") then EmptyString else id
    | _ => EmptyString
    end.

(** The update of [backoff] that ends every turn of [serverLoop] and of
    [controlPlaneLoop]; both start from two seconds. *)
Definition nextBackoff (backoff : time.Duration) : time.Duration :=
  if backoff <? 30 * time.Second then time.wrap (backoff * 2) else backoff.

Definition initialBackoff : time.Duration := 2 * time.Second.

Definition backoffAfter (turns : nat) : time.Duration :=
  Nat.iter turns nextBackoff initialBackoff.

End run.

(** ** Connector: package spiffe, the interceptor with an allowlist *)

Module spiffe.

(** [allowlist] is the [Allowed] method of the [Allowlist] interface, or
    [None] for a nil interface.  [extractAndVerifySPIFFE] of this package
    is the controller's, without its log line. *)
Definition UnaryInterceptorWithAllowlist `{Library} {Req Resp : Type} (trustDomain : string)
    (allowlist : option (string → bool)) (allowedRoles : list string)
    (ctx : api.Ctx) (req : Req) (handler : api.Ctx → Req → result error Resp)
  : result error Resp :=
  let roles := api.makeRoleSet allowedRoles in
  match api.extractAndVerifySPIFFE ctx trustDomain roles with
  | Err e => Err e
  | Ok (spiffeID, role) =>
      match allowlist with
      | Some allowed =>
          if String.eqb role "tunneler" && negb (allowed spiffeID)
          then Err (errors_New "tunneler not allowed")
          else handler (api.withIdentity ctx spiffeID role) req
      | None => handler (api.withIdentity ctx spiffeID role) req
      end
  end.

End spiffe.

(** ** Controller: the control-plane stream *)

Module control_plane.

Record ControlPlaneServer : Type := mkControlPlaneServer {
  registry : option state.Registry;
  tunnelers : option state.TunnelerRegistry;
  tunnelerStatus : option state.TunnelerStatusRegistry;
  clients : gset string
}.

(** The payload of a relayed tunneler heartbeat. *)
Record HeartbeatPayload : Type := mkHeartbeatPayload {
  TunnelerID : string;
  SPIFFEID : string;
  Status : string;
  ConnectorID : string
}.

(** A stream as the handler meets it: its context, the messages [Recv]
    returns with the instant each is handled at, the way it ends ([None]
    for io.EOF), and the outcomes of the successive [Send]s (success once
    the list is used up). *)
Record Stream : Type := mkStream {
  stream_ctx : api.Ctx;
  stream_recv : list (time.Time * controlpb.ControlMessage);
  stream_end : option error;
  stream_send : list (option error)
}.

Definition withRegistry (s : ControlPlaneServer) (r : state.Registry) : ControlPlaneServer :=
  {| registry := Some r; tunnelers := tunnelers s; tunnelerStatus := tunnelerStatus s;
     clients := clients s |}.

Definition withTunnelerStatus (s : ControlPlaneServer) (r : state.TunnelerStatusRegistry)
  : ControlPlaneServer :=
  {| registry := registry s; tunnelers := tunnelers s; tunnelerStatus := Some r;
     clients := clients s |}.

Definition addClient (s : ControlPlaneServer) (id : string) : ControlPlaneServer :=
  {| registry := registry s; tunnelers := tunnelers s; tunnelerStatus := tunnelerStatus s;
     clients := {[id]} ∪ clients s |}.

Definition removeClient (s : ControlPlaneServer) (id : string) : ControlPlaneServer :=
  {| registry := registry s; tunnelers := tunnelers s; tunnelerStatus := tunnelerStatus s;
     clients := clients s ∖ {[id]} |}.

(** One [stream.Send]: its outcome and the outcomes left. *)
Definition send (outcomes : list (option error)) : option error * list (option error) :=
  match outcomes with
  | [] => (None, [])
  | o :: rest => (o, rest)
  end.

(** [sendAllowlist]: the snapshot goes out unless there is no allowlist or
    it does not encode; the error of the send is dropped.  The result is
    the list of messages delivered and the send outcomes left. *)
Definition sendAllowlist (marshal : list state.TunnelerInfo.t → result error bytes)
    (s : ControlPlaneServer) (outcomes : list (option error))
  : list controlpb.ControlMessage * list (option error) :=
  match tunnelers s with
  | None => ([], outcomes)
  | Some reg =>
      match marshal (state.TunnelerRegistry_List reg) with
      | Err _ => ([], outcomes)
      | Ok payload =>
          let m := {| controlpb.Type_ := "tunneler_allowlist";
                      controlpb.ConnectorId := EmptyString;
                      controlpb.PrivateIp := EmptyString;
                      controlpb.Status := EmptyString;
                      controlpb.Payload := payload |} in
          match send outcomes with
          | (None, rest) => ([m], rest)
          | (Some _, rest) => ([], rest)
          end
      end
  end.

(** What the body of the loop does to the registries with one message. *)
Definition record (unmarshal : bytes → result error HeartbeatPayload)
    (s : ControlPlaneServer) (now : time.Time) (msg : controlpb.ControlMessage)
  : ControlPlaneServer :=
  let s1 :=
    if String.eqb (controlpb.Type_ msg) "heartbeat" then
      match registry s with
      | Some r =>
          withRegistry s (state.RecordHeartbeat r (controlpb.ConnectorId msg)
                            (controlpb.PrivateIp msg) now)
      | None => s
      end
    else s in
  if String.eqb (controlpb.Type_ msg) "tunneler_heartbeat" then
    match tunnelerStatus s1 with
    | Some ts =>
        match unmarshal (controlpb.Payload msg) with
        | Ok p => withTunnelerStatus s1
                    (state.TunnelerStatus_Record ts (TunnelerID p) (SPIFFEID p)
                       (ConnectorID p) now)
        | Err _ => s1
        end
    | None => s1
    end
  else s1.

(** The receive loop: the server, the messages delivered so far and the
    send outcomes left go round; it ends with the stream or with the
    first failed pong. *)
Fixpoint loop (unmarshal : bytes → result error HeartbeatPayload)
    (s : ControlPlaneServer) (incoming : list (time.Time * controlpb.ControlMessage))
    (closing : option error) (outcomes : list (option error))
    (sent : list controlpb.ControlMessage)
  : ControlPlaneServer * list controlpb.ControlMessage * option error :=
  match incoming with
  | [] => (s, sent, closing)
  | (now, msg) :: rest =>
      if String.eqb (controlpb.Type_ msg) "ping" then
        match send outcomes with
        | (Some e, _) => (s, sent, Some e)
        | (None, outcomes') =>
            loop unmarshal (record unmarshal s now msg) rest closing outcomes'
                 (sent ++ [controlpb.typed "pong"])
        end
      else loop unmarshal (record unmarshal s now msg) rest closing outcomes sent
  end.

(** [Connect]: the final server, the messages delivered to the peer, and
    the error returned. *)
Definition Connect (marshal : list state.TunnelerInfo.t → result error bytes)
    (unmarshal : bytes → result error HeartbeatPayload)
    (s : ControlPlaneServer) (stream : Stream)
  : ControlPlaneServer * list controlpb.ControlMessage * option error :=
  let '(role, ok) := api.RoleFromContext (stream_ctx stream) in
  if negb ok || negb (String.eqb role "connector")
  then (s, [], Some (status_Error PermissionDenied "connector role required"))
  else
    let '(spiffeID, _) := api.SPIFFEIDFromContext (stream_ctx stream) in
    let s0 := addClient s spiffeID in
    let '(sent0, outcomes0) := sendAllowlist marshal s0 (stream_send stream) in
    let '(s1, sent, err) :=
      loop unmarshal s0 (stream_recv stream) (stream_end stream) outcomes0 sent0 in
    (removeClient s1 spiffeID, sent, err).

End control_plane.

(** ** Invariants of the registries *)

(** Every connector record is stored under its own id. *)
Definition keyedByID (r : state.Registry) : Prop :=
  ∀ id rec, state.connectors r !! id = Some rec → state.ConnectorRecord.ID rec = id.

(** The order of the allowlist lists each enrolled tunneler once. *)
Definition orderedOnce (r : state.TunnelerRegistry) : Prop :=
  NoDup (state.order r) ∧ ∀ id, id ∈ state.order r ↔ is_Some (state.byID r !! id).

(** The runes of a token: lower-case hexadecimal digits. *)
Definition hexRune (c : Ascii.ascii) : bool :=
  let r := Z.of_N (Ascii.N_of_ascii c) in
  ((48 <=? r) && (r <=? 57)) || ((97 <=? r) && (r <=? 102)).

Fixpoint allHex (s : string) : bool :=
  match s with
  | EmptyString => true
  | String c rest => hexRune c && allHex rest
  end.

(** ** A second library instance, whose signer signs every template *)

Module signing.

Definition library : Library :=
  Build_Library
    (λ data, data)
    plain.pem_Decode
    plain.pem_EncodeToMemory
    (λ der, Ok (mkPublicKey der))
    (λ _ _ _ _ _, Ok [x00])
    (λ _, Err (errors_New "x509: malformed certificate"))
    plain.url_Parse
    plain.URL_String
    plain.net_ParseIP
    (λ d, Z.quot d time.Second).

(** The controller of the example, with an empty tunneler allowlist behind
    its notifier. *)
Definition server : api.EnrollmentServer :=
  {| api.CA := api.CA plain.server;
     api.CAPEM := api.CAPEM plain.server;
     api.TrustDomain := api.TrustDomain plain.server;
     api.Tokens := api.Tokens plain.server;
     api.Registry := api.Registry plain.server;
     api.Notifier := Some state.NewTunnelerRegistry |}.

Definition request : controllerpb.EnrollRequest :=
  {| controllerpb.Id := "t1";
     controllerpb.PublicKey := [x2d; x01];
     controllerpb.Token := plain.token;
     controllerpb.PrivateIp := EmptyString;
     controllerpb.Version := EmptyString |}.

End signing.

(** [fromHexChar] of encoding/hex, on the digits [hex.EncodeToString]
    writes. *)
Definition fromHexChar (c : Ascii.ascii) : N :=
  let r := Ascii.N_of_ascii c in
  if (r <? 58)%N then (r - 48)%N else (r - 87)%N.

(** ** The specification's formulas, as stated *)

(** "next_at = max(now + 10s, not_after − 0.30 × total_ttl)", multiplied
    through by 100 so that it is a statement about integers. *)
Definition renewalFormula (now notAfter : time.Time) (totalTTL : time.Duration)
    (next : time.Time) : Prop :=
  100 * next = Z.max (100 * (now + 10 * time.Second)) (100 * notAfter - 30 * totalTTL).

(** The expiry [CreateToken] gives when the store has no positive TTL. *)
Definition tenYears : time.Duration := 10 * 365 * 24 * time.Hour.

(** * Properties *)

(** ** Durations and instants *)

Lemma wrap_in_range z :
  time.minDuration ≤ z ≤ time.maxDuration → time.wrap z = z.
Proof.
  unfold time.wrap, time.minDuration, time.maxDuration. intros Hz.
  rewrite Z.mod_small; lia.
Qed.

Lemma Sub_nonpos t u : time.Sub t u ≤ 0 ↔ t ≤ u.
Proof.
  unfold time.Sub, time.minDuration, time.maxDuration.
  repeat case_match; rewrite ?Z.ltb_lt, ?Z.ltb_ge in *; lia.
Qed.

Lemma Sub_exact t u :
  time.minDuration ≤ t - u ≤ time.maxDuration → time.Sub t u = t - u.
Proof.
  unfold time.Sub. intros Hr.
  repeat case_match; rewrite ?Z.ltb_lt, ?Z.ltb_ge in *; lia.
Qed.

(** Saturation does not disturb a comparison with a bound inside the
    Duration range. *)
Lemma Sub_lt_bound t u d :
  time.minDuration < d ≤ time.maxDuration → (time.Sub t u < d ↔ t - u < d).
Proof.
  unfold time.Sub. intros Hd.
  repeat case_match; rewrite ?Z.ltb_lt, ?Z.ltb_ge in *; lia.
Qed.

(** ** C5: the renewal scheduler *)

Lemma nextRenewal_expired now notAfter totalTTL :
  notAfter ≤ now → nextRenewal now notAfter totalTTL = now + 10 * time.Second.
Proof.
  intros Hle. unfold nextRenewal, time.Until, time.Add.
  apply Sub_nonpos in Hle. apply Z.leb_le in Hle. by rewrite Hle.
Qed.

Lemma nextRenewal_positive_ttl now notAfter totalTTL :
  0 < totalTTL → totalTTL * 30 ≤ time.maxDuration →
  nextRenewal now notAfter totalTTL
  = Z.max (now + 10 * time.Second) (notAfter - totalTTL * 30 / 100).
Proof.
  intros Hpos Hbound.
  assert (Hq : 0 ≤ totalTTL * 30 / 100 ≤ time.maxDuration).
  { split; [apply Z.div_pos; lia |].
    apply Z.div_le_upper_bound; unfold time.maxDuration in *; lia. }
  destruct (Z.le_gt_cases notAfter now) as [Hexp | Hlive].
  - rewrite nextRenewal_expired by done. unfold time.Second. lia.
  - unfold nextRenewal, time.Until, time.Add, time.Before.
    assert (Hrem : ¬ time.Sub notAfter now ≤ 0) by (rewrite Sub_nonpos; lia).
    apply Z.leb_nle in Hrem. rewrite Hrem.
    assert (Hneg : ¬ totalTTL ≤ 0) by lia.
    apply Z.leb_nle in Hneg. rewrite Hneg.
    rewrite (wrap_in_range (totalTTL * 30)) by (unfold time.minDuration; lia).
    rewrite Z.quot_div_nonneg by lia.
    rewrite wrap_in_range by (unfold time.minDuration, time.maxDuration in *; lia).
    case_match; rewrite ?Z.ltb_lt, ?Z.ltb_ge in *; lia.
Qed.

Lemma nextRenewal_nonpositive_ttl now notAfter totalTTL :
  totalTTL ≤ 0 → now < notAfter → (notAfter - now) * 30 ≤ time.maxDuration →
  nextRenewal now notAfter totalTTL
  = Z.max (now + 10 * time.Second) (notAfter - (notAfter - now) * 30 / 100).
Proof.
  intros Hnp Hlive Hbound.
  assert (Hsub : time.Sub notAfter now = notAfter - now).
  { apply Sub_exact. unfold time.minDuration, time.maxDuration in *. lia. }
  assert (Hq : 0 ≤ (notAfter - now) * 30 / 100 ≤ time.maxDuration).
  { split; [apply Z.div_pos; lia |].
    apply Z.div_le_upper_bound; unfold time.maxDuration in *; lia. }
  unfold nextRenewal, time.Until, time.Add, time.Before. rewrite Hsub.
  assert (Hrem : ¬ notAfter - now ≤ 0) by lia.
  apply Z.leb_nle in Hrem. rewrite Hrem.
  apply Z.leb_le in Hnp. rewrite Hnp.
  rewrite (wrap_in_range ((notAfter - now) * 30)) by (unfold time.minDuration; lia).
  rewrite Z.quot_div_nonneg by lia.
  rewrite wrap_in_range by (unfold time.minDuration, time.maxDuration in *; lia).
  case_match; rewrite ?Z.ltb_lt, ?Z.ltb_ge in *; lia.
Qed.

(** The one-argument scheduler agrees at the boundary. *)
Lemma RunV1_nextRenewal_expired now notAfter :
  notAfter ≤ now → RunV1.nextRenewal now notAfter = now + 10 * time.Second.
Proof.
  intros Hle. unfold RunV1.nextRenewal, time.Until, time.Add.
  apply Sub_nonpos in Hle. apply Z.leb_le in Hle. by rewrite Hle.
Qed.

(** C5, as stated, fails: with a total TTL of zero and 100 s left the
    formula gives the expiry itself, the scheduler gives 70 s from now,
    because a non-positive total TTL is replaced by the remaining time. *)
Lemma nextRenewal_formula_fails :
  ¬ renewalFormula 0 (100 * time.Second) 0 (nextRenewal 0 (100 * time.Second) 0).
Proof. vm_compute. discriminate. Qed.

(** Away from the boundary the one-argument scheduler renews ahead of the
    expiry by a third of the remaining lifetime, at least five minutes,
    and never sooner than thirty seconds from now. *)
Lemma RunV1_nextRenewal_live now notAfter :
  now < notAfter → notAfter - now ≤ time.maxDuration →
  RunV1.nextRenewal now notAfter
  = Z.max (now + 30 * time.Second)
          (notAfter - Z.max ((notAfter - now) / 3) (5 * time.Minute)).
Proof.
  intros Hlive Hbound.
  assert (Hsub : time.Sub notAfter now = notAfter - now).
  { apply Sub_exact. unfold time.minDuration, time.maxDuration in *. lia. }
  assert (Hq : 0 ≤ (notAfter - now) / 3 ≤ time.maxDuration).
  { split; [apply Z.div_pos; lia |].
    apply Z.div_le_upper_bound; unfold time.maxDuration in *; lia. }
  unfold RunV1.nextRenewal, time.Until, time.Add, time.Before. rewrite Hsub.
  assert (Hrem : ¬ notAfter - now ≤ 0) by lia.
  apply Z.leb_nle in Hrem. rewrite Hrem.
  rewrite Z.quot_div_nonneg by lia.
  unfold time.Minute, time.Second in *.
  destruct (Z.ltb_spec ((notAfter - now) / 3) (5 * (60 * 1000000000))) as [Hshort | Hlong].
  - rewrite wrap_in_range by (unfold time.minDuration, time.maxDuration; lia).
    case_match; rewrite ?Z.ltb_lt, ?Z.ltb_ge in *; lia.
  - rewrite wrap_in_range by (unfold time.minDuration, time.maxDuration in *; lia).
    case_match; rewrite ?Z.ltb_lt, ?Z.ltb_ge in *; lia.
Qed.

(** C5 (amended).  The two-argument scheduler: for a positive total TTL
    whose thirty-fold fits a Duration it returns the later of now + 10 s
    and not_after − (total_ttl × 30) / 100, the division being the integer
    division of nanoseconds; a total TTL that is not positive stands for
    the remaining lifetime; and an expiry that equals or precedes the
    current time gives now + 10 s whatever the total TTL.  The one-argument
    scheduler takes no total TTL: an expiry that equals or precedes the
    current time gives now + 10 s as well, and any later one gives the
    later of now + 30 s and not_after − max(remaining / 3, 5 min). *)
Theorem nextRenewal_schedule (now : time.Time) :
  (∀ notAfter totalTTL, 0 < totalTTL → totalTTL * 30 ≤ time.maxDuration →
     nextRenewal now notAfter totalTTL
     = Z.max (now + 10 * time.Second) (notAfter - totalTTL * 30 / 100))
  ∧ (∀ notAfter totalTTL, notAfter ≤ now →
       nextRenewal now notAfter totalTTL = now + 10 * time.Second)
  ∧ (∀ notAfter totalTTL,
       totalTTL ≤ 0 → now < notAfter → (notAfter - now) * 30 ≤ time.maxDuration →
       nextRenewal now notAfter totalTTL
       = Z.max (now + 10 * time.Second) (notAfter - (notAfter - now) * 30 / 100))
  ∧ (∀ notAfter, notAfter ≤ now →
       RunV1.nextRenewal now notAfter = now + 10 * time.Second)
  ∧ (∀ notAfter, now < notAfter → notAfter - now ≤ time.maxDuration →
       RunV1.nextRenewal now notAfter
       = Z.max (now + 30 * time.Second)
               (notAfter - Z.max ((notAfter - now) / 3) (5 * time.Minute))).
Proof.
  split_and!.
  - intros notAfter totalTTL. apply nextRenewal_positive_ttl.
  - intros notAfter totalTTL. apply nextRenewal_expired.
  - intros notAfter totalTTL. apply nextRenewal_nonpositive_ttl.
  - intros notAfter. apply RunV1_nextRenewal_expired.
  - intros notAfter. apply RunV1_nextRenewal_live.
Qed.

Lemma nextRenewal_schedule_witness :
  nextRenewal 0 (300 * time.Second) (360 * time.Second) = 192 * time.Second
  ∧ nextRenewal 0 0 (360 * time.Second) = 10 * time.Second
  ∧ RunV1.nextRenewal 0 (300 * time.Second) = 30 * time.Second.
Proof.
  destruct (nextRenewal_schedule 0) as (H1 & H2 & _ & _ & H5).
  split_and!.
  - rewrite H1; [reflexivity | reflexivity | by vm_compute].
  - rewrite H2; [reflexivity | by vm_compute].
  - rewrite H5; [reflexivity | reflexivity | by vm_compute].
Defined.

(** ** The token stores *)

Lemma hex_EncodeToString_nonempty raw :
  raw ≠ [] → hex_EncodeToString raw ≠ EmptyString.
Proof. destruct raw; [done | discriminate]. Qed.

(** *** The in-memory store is single use *)



(** *** The persistent store rebinds *)

Lemma ConsumeToken_accepts `{Library} s token id now rec :
  token ≠ EmptyString → id ≠ EmptyString →
  state.tokens s !! state.hashToken token = Some rec →
  (state.TokenRecord.ExpiresAt rec = time.zero ∨ now ≤ state.TokenRecord.ExpiresAt rec) →
  ∀ io,
    state.ConsumeToken s token id now io
    = (let s' :=
         {| state.tokens :=
              <[state.hashToken token :=
                  {| state.TokenRecord.Hash := state.TokenRecord.Hash rec;
                     state.TokenRecord.ExpiresAt := state.TokenRecord.ExpiresAt rec;
                     state.TokenRecord.Used := state.TokenRecord.Used rec;
                     state.TokenRecord.ConnectorID := id |}]> (state.tokens s);
            state.ttl := state.ttl s;
            state.path := state.path s |} in
       (s', state.saveLocked s' io)).
Proof.
  intros Htok Hid Hrec Hlive io. unfold state.ConsumeToken.
  rewrite !decide_False by done. rewrite Hrec.
  assert (Hexp : negb (time.IsZero (state.TokenRecord.ExpiresAt rec))
                 && time.After now (state.TokenRecord.ExpiresAt rec) = false).
  { unfold time.IsZero, time.After, time.zero in *.
    destruct Hlive as [-> | Hle]; [done |].
    apply andb_false_iff. right. by apply Z.ltb_ge. }
  by rewrite Hexp.
Qed.

Lemma saveLocked_no_io s : state.saveLocked s None = None.
Proof. unfold state.saveLocked. by case_decide. Qed.

(** The persistent store follows the other policy, a token that can be
    used again until it expires: the token created for the controller of
    the example is consumed by c1 and, a second time, by c2; both calls
    return no error and the record ends up bound to c2. *)
Lemma ConsumeToken_second_use_accepted :
  let first := @state.ConsumeToken plain.library plain.tokenStore plain.token "c1"
                 plain.issueInstant None in
  let second := @state.ConsumeToken plain.library (fst first) plain.token "c2"
                  plain.issueInstant None in
  snd first = None
  ∧ snd second = None
  ∧ api.consumeOutcome (snd second) = None
  ∧ state.TokenRecord.ConnectorID
      <$> state.tokens (fst second) !! @state.hashToken plain.library plain.token
    = Some "c2".
Proof. vm_compute. done. Qed.

Lemma ConsumeToken_ok_inv `{Library} s token id now io s' :
  state.ConsumeToken s token id now io = (s', None) →
  token ≠ EmptyString ∧ id ≠ EmptyString
  ∧ ∃ rec, state.tokens s !! state.hashToken token = Some rec
           ∧ (state.TokenRecord.ExpiresAt rec = time.zero
              ∨ now ≤ state.TokenRecord.ExpiresAt rec)
           ∧ state.tokens s' !! state.hashToken token
             = Some {| state.TokenRecord.Hash := state.TokenRecord.Hash rec;
                       state.TokenRecord.ExpiresAt := state.TokenRecord.ExpiresAt rec;
                       state.TokenRecord.Used := state.TokenRecord.Used rec;
                       state.TokenRecord.ConnectorID := id |}.
Proof.
  unfold state.ConsumeToken. intros Hc.
  repeat case_decide; try done.
  destruct (state.tokens s !! state.hashToken token) as [rec|] eqn:Hrec; [|done].
  destruct (negb (time.IsZero (state.TokenRecord.ExpiresAt rec))
            && time.After now (state.TokenRecord.ExpiresAt rec)) eqn:Hexp; [done|].
  inversion Hc; subst; clear Hc. split_and!; [done | done |].
  exists rec. split_and!; [done | | cbn; by rewrite lookup_insert_eq].
  unfold time.IsZero, time.After, time.zero in *.
  apply andb_false_iff in Hexp as [Hz | Ha].
  - left. apply negb_false_iff in Hz. by apply Z.eqb_eq.
  - right. by apply Z.ltb_ge.
Qed.



(** ** C10: expiry of tokens in the persistent store *)

(** C10.  [CreateToken] stores, under the hash of the new token, a record
    that expires at the creation time plus the store's TTL when that TTL
    is positive and ten years (of 365 days) after the creation time
    otherwise; [ConsumeToken] never reports a record with the zero expiry
    as expired; and a token of a store with a non-positive TTL is accepted
    at every instant up to those ten years. *)
Theorem CreateToken_expiry `{Library} (s : state.TokenStore) now raw io :
  length raw = 16%nat →
  let token := hex_EncodeToString raw in
  let s' := fst (state.CreateToken s now (Ok raw) io) in
  (∃ rec, state.tokens s' !! state.hashToken token = Some rec
          ∧ state.TokenRecord.Used rec = false
          ∧ (0 < state.ttl s → state.TokenRecord.ExpiresAt rec = now + state.ttl s)
          ∧ (state.ttl s ≤ 0 → state.TokenRecord.ExpiresAt rec = now + tenYears))
  ∧ (∀ (p : state.TokenStore) tok id t rec,
       tok ≠ EmptyString → id ≠ EmptyString →
       state.tokens p !! state.hashToken tok = Some rec →
       state.TokenRecord.ExpiresAt rec = time.zero →
       snd (state.ConsumeToken p tok id t None) = None)
  ∧ (state.ttl s ≤ 0 → ∀ id t, id ≠ EmptyString → t ≤ now + tenYears →
       snd (state.ConsumeToken s' token id t None) = None).
Proof.
  intros Hlen token s'.
  assert (Htok : token ≠ EmptyString).
  { apply hex_EncodeToString_nonempty. by destruct raw. }
  assert (Hs' : ∃ rec, state.tokens s' !! state.hashToken token = Some rec
                       ∧ state.TokenRecord.Used rec = false
                       ∧ state.TokenRecord.ExpiresAt rec
                         = if 0 <? state.ttl s then now + state.ttl s else now + tenYears).
  { subst s'. unfold state.CreateToken. cbn zeta. fold token.
    destruct (state.saveLocked _ io); cbn; rewrite lookup_insert_eq;
      (eexists; split_and!; reflexivity). }
  destruct Hs' as (rec & Hrec & Hused & Hexp).
  split_and!.
  - exists rec. split_and!; [done | done | |].
    + intros Hpos. apply Z.ltb_lt in Hpos. by rewrite Hpos in Hexp.
    + intros Hnp. apply Z.ltb_ge in Hnp. by rewrite Hnp in Hexp.
  - intros p tok id t r Ht Hid Hr Hzero.
    rewrite (ConsumeToken_accepts p tok id t r Ht Hid Hr) by (by left).
    cbn. apply saveLocked_no_io.
  - intros Hnp id t Hid Ht.
    apply Z.ltb_ge in Hnp. rewrite Hnp in Hexp.
    rewrite (ConsumeToken_accepts s' token id t rec Htok Hid Hrec)
      by (right; rewrite Hexp; done).
    cbn. apply saveLocked_no_io.
Qed.

Lemma CreateToken_expiry_witness :
  let s := state.NewTokenStore 0 EmptyString None in
  let s' := fst (@state.CreateToken plain.library s plain.issueInstant (Ok plain.rawToken) None) in
  snd (@state.ConsumeToken plain.library s' plain.token "c1"
         (plain.issueInstant + tenYears) None) = None.
Proof.
  intros s s'.
  destruct (@CreateToken_expiry plain.library s plain.issueInstant plain.rawToken None)
    as (_ & _ & Hlate); [reflexivity |].
  apply Hlate; [reflexivity | discriminate | reflexivity].
Defined.

(** ** C9: a heartbeat moves only [LastSeen] *)

Lemma RecordHeartbeat_lookup (r : state.Registry) id privateIP now rec :
  state.connectors r !! id = Some rec →
  state.connectors (state.RecordHeartbeat r id privateIP now) !! id
  = Some {| state.ConnectorRecord.ID := state.ConnectorRecord.ID rec;
            state.ConnectorRecord.PrivateIP :=
              if decide (privateIP = EmptyString)
              then state.ConnectorRecord.PrivateIP rec else privateIP;
            state.ConnectorRecord.Version := state.ConnectorRecord.Version rec;
            state.ConnectorRecord.LastSeen := now |}.
Proof.
  intros Hrec. unfold state.RecordHeartbeat, state.connectorOrNew. cbn.
  by rewrite lookup_insert_eq, Hrec.
Qed.

Lemma RecordHeartbeat_twice (r : state.Registry) id privateIP now1 now2 :
  state.RecordHeartbeat (state.RecordHeartbeat r id privateIP now1) id privateIP now2
  = state.RecordHeartbeat r id privateIP now2.
Proof.
  unfold state.RecordHeartbeat, state.connectorOrNew. cbn.
  rewrite lookup_insert_eq, insert_insert_eq. cbn.
  by case_decide.
Qed.

(** C9.  For a connector that has a record, [RecordHeartbeat] stores the
    instant of the heartbeat in [LastSeen] and keeps [ID] and [Version];
    [PrivateIP] is kept when the heartbeat carries the empty string or the
    stored address (it is replaced by any other non-empty one); the
    records of other connectors are untouched; and a heartbeat repeated
    with the same arguments leaves the registry as a single heartbeat at
    the later instant would. *)
Theorem RecordHeartbeat_frame (r : state.Registry) id privateIP now rec :
  state.connectors r !! id = Some rec →
  let r' := state.RecordHeartbeat r id privateIP now in
  (∃ rec', state.connectors r' !! id = Some rec'
           ∧ state.ConnectorRecord.ID rec' = state.ConnectorRecord.ID rec
           ∧ state.ConnectorRecord.Version rec' = state.ConnectorRecord.Version rec
           ∧ state.ConnectorRecord.LastSeen rec' = now
           ∧ (privateIP = EmptyString ∨ privateIP = state.ConnectorRecord.PrivateIP rec →
              state.ConnectorRecord.PrivateIP rec' = state.ConnectorRecord.PrivateIP rec)
           ∧ (privateIP ≠ EmptyString → state.ConnectorRecord.PrivateIP rec' = privateIP))
  ∧ (∀ other, other ≠ id → state.connectors r' !! other = state.connectors r !! other)
  ∧ (∀ later, state.RecordHeartbeat r' id privateIP later
              = state.RecordHeartbeat r id privateIP later).
Proof.
  intros Hrec r'. split_and!.
  - eexists. split; [by apply RecordHeartbeat_lookup |]. cbn.
    split_and!; try done.
    + intros [-> | ->]; [done | by case_decide].
    + intros Hne. by rewrite decide_False.
  - intros other Hne. subst r'. unfold state.RecordHeartbeat. cbn.
    by rewrite lookup_insert_ne.
  - intros later. apply RecordHeartbeat_twice.
Qed.

Lemma RecordHeartbeat_frame_witness :
  let r := state.Register state.NewRegistry "c1" "10.0.0.5" "1.0" plain.issueInstant in
  let r' := state.RecordHeartbeat r "c1" "" (plain.issueInstant + 10 * time.Second) in
  state.connectors r' !! "c1"
  = Some {| state.ConnectorRecord.ID := "c1";
            state.ConnectorRecord.PrivateIP := "10.0.0.5";
            state.ConnectorRecord.Version := "1.0";
            state.ConnectorRecord.LastSeen := plain.issueInstant + 10 * time.Second |}.
Proof.
  intros r r'.
  destruct (RecordHeartbeat_frame r "c1" "" (plain.issueInstant + 10 * time.Second)
              {| state.ConnectorRecord.ID := "c1";
                 state.ConnectorRecord.PrivateIP := "10.0.0.5";
                 state.ConnectorRecord.Version := "1.0";
                 state.ConnectorRecord.LastSeen := plain.issueInstant |})
    as ((rec' & Hl & Hid & Hv & Hs & Hip & _) & _); [by vm_compute |].
  fold r' in Hl. rewrite Hl. f_equal.
  destruct rec'; cbn in *. rewrite Hid, Hv, Hs, Hip; [done | by left].
Defined.

(** ** C7: the admin listing *)

Lemma statusOf_online now lastSeen :
  admin.statusOf now lastSeen = "ONLINE"%string ↔ now - lastSeen < 30 * time.Second.
Proof.
  unfold admin.statusOf.
  rewrite <- (Sub_lt_bound now lastSeen (30 * time.Second)) by done.
  case_match; rewrite ?Z.ltb_lt, ?Z.ltb_ge in *; split; try done.
  intros. exfalso. lia.
Qed.

Lemma statusOf_offline now lastSeen :
  admin.statusOf now lastSeen = "OFFLINE"%string ↔ 30 * time.Second ≤ now - lastSeen.
Proof.
  unfold admin.statusOf.
  destruct (Sub_lt_bound now lastSeen (30 * time.Second)) as [Hb1 Hb2]; [done |].
  case_match; rewrite ?Z.ltb_lt, ?Z.ltb_ge in *; split; try done; intros.
  - exfalso. lia.
  - destruct (Z.lt_ge_cases (now - lastSeen) (30 * time.Second)); lia.
Qed.

Lemma Registry_List_elem (r : state.Registry) rec :
  rec ∈ state.Registry_List r ↔ ∃ id, state.connectors r !! id = Some rec.
Proof.
  unfold state.Registry_List. rewrite merge_sort_Permutation, list_elem_of_fmap.
  split.
  - intros ([id rec'] & -> & Hin). exists id. by apply elem_of_map_to_list.
  - intros [id Hid]. exists (id, rec). split; [done | by apply elem_of_map_to_list].
Qed.

Lemma Registry_List_length (r : state.Registry) :
  length (state.Registry_List r) = size (state.connectors r).
Proof.
  unfold state.Registry_List.
  by rewrite merge_sort_Permutation, length_fmap, length_map_to_list.
Qed.

Lemma TunnelerStatus_List_elem (r : state.TunnelerStatusRegistry) rec :
  rec ∈ state.TunnelerStatus_List r ↔ ∃ id, state.tunnelers r !! id = Some rec.
Proof.
  unfold state.TunnelerStatus_List. rewrite merge_sort_Permutation, list_elem_of_fmap.
  split.
  - intros ([id rec'] & -> & Hin). exists id. by apply elem_of_map_to_list.
  - intros [id Hid]. exists (id, rec). split; [done | by apply elem_of_map_to_list].
Qed.

Lemma TunnelerStatus_List_length (r : state.TunnelerStatusRegistry) :
  length (state.TunnelerStatus_List r) = size (state.tunnelers r).
Proof.
  unfold state.TunnelerStatus_List.
  by rewrite merge_sort_Permutation, length_fmap, length_map_to_list.
Qed.

(** C7.  A GET on the connector listing answers with one entry per
    registry record: the entry carries the record's id, private IP and
    version, its status is ONLINE exactly when now − last_seen is below
    thirty seconds and OFFLINE exactly when it is not, and no record is
    left out whatever its age.  The tunneler listing does the same with the
    record's id and connector id. *)
Theorem listing_classifies `{Library} (s : admin.Server) (now : time.Time) :
  (∃ entries,
      admin.handleListConnectors s "GET" now = admin.writeJSON admin.StatusOK entries
      ∧ length entries = size (state.connectors (admin.Reg s))
      ∧ ∀ id rec, state.connectors (admin.Reg s) !! id = Some rec →
          ∃ e, e ∈ entries
               ∧ admin.respConnector.ID e = state.ConnectorRecord.ID rec
               ∧ admin.respConnector.PrivateIP e = state.ConnectorRecord.PrivateIP rec
               ∧ admin.respConnector.Version e = state.ConnectorRecord.Version rec
               ∧ (admin.respConnector.Status e = "ONLINE"%string
                  ↔ now - state.ConnectorRecord.LastSeen rec < 30 * time.Second)
               ∧ (admin.respConnector.Status e = "OFFLINE"%string
                  ↔ 30 * time.Second ≤ now - state.ConnectorRecord.LastSeen rec))
  ∧ (∀ reg, admin.Tunnelers s = Some reg →
      ∃ entries,
        admin.handleListTunnelers s "GET" now = admin.writeJSON admin.StatusOK entries
        ∧ length entries = size (state.tunnelers reg)
        ∧ ∀ id rec, state.tunnelers reg !! id = Some rec →
            ∃ e, e ∈ entries
                 ∧ admin.respTunneler.ID e = state.TunnelerRecord.ID rec
                 ∧ admin.respTunneler.ConnectorID e = state.TunnelerRecord.ConnectorID rec
                 ∧ (admin.respTunneler.Status e = "ONLINE"%string
                    ↔ now - state.TunnelerRecord.LastSeen rec < 30 * time.Second)
                 ∧ (admin.respTunneler.Status e = "OFFLINE"%string
                    ↔ 30 * time.Second ≤ now - state.TunnelerRecord.LastSeen rec)).
Proof.
  split.
  - eexists. split; [reflexivity |]. split.
    + by rewrite length_fmap, Registry_List_length.
    + intros id rec Hrec. eexists. split.
      * apply list_elem_of_fmap_2. apply Registry_List_elem. by exists id.
      * cbn. split_and!; try done; [apply statusOf_online | apply statusOf_offline].
  - intros reg Hreg. unfold admin.handleListTunnelers. rewrite Hreg. cbn.
    eexists. split; [reflexivity |]. split.
    + by rewrite length_fmap, TunnelerStatus_List_length.
    + intros id rec Hrec. eexists. split.
      * apply list_elem_of_fmap_2. apply TunnelerStatus_List_elem. by exists id.
      * cbn. split_and!; try done; [apply statusOf_online | apply statusOf_offline].
Qed.

Lemma listing_classifies_witness :
  let reg := state.Register state.NewRegistry "c1" "10.0.0.5" "1.0" plain.issueInstant in
  let s := {| admin.Tokens := plain.tokenStore; admin.Reg := reg; admin.Tunnelers := None;
              admin.AdminAuthToken := "admin"; admin.InternalAuthToken := "internal" |} in
  ∃ entries e,
    @admin.handleListConnectors plain.library s "GET" (plain.issueInstant + 45 * time.Second)
    = admin.writeJSON admin.StatusOK entries
    ∧ e ∈ entries
    ∧ admin.respConnector.ID e = "c1"%string
    ∧ admin.respConnector.Status e = "OFFLINE"%string.
Proof.
  intros reg s.
  destruct (@listing_classifies plain.library s (plain.issueInstant + 45 * time.Second))
    as ((entries & Hresp & _ & Hall) & _).
  destruct (Hall "c1"%string
              {| state.ConnectorRecord.ID := "c1";
                 state.ConnectorRecord.PrivateIP := "10.0.0.5";
                 state.ConnectorRecord.Version := "1.0";
                 state.ConnectorRecord.LastSeen := plain.issueInstant |})
    as (e & Hin & Hid & _ & _ & _ & Hoff); [by vm_compute |].
  exists entries, e. split_and!; [done | done | done |].
  apply Hoff. cbn. unfold time.Second. lia.
Defined.

(** ** Strings *)

Lemma append_nil_l (s : string) : EmptyString +:+ s = s.
Proof. reflexivity. Qed.

Lemma append_cons c (a b : string) : String c a +:+ b = String c (a +:+ b).
Proof. reflexivity. Qed.

Lemma append_assoc (a b c : string) : (a +:+ b) +:+ c = a +:+ (b +:+ c).
Proof.
  induction a as [|x a IH]; [done |].
  by rewrite !append_cons, IH.
Qed.

Lemma HasPrefix_append (p x : string) : strings.HasPrefix (p +:+ x) p = true.
Proof.
  induction p as [|c p IH]; [done |].
  rewrite append_cons. cbn. by rewrite Ascii.eqb_refl.
Qed.

Lemma drop_append (p x : string) : strings.drop (String.length p) (p +:+ x) = x.
Proof.
  induction p as [|c p IH]; [by destruct x |].
  by rewrite append_cons.
Qed.

Lemma TrimPrefix_append (p x : string) : strings.TrimPrefix (p +:+ x) p = x.
Proof. unfold strings.TrimPrefix. by rewrite HasPrefix_append, drop_append. Qed.

(** ** C2: renewal is bound to the caller's identity *)

Lemma identityFromContext_missing (s : api.EnrollmentServer) ctx :
  api.ctx_spiffe_id ctx = None ∨ api.ctx_spiffe_role ctx = None →
  ∃ msg, api.identityFromContext s ctx = Err (status_Error Unauthenticated msg).
Proof.
  unfold api.identityFromContext, api.SPIFFEIDFromContext, api.RoleFromContext.
  intros [Hid | Hrole].
  - rewrite Hid. cbn. eauto.
  - rewrite Hrole. destruct (api.ctx_spiffe_id ctx); cbn; eauto.
Qed.

(** The id is the last segment of the SPIFFE URI the interceptor
    published. *)
Lemma identityFromContext_spiffe (s : api.EnrollmentServer) ctx role id :
  api.ctx_spiffe_id ctx = Some (spiffeString (api.TrustDomain s) role id) →
  api.ctx_spiffe_role ctx = Some role →
  id ≠ EmptyString → strings.Contains id "/" = false →
  api.identityFromContext s ctx = Ok (role, id).
Proof.
  intros Hid Hrole Hne Hslash.
  unfold api.identityFromContext, api.SPIFFEIDFromContext, api.RoleFromContext.
  assert (Hsplit : spiffeString (api.TrustDomain s) role id
                   = ("spiffe://" +:+ api.TrustDomain s +:+ "/" +:+ role +:+ "/") +:+ id).
  { unfold spiffeString. by rewrite !append_assoc. }
  rewrite Hid, Hrole.
  cbn -[strings.TrimPrefix strings.Contains String.append spiffeString].
  rewrite Hsplit, TrimPrefix_append, Hslash.
  by rewrite bool_decide_eq_false_2.
Qed.

(** C2, as stated, fails: a call without any identity whose request id is
    empty is answered InvalidArgument, not Unauthenticated, because the
    request is validated before the identity is looked at. *)
Lemma Renew_invalid_request_first :
  let ctx := {| api.ctx_peer := None; api.ctx_spiffe_id := None;
                api.ctx_spiffe_role := None |} in
  let req := {| controllerpb.Id := ""; controllerpb.PublicKey := [x2d; x01];
                controllerpb.Token := ""; controllerpb.PrivateIp := "";
                controllerpb.Version := "" |} in
  api.SPIFFEIDFromContext ctx = (EmptyString, false)
  ∧ @api.Renew plain.library plain.server ctx plain.env req
    = Err (status_Error InvalidArgument "missing id")
  ∧ status_Code (status_Error InvalidArgument "missing id") ≠ Some Unauthenticated.
Proof. vm_compute. split_and!; [done | done | discriminate]. Qed.

(** C2 (amended).  [Renew] succeeds only if the request's id and public key
    pass validation and the context carries a SPIFFE identity, id and role,
    whose extracted id equals the request's id.  A request that fails
    validation is answered InvalidArgument whatever the context, the
    identity not being looked at.  For a request that passes validation, a
    missing identity gives Unauthenticated and an identity with another id
    gives PermissionDenied; in both cases the answer does not depend on the
    clock or the randomness, which only the issuing of a certificate
    reads. *)
Theorem Renew_identity `{Library} (s : api.EnrollmentServer) ctx env req :
  (∀ resp, api.Renew s ctx env req = Ok resp →
     api.validID (controllerpb.Id req) = true
     ∧ is_ok (api.parsePublicKey (controllerpb.PublicKey req)) = true
     ∧ ∃ spiffeID role,
         api.ctx_spiffe_id ctx = Some spiffeID ∧ api.ctx_spiffe_role ctx = Some role
         ∧ api.identityFromContext s ctx = Ok (role, controllerpb.Id req))
  ∧ (api.validID (controllerpb.Id req) = false
     ∨ is_ok (api.parsePublicKey (controllerpb.PublicKey req)) = false →
     ∃ msg, ∀ ctx' env',
       api.Renew s ctx' env' req = Err (status_Error InvalidArgument msg))
  ∧ (api.validID (controllerpb.Id req) = true →
     is_ok (api.parsePublicKey (controllerpb.PublicKey req)) = true →
     api.ctx_spiffe_id ctx = None ∨ api.ctx_spiffe_role ctx = None →
     ∃ msg, ∀ env', api.Renew s ctx env' req = Err (status_Error Unauthenticated msg))
  ∧ (api.validID (controllerpb.Id req) = true →
     is_ok (api.parsePublicKey (controllerpb.PublicKey req)) = true →
     ∀ role id, api.identityFromContext s ctx = Ok (role, id) →
       id ≠ controllerpb.Id req →
       ∀ env', api.Renew s ctx env' req
               = Err (status_Error PermissionDenied "id mismatch for renewal")).
Proof.
  unfold api.Renew. split_and!.
  - intros resp Hok.
    destruct (api.validID (controllerpb.Id req)); [| done]. cbn [negb] in Hok.
    destruct (api.parsePublicKey (controllerpb.PublicKey req)) as [pubKey | e]; [| done].
    split_and!; [done | done |].
    destruct (api.identityFromContext s ctx) as [[role id] | e] eqn:Hident; [| done].
    destruct (decide (id = controllerpb.Id req)) as [-> | Hne].
    + unfold api.identityFromContext, api.SPIFFEIDFromContext, api.RoleFromContext in Hident.
      destruct (api.ctx_spiffe_id ctx) as [spiffeID |]; [| done].
      destruct (api.ctx_spiffe_role ctx) as [role' |]; [| done].
      cbn [negb] in Hident. exists spiffeID, role'. split_and!; [done | done |].
      destruct (bool_decide _ || _); [done |]. by injection Hident as -> _.
    + apply String.eqb_neq in Hne. by rewrite Hne in Hok.
  - intros Hinvalid.
    destruct (api.validID (controllerpb.Id req)); cbn [negb]; [| by eexists].
    destruct (api.parsePublicKey (controllerpb.PublicKey req)) as [pubKey | e];
      [by destruct Hinvalid | by eexists].
  - intros Hvalid Hkey Hmissing. rewrite Hvalid. cbn [negb].
    destruct (api.parsePublicKey (controllerpb.PublicKey req)) as [pubKey | e]; [| done].
    destruct (identityFromContext_missing s ctx Hmissing) as [msg Hmsg].
    exists msg. intros env'. by rewrite Hmsg.
  - intros Hvalid Hkey role id Hident Hne env'. rewrite Hvalid. cbn [negb].
    destruct (api.parsePublicKey (controllerpb.PublicKey req)) as [pubKey | e]; [| done].
    rewrite Hident. apply String.eqb_neq in Hne. by rewrite Hne.
Qed.

Lemma Renew_identity_witness :
  let ctx := {| api.ctx_peer := None;
                api.ctx_spiffe_id := Some "spiffe://mycorp.internal/connector/c1";
                api.ctx_spiffe_role := Some "connector" |} in
  let req := {| controllerpb.Id := "c2"; controllerpb.PublicKey := [x2d; x01];
                controllerpb.Token := ""; controllerpb.PrivateIp := "";
                controllerpb.Version := "" |} in
  @api.Renew plain.library plain.server ctx plain.env req
  = Err (status_Error PermissionDenied "id mismatch for renewal").
Proof.
  intros ctx req.
  destruct (@Renew_identity plain.library plain.server ctx plain.env req)
    as (_ & _ & _ & Hcross).
  apply (Hcross eq_refl eq_refl "connector"%string "c1"%string);
    [reflexivity | discriminate].
Defined.

(** ** C4: what the interceptor checks *)

Lemma makeRoleSet_nonempty_role roles role :
  role ∈ api.makeRoleSet roles → role ≠ EmptyString.
Proof.
  unfold api.makeRoleSet. destruct roles as [| r0 roles]; [set_solver |].
  rewrite elem_of_list_to_set, list_elem_of_filter. by intros [? _].
Qed.

(** C4, as stated, fails: a peer whose leaf carries
    spiffe://mycorp.internal/connector/ — a role and an empty id — passes
    the interceptor configured for the roles connector and tunneler, and
    the handler runs. *)
Lemma interceptor_accepts_empty_id :
  pathSegments {| url.Scheme := "spiffe"; url.Host := "mycorp.internal";
                  url.Path := "/connector/"; url.RawQuery := "";
                  url.Fragment := "" |} = ["connector"; ""]%string
  ∧ @api.UnaryAuthInterceptor plain.library unit string "mycorp.internal" ∅
      ["connector"; "tunneler"]%string (plain.peerCtx "/connector/") tt
      "/controller.v1.EnrollmentService/Renew" (λ _ _, Ok "handler ran"%string)
    = Ok "handler ran"%string.
Proof. split; [reflexivity | vm_compute; reflexivity]. Qed.

(** C4 (amended).  The interceptor lets a peer through exactly when the
    connection is TLS with at least one peer certificate, the first
    certificate has exactly one URI SAN, its scheme is spiffe, its host is
    the trust domain, its path without the leading slash splits on "/"
    into exactly two segments [role; id], and the role is in the allowed
    set when that set is not empty (which makes the role non-empty, an
    allowed set holding no empty role).  Nothing tests the id segment for
    emptiness.  On a method that is not exempted, a rejected peer gets the
    error and the handler is not called; an accepted one reaches the
    handler with its SPIFFE ID and role in the context. *)
Theorem interceptor_accepts `{Library} (ctx : api.Ctx) (trustDomain : string)
    (roles : gset string) (spiffeID role : string) :
  (api.extractAndVerifySPIFFE ctx trustDomain roles = Ok (spiffeID, role)
   ↔ ∃ cert rest uri id,
       api.ctx_peer ctx = Some {| api.peer_AuthInfo := api.TLSInfo (cert :: rest) |}
       ∧ x509.URIs cert = [uri]
       ∧ url.Scheme uri = "spiffe"%string
       ∧ url.Host uri = trustDomain
       ∧ pathSegments uri = [role; id]
       ∧ (roles = ∅ ∨ role ∈ roles)
       ∧ spiffeID = URL_String uri)
  ∧ (∀ (Req Resp : Type) unauthenticated allowed (req : Req) fullMethod
       (handler : api.Ctx → Req → result error Resp),
       fullMethod ∉ unauthenticated →
       api.UnaryAuthInterceptor trustDomain unauthenticated allowed ctx req fullMethod handler
       = match api.extractAndVerifySPIFFE ctx trustDomain (api.makeRoleSet allowed) with
         | Err e => Err e
         | Ok (sid, r) => handler (api.withIdentity ctx sid r) req
         end)
  ∧ (∀ allowed r, r ∈ api.makeRoleSet allowed → r ≠ EmptyString).
Proof.
  split_and!.
  - unfold api.extractAndVerifySPIFFE, pathSegments. split.
    + intros Hok.
      destruct (api.ctx_peer ctx) as [[[[| cert rest] |]] |]; cbn in Hok; try done.
      destruct (x509.URIs cert) as [| uri [| ? ?]] eqn:Huris; cbn in Hok; try done.
      destruct (String.eqb_spec (url.Scheme uri) "spiffe") as [Hscheme |];
        cbn in Hok; [| done].
      destruct (String.eqb_spec (url.Host uri) trustDomain) as [Hhost |];
        cbn in Hok; [| done].
      destruct (strings.Split (strings.TrimPrefix (url.Path uri) "/") "/")
        as [| r [| id [| ? ?]]] eqn:Hsplit; try done.
      destruct (negb (bool_decide (roles = ∅)) && negb (bool_decide (r ∈ roles)))
        eqn:Hroles; [done |].
      inversion Hok; subst; clear Hok.
      exists cert, rest, uri, id. split_and!; try done.
      apply andb_false_iff in Hroles as [Hempty | Hmember].
      * left. apply negb_false_iff in Hempty. by apply bool_decide_eq_true in Hempty.
      * right. apply negb_false_iff in Hmember. by apply bool_decide_eq_true in Hmember.
    + intros (cert & rest & uri & id & Hpeer & Huris & Hscheme & Hhost & Hsplit & Hroles & ->).
      rewrite Hpeer. cbn. rewrite Huris, Hscheme, Hhost, !String.eqb_refl. cbn.
      rewrite Hsplit.
      assert (Hallowed : negb (bool_decide (roles = ∅)) && negb (bool_decide (role ∈ roles))
                         = false).
      { apply andb_false_iff. destruct Hroles as [Hempty | Hmember].
        - left. by rewrite bool_decide_eq_true_2.
        - right. by rewrite bool_decide_eq_true_2. }
      by rewrite Hallowed.
  - intros Req Resp unauthenticated allowed req fullMethod handler Hauth.
    unfold api.UnaryAuthInterceptor. by rewrite bool_decide_eq_false_2.
  - intros allowed r. apply makeRoleSet_nonempty_role.
Qed.

Lemma interceptor_accepts_witness :
  @api.extractAndVerifySPIFFE plain.library (plain.peerCtx "/connector/c1")
    "mycorp.internal" (api.makeRoleSet ["connector"; "tunneler"]%string)
  = Ok ("spiffe://mycorp.internal/connector/c1"%string, "connector"%string).
Proof.
  destruct (@interceptor_accepts plain.library (plain.peerCtx "/connector/c1")
              "mycorp.internal" (api.makeRoleSet ["connector"; "tunneler"]%string)
              "spiffe://mycorp.internal/connector/c1" "connector") as ([_ Hback] & _).
  apply Hback. eexists _, _, _, "c1"%string.
  split_and!; try reflexivity. right. by vm_compute.
Defined.

(** ** Segments without a slash *)

Lemma append_nil_r (s : string) : s +:+ EmptyString = s.
Proof. induction s as [|c s IH]; [done |]. by rewrite append_cons, IH. Qed.

Lemma Contains_slash_cons c s :
  strings.Contains (String c s) "/" = Ascii.eqb "/" c || strings.Contains s "/".
Proof. cbn [strings.Contains strings.HasPrefix]. by destruct (Ascii.eqb "/" c). Qed.

Lemma idRune_not_slash c : api.idRune c = true → Ascii.eqb "/" c = false.
Proof.
  intros Hc. destruct (Ascii.eqb_spec "/"%char c) as [<- |]; [| done].
  by vm_compute in Hc.
Qed.

Lemma allRunes_no_slash s : api.allRunes s = true → strings.Contains s "/" = false.
Proof.
  induction s as [|c s IH]; [done |]. cbn [api.allRunes].
  destruct (api.idRune c) eqn:Hc; [| done]. intros Hs.
  by rewrite Contains_slash_cons, idRune_not_slash, IH.
Qed.

Lemma cleanSegment_inv s :
  cleanSegment s = true → s ≠ EmptyString ∧ strings.Contains s "/" = false.
Proof.
  unfold cleanSegment. intros [Hne Hrunes]%andb_true_iff. split.
  - apply negb_true_iff in Hne. by apply bool_decide_eq_false in Hne.
  - by apply allRunes_no_slash.
Qed.

Lemma validID_clean id : api.validID id = true → cleanSegment id = true.
Proof.
  unfold api.validID, cleanSegment. intros Hv.
  destruct (bool_decide (id = EmptyString)); [done |].
  destruct (128 <? String.length id)%nat; [done |]. exact Hv.
Qed.

Lemma dnsLikeFrom_no_slash afterDot s :
  dnsLikeFrom afterDot s = true → strings.Contains s "/" = false.
Proof.
  revert afterDot. induction s as [|c s IH]; intros afterDot; [done |].
  cbn [dnsLikeFrom]. rewrite Contains_slash_cons.
  destruct (Ascii.eqb_spec c "."%char) as [-> | Hdot].
  - destruct afterDot; [done |]. intros Hs. by rewrite (IH _ Hs).
  - destruct (labelRune c) eqn:Hc; [| done]. intros Hs. rewrite (IH _ Hs).
    destruct (Ascii.eqb_spec "/"%char c) as [<- |]; [| done].
    by vm_compute in Hc.
Qed.

Lemma split_go_no_slash a cur rest :
  strings.Contains a "/" = false →
  strings.split_go "/" 0 cur (a +:+ rest) = strings.split_go "/" 0 (cur +:+ a) rest.
Proof.
  revert cur. induction a as [|c a IH]; intros cur Hno.
  - by rewrite append_nil_l, append_nil_r.
  - rewrite Contains_slash_cons in Hno. apply orb_false_iff in Hno as [Hc Ha].
    rewrite append_cons. cbn [strings.split_go strings.HasPrefix]. rewrite Hc.
    rewrite (IH _ Ha). by rewrite append_assoc.
Qed.

Lemma Split_two_segments a b :
  strings.Contains a "/" = false → strings.Contains b "/" = false →
  strings.Split (a +:+ "/" +:+ b) "/" = [a; b].
Proof.
  intros Ha Hb. unfold strings.Split.
  rewrite (split_go_no_slash a _ _ Ha), append_nil_l.
  rewrite append_cons, append_nil_l. cbn [strings.split_go strings.HasPrefix].
  cbn [Ascii.eqb Bool.eqb String.length Nat.pred].
  rewrite <- (append_nil_r b) at 1.
  by rewrite (split_go_no_slash b _ _ Hb), append_nil_l.
Qed.

Lemma pathSegments_spiffeURL host role id :
  cleanSegment role = true → cleanSegment id = true →
  pathSegments (spiffeURL host role id) = [role; id].
Proof.
  intros [_ Hrole]%cleanSegment_inv [_ Hid]%cleanSegment_inv.
  unfold pathSegments, spiffeURL. cbn [url.Path].
  rewrite TrimPrefix_append. by apply Split_two_segments.
Qed.

(** ** The small library instance satisfies what is assumed *)

Lemma plain_cut_append c a rest :
  plain.cut c a = (a, EmptyString) →
  plain.cut c (a +:+ String c rest) = (a, String c rest).
Proof.
  induction a as [|x a IH]; intros Hcut.
  - rewrite append_nil_l. cbn [plain.cut]. by rewrite Ascii.eqb_refl.
  - rewrite append_cons. cbn [plain.cut] in *.
    destruct (Ascii.eqb x c); [done |].
    destruct (plain.cut c a) as [u v] eqn:Hua.
    injection Hcut as -> ->. by rewrite IH.
Qed.

Lemma plain_cut_no_slash a :
  strings.Contains a "/" = false → plain.cut "/" a = (a, EmptyString).
Proof.
  induction a as [|c a IH]; intros Hno; [done |].
  rewrite Contains_slash_cons in Hno. apply orb_false_iff in Hno as [Hc Ha].
  cbn [plain.cut]. rewrite Ascii.eqb_sym in Hc. by rewrite Hc, (IH Ha).
Qed.

Lemma IP_Equal_refl ip : IP_Equal ip ip = true.
Proof. unfold IP_Equal. by rewrite Nat.eqb_refl, bool_decide_eq_true_2. Qed.

Lemma plain_url_Parse_spiffe host role id :
  dnsLike host = true →
  plain.url_Parse (spiffeString host role id) = Ok (spiffeURL host role id).
Proof.
  intros Hhost%dnsLikeFrom_no_slash%plain_cut_no_slash.
  change (spiffeString host role id)
    with ("spiffe" +:+ String ":" (String "/" (String "/"
            (host +:+ String "/" (role +:+ String "/" id))))).
  unfold plain.url_Parse.
  rewrite (plain_cut_append ":" "spiffe" _ eq_refl).
  cbn -[String.append plain.cut].
  by rewrite (plain_cut_append "/" host _ Hhost).
Qed.

#[global] Instance plain_laws : LibraryLaws plain.library.
Proof.
  split.
  - intros host role id Hhost _ _. by apply plain_url_Parse_spiffe.
  - intros host role id _ _ _. reflexivity.
  - intros der. reflexivity.
  - intros s ip. cbn. unfold plain.net_ParseIP. case_match; [| done].
    by intros [= <-].
  - intros entropy tmpl parent pub key der host role id Hcreate _ _ _ _ _.
    cbn in Hcreate. unfold plain.x509_CreateCertificate in Hcreate.
    repeat case_decide; try done; inversion Hcreate; subst; clear Hcreate.
    + exists plain.leafWithIP. split_and!; [by vm_compute | done | done |].
      constructor; [apply IP_Equal_refl | constructor].
    + exists plain.leafWithoutIP. split_and!; [by vm_compute | done | done |].
      constructor.
Qed.

#[global] Instance plain_validity : ValidityLaws plain.library.
Proof.
  split. intros entropy tmpl parent pub key der leaf Hcreate Hparse.
  cbn in Hcreate, Hparse.
  unfold plain.x509_CreateCertificate in Hcreate.
  unfold plain.x509_ParseCertificate in Hparse.
  repeat case_decide; try done; inversion Hcreate; inversion Hparse; subst;
    by vm_compute.
Qed.

#[global] Instance subsecond_laws : LibraryLaws subsecond.library.
Proof.
  split.
  - intros host role id Hhost _ _. by apply plain_url_Parse_spiffe.
  - intros host role id _ _ _. reflexivity.
  - intros der. reflexivity.
  - intros s ip. cbn. unfold plain.net_ParseIP. case_match; [| done].
    by intros [= <-].
  - intros entropy tmpl parent pub key der host role id Hcreate _ _ _ _ _.
    cbn in Hcreate. unfold subsecond.x509_CreateCertificate in Hcreate.
    case_decide; [| done]. inversion Hcreate; subst; clear Hcreate.
    exists subsecond.certificate. split_and!; [by vm_compute | done | done |].
    constructor; [apply IP_Equal_refl | constructor].
Qed.

#[global] Instance subsecond_validity : ValidityLaws subsecond.library.
Proof.
  split. intros entropy tmpl parent pub key der leaf Hcreate Hparse.
  cbn in Hcreate, Hparse.
  unfold subsecond.x509_CreateCertificate in Hcreate.
  unfold subsecond.x509_ParseCertificate in Hparse.
  repeat case_decide; try done; inversion Hcreate; inversion Hparse; subst; done.
Qed.

(** ** Issuing *)

Lemma IssueWorkloadCert_ok_inv `{Library} c spiffeID pubKey ttl dnsNames ipAddrs env certPEM :
  ca.IssueWorkloadCert c spiffeID pubKey ttl dnsNames ipAddrs env = Ok certPEM →
  0 < ttl
  ∧ ∃ uri leaf, url_Parse spiffeID = Ok uri
                ∧ url.Scheme uri = "spiffe"%string
                ∧ x509.URIs leaf = [uri]
                ∧ x509.IPAddresses leaf = ipAddrs
                ∧ x509.IsCA leaf = false
                ∧ x509.NotBefore leaf = env_now env - time.Minute
                ∧ x509.NotAfter leaf = env_now env + ttl
                ∧ signedLeaf c spiffeID pubKey ttl dnsNames ipAddrs env certPEM leaf.
Proof.
  unfold ca.IssueWorkloadCert. intros Hok.
  destruct c as [c0 |]; [| done].
  destruct (ca.Cert c0) as [caCert |] eqn:Hcert; [| done].
  destruct (ca.Key c0) as [caKey |] eqn:Hkey; [| done].
  destruct (Z.leb_spec ttl 0) as [| Hpos]; [done |].
  destruct (url_Parse spiffeID) as [uri | e] eqn:Hparse; [| done]. cbn in Hok.
  destruct (String.eqb_spec (url.Scheme uri) "spiffe") as [Hscheme |]; [| done].
  cbn in Hok.
  destruct (env_serial env) as [serial | e] eqn:Hserial; [| done]. cbn in Hok.
  destruct (x509_CreateCertificate _ _ _ _ _) as [der | e] eqn:Hcreate; [| done].
  cbn in Hok. inversion Hok; subst; clear Hok.
  split; [done |].
  exists uri, (ca.tmpl uri serial (env_now env) ttl dnsNames ipAddrs).
  split_and!; try done.
  by exists c0, caCert, caKey, uri, serial, der.
Qed.

Lemma IssueWorkloadCert_nonpositive_ttl `{Library} c spiffeID pubKey ttl dnsNames ipAddrs env :
  ttl ≤ 0 → ∃ e, ca.IssueWorkloadCert c spiffeID pubKey ttl dnsNames ipAddrs env = Err e.
Proof.
  intros Hle%Z.leb_le. unfold ca.IssueWorkloadCert.
  destruct c as [c0 |]; [| eauto].
  destruct (ca.Cert c0), (ca.Key c0); rewrite ?Hle; eauto.
Qed.

Lemma IssueWorkloadCert_ok `{Library} c0 caCert caKey spiffeID pubKey ttl dnsNames ipAddrs
    env uri serial der :
  ca.Cert c0 = Some caCert → ca.Key c0 = Some caKey → 0 < ttl →
  url_Parse spiffeID = Ok uri → url.Scheme uri = "spiffe"%string →
  env_serial env = Ok serial →
  x509_CreateCertificate (env_entropy env)
    (ca.tmpl uri serial (env_now env) ttl dnsNames ipAddrs) caCert pubKey caKey = Ok der →
  ca.IssueWorkloadCert (Some c0) spiffeID pubKey ttl dnsNames ipAddrs env
  = Ok (pem_EncodeToMemory {| pem.Type_ := "CERTIFICATE"; pem.Bytes := der |}).
Proof.
  intros Hcert Hkey Hpos Hparse Hscheme Hserial Hcreate.
  unfold ca.IssueWorkloadCert. rewrite Hcert, Hkey.
  apply Z.leb_gt in Hpos. rewrite Hpos, Hparse. cbn.
  rewrite Hscheme, Hserial. cbn. by rewrite Hcreate.
Qed.

(** The SPIFFE ID each endpoint formats is [spiffeString]. *)
Lemma EnrollConnector_ok_inv `{Library} s env req s' resp :
  api.EnrollConnector s env req = (s', Ok resp) →
  api.validID (controllerpb.Id req) = true
  ∧ controllerpb.PrivateIp req ≠ EmptyString
  ∧ controllerpb.Version req ≠ EmptyString
  ∧ ∃ pubKey,
      api.parsePublicKey (controllerpb.PublicKey req) = Ok pubKey
      ∧ ca.IssueWorkloadCert (api.CA s)
          (spiffeString (api.TrustDomain s) "connector" (controllerpb.Id req)) pubKey
          (5 * time.Minute) []
          (match net_ParseIP (controllerpb.PrivateIp req) with
           | Some ip => [ip]
           | None => []
           end) env
        = Ok (controllerpb.Certificate resp).
Proof.
  unfold api.EnrollConnector. intros Hok.
  destruct (api.validID (controllerpb.Id req)); [| done]. cbn in Hok.
  case_bool_decide as Hip; [done |]. case_bool_decide as Hver; [done |].
  destruct (api.parsePublicKey (controllerpb.PublicKey req)) as [pubKey | e]; [| done].
  destruct (api.authorizeConnectorToken s _ _ env) as [s1 [e |]]; [done |].
  split_and!; try done. exists pubKey. split; [done |].
  change (spiffeString (api.TrustDomain s) "connector" (controllerpb.Id req))
    with ("spiffe://" +:+ api.TrustDomain s +:+ "/connector/" +:+ controllerpb.Id req).
  destruct (ca.IssueWorkloadCert _ _ _ _ _ _ env) as [certPEM | e]; [| done].
  by inversion Hok.
Qed.

Lemma EnrollTunneler_ok_inv `{Library} s env req s' resp :
  api.EnrollTunneler s env req = (s', Ok resp) →
  api.validID (controllerpb.Id req) = true
  ∧ ∃ pubKey,
      ca.IssueWorkloadCert (api.CA s)
        (spiffeString (api.TrustDomain s) "tunneler" (controllerpb.Id req)) pubKey
        (30 * time.Minute) [] [] env
      = Ok (controllerpb.Certificate resp).
Proof.
  unfold api.EnrollTunneler. intros Hok.
  destruct (api.validID (controllerpb.Id req)); [| done]. cbn in Hok.
  case_bool_decide as Htok; [done |].
  destruct (api.parsePublicKey (controllerpb.PublicKey req)) as [pubKey | e]; [| done].
  destruct (api.authorizeConnectorToken s _ _ env) as [s1 [e |]]; [done |].
  split; [done |]. exists pubKey.
  change (spiffeString (api.TrustDomain s) "tunneler" (controllerpb.Id req))
    with ("spiffe://" +:+ api.TrustDomain s +:+ "/tunneler/" +:+ controllerpb.Id req).
  destruct (ca.IssueWorkloadCert _ _ _ _ _ _ env) as [certPEM | e]; [| done].
  by inversion Hok.
Qed.

Lemma Renew_ok_inv `{Library} s ctx env req resp role :
  api.Renew s ctx env req = Ok resp →
  api.ctx_spiffe_role ctx = Some role →
  api.validID (controllerpb.Id req) = true
  ∧ ∃ pubKey,
      ca.IssueWorkloadCert (api.CA s)
        (spiffeString (api.TrustDomain s) role (controllerpb.Id req)) pubKey
        (renewTTL role) [] (api.renewIPAddrs s role (controllerpb.Id req)) env
      = Ok (controllerpb.Certificate resp).
Proof.
  unfold api.Renew. intros Hok Hrole.
  destruct (api.validID (controllerpb.Id req)); [| done]. cbn in Hok.
  destruct (api.parsePublicKey (controllerpb.PublicKey req)) as [pubKey | e]; [| done].
  destruct (api.identityFromContext s ctx) as [[role' id] | e] eqn:Hident; [| done].
  assert (role' = role) as ->.
  { unfold api.identityFromContext, api.SPIFFEIDFromContext, api.RoleFromContext in Hident.
    rewrite Hrole in Hident. destruct (api.ctx_spiffe_id ctx); cbn in Hident; [| done].
    destruct (bool_decide _ || _) in Hident; [done | by inversion Hident]. }
  destruct (negb (id =? controllerpb.Id req)%string); [done |].
  split; [done |]. exists pubKey.
  fold (renewTTL role) in Hok.
  fold (spiffeString (api.TrustDomain s) role (controllerpb.Id req)) in Hok.
  destruct (ca.IssueWorkloadCert _ _ _ _ _ _ env) as [certPEM | e]; [| done].
  by inversion Hok.
Qed.

Lemma issue_spiffe `{L : Library} `{!LibraryLaws L} c host role id pubKey ttl dnsNames
    ipAddrs env certPEM :
  dnsLike host = true → cleanSegment role = true → cleanSegment id = true →
  ca.IssueWorkloadCert c (spiffeString host role id) pubKey ttl dnsNames ipAddrs env
  = Ok certPEM →
  ∃ leaf, signedLeaf c (spiffeString host role id) pubKey ttl dnsNames ipAddrs env certPEM leaf
          ∧ x509.URIs leaf = [spiffeURL host role id]
          ∧ x509.IPAddresses leaf = ipAddrs
          ∧ x509.IsCA leaf = false
          ∧ x509.NotBefore leaf = env_now env - time.Minute
          ∧ x509.NotAfter leaf = env_now env + ttl.
Proof.
  intros Hhost Hrole Hid Hok.
  apply IssueWorkloadCert_ok_inv in Hok
    as (_ & uri & leaf & Hparse & _ & Huris & Hips & Hca & Hnb & Hna & Hsigned).
  rewrite (url_Parse_spiffe host role id Hhost Hrole Hid) in Hparse.
  injection Hparse as <-. by exists leaf.
Qed.

(** ** C3: the shape of every issued leaf *)

Lemma wholeSeconds_exact t : t mod time.Second = 0 → wholeSeconds t = t.
Proof. unfold wholeSeconds. lia. Qed.

Lemma whole_second_add a b :
  a mod time.Second = 0 → b mod time.Second = 0 → (a + b) mod time.Second = 0.
Proof. intros Ha Hb. by rewrite Z.add_mod, Ha, Hb by done. Qed.

Lemma renewIPAddrs_lengths `{L : Library} `{!LibraryLaws L} s role id :
  Forall (λ ip : net.IP, length ip = 4%nat ∨ length ip = 16%nat) (api.renewIPAddrs s role id).
Proof.
  unfold api.renewIPAddrs. destruct (String.eqb role "connector"); [| constructor].
  destruct (api.Registry s) as [r |]; [| constructor].
  destruct (state.Get r id) as [rec [|]]; [| constructor].
  destruct (net_ParseIP _) as [ip |] eqn:Hip; [| constructor].
  constructor; [| constructor]. right. by apply (net_ParseIP_length _ _ Hip).
Qed.

(** What the three endpoints have in common when they return a
    certificate. *)
Lemma issued_inv `{L : Library} `{!LibraryLaws L} (s : api.EnrollmentServer) env role id ttl
    certPEM :
  issued s env role id ttl certPEM →
  ttl mod time.Second = 0
  ∧ cleanSegment id = true
  ∧ ∃ pubKey ips,
      Forall (λ ip : net.IP, length ip = 4%nat ∨ length ip = 16%nat) ips
      ∧ ca.IssueWorkloadCert (api.CA s) (spiffeString (api.TrustDomain s) role id)
          pubKey ttl [] ips env = Ok certPEM.
Proof.
  intros [req s' resp Henroll | req s' resp Henroll | ctx req resp role' Hrenew Hr].
  - apply EnrollConnector_ok_inv in Henroll as (Hv & _ & _ & pubKey & _ & Hok).
    split_and!; [done | by apply validID_clean |].
    eexists pubKey, _. split; [| apply Hok].
    destruct (net_ParseIP (controllerpb.PrivateIp req)) as [ip |] eqn:Hip; [| constructor].
    constructor; [| constructor]. right. by apply (net_ParseIP_length _ _ Hip).
  - apply EnrollTunneler_ok_inv in Henroll as (Hv & pubKey & Hok).
    split_and!; [done | by apply validID_clean |].
    eexists pubKey, _. split; [constructor | apply Hok].
  - apply (Renew_ok_inv _ _ _ _ _ role') in Hrenew as (Hv & pubKey & Hok); [| done].
    split_and!; [unfold renewTTL; by destruct (String.eqb role' "connector")
                | by apply validID_clean |].
    eexists pubKey, _. split; [apply renewIPAddrs_lengths | apply Hok].
Qed.

(** C3, as stated, fails on the two dates: a certificate holds whole
    seconds.  The connector of the example enrolls half a second past a
    whole second; the certificate it is sent parses into a leaf whose
    NotBefore and NotAfter are half a second earlier than the issuance
    time minus one minute and the issuance time plus the TTL. *)
Lemma issued_validity_not_exact :
  let out := @api.EnrollConnector subsecond.library plain.server subsecond.env
               (plain.request "10.0.0.5") in
  ∃ resp block leaf,
    snd out = Ok resp
    ∧ @issued subsecond.library plain.server subsecond.env "connector" "c1"
        (5 * time.Minute) (controllerpb.Certificate resp)
    ∧ @pem_Decode subsecond.library (controllerpb.Certificate resp) = Some block
    ∧ @x509_ParseCertificate subsecond.library (pem.Bytes block) = Ok leaf
    ∧ x509.NotBefore leaf = env_now subsecond.env - time.Minute - 500000000
    ∧ x509.NotBefore leaf ≠ env_now subsecond.env - time.Minute
    ∧ x509.NotAfter leaf = env_now subsecond.env + 5 * time.Minute - 500000000
    ∧ x509.NotAfter leaf ≠ env_now subsecond.env + 5 * time.Minute.
Proof.
  intros out.
  exists {| controllerpb.Certificate := [x2d; x02]; controllerpb.CaCertificate := [x2d; x00] |},
    {| pem.Type_ := "CERTIFICATE"; pem.Bytes := [x02] |}, subsecond.certificate.
  split_and!; try (by vm_compute).
  apply (@issued_EnrollConnector subsecond.library plain.server subsecond.env
           (plain.request "10.0.0.5") (fst out)
           {| controllerpb.Certificate := [x2d; x02];
              controllerpb.CaCertificate := [x2d; x00] |}).
  by vm_compute.
Qed.

(** C3 (amended).  Under a DNS-like trust domain and for a clean role
    segment, take a certificate that EnrollConnector, EnrollTunneler or
    Renew returns.  The template [IssueWorkloadCert] had signed for it is
    valid from the issuing instant minus one minute to that instant plus
    the TTL.  The certificate itself decodes as one CERTIFICATE block and
    parses into a leaf with exactly one URI SAN, of scheme spiffe, with the
    trust domain as host and a path of exactly the two segments role and
    id; the leaf is not a CA; and it holds the two dates of the template in
    whole seconds, so that they are the issuing instant minus one minute
    and plus the TTL exactly when the issuing instant is a whole second.
    And [IssueWorkloadCert] fails for every TTL that is not positive. *)
Theorem issued_leaf_invariants `{L : Library} `{!LibraryLaws L} `{!ValidityLaws L}
    (s : api.EnrollmentServer) env role id ttl certPEM :
  dnsLike (api.TrustDomain s) = true → cleanSegment role = true →
  issued s env role id ttl certPEM →
  (∃ pubKey ips tmpl block leaf uri,
      signedLeaf (api.CA s) (spiffeString (api.TrustDomain s) role id) pubKey ttl [] ips
        env certPEM tmpl
      ∧ x509.URIs tmpl = [uri]
      ∧ x509.IsCA tmpl = false
      ∧ x509.NotBefore tmpl = env_now env - time.Minute
      ∧ x509.NotAfter tmpl = env_now env + ttl
      ∧ pem_Decode certPEM = Some block
      ∧ pem.Type_ block = "CERTIFICATE"%string
      ∧ x509_ParseCertificate (pem.Bytes block) = Ok leaf
      ∧ x509.URIs leaf = [uri]
      ∧ url.Scheme uri = "spiffe"%string
      ∧ url.Host uri = api.TrustDomain s
      ∧ pathSegments uri = [role; id]
      ∧ x509.IsCA leaf = false
      ∧ x509.NotBefore leaf = wholeSeconds (env_now env - time.Minute)
      ∧ x509.NotAfter leaf = wholeSeconds (env_now env + ttl)
      ∧ (env_now env mod time.Second = 0 →
         x509.NotBefore leaf = env_now env - time.Minute
         ∧ x509.NotAfter leaf = env_now env + ttl))
  ∧ (∀ c spiffeID pubKey ttl' dnsNames ips env',
       ttl' ≤ 0 →
       ∃ e, ca.IssueWorkloadCert c spiffeID pubKey ttl' dnsNames ips env' = Err e).
Proof.
  intros Hhost Hrole Hissued. split.
  - destruct (issued_inv _ _ _ _ _ _ Hissued) as (Httl & Hid & pubKey & ips & Hips & Hok).
    destruct (issue_spiffe _ _ _ _ _ _ _ _ _ _ Hhost Hrole Hid Hok)
      as (tmpl & Hsigned & Huris & Htmplips & Hca & Hnb & Hna).
    pose proof Hsigned as (c0 & caCert & caKey & uri & serial & der & _ & _ & _ & _ & _ & _
                           & Hcreate & HcertPEM).
    destruct (x509_Parse_Create _ _ _ _ _ _ _ _ _ Hcreate Huris Hhost Hrole Hid)
      as (leaf & Hparsed & Hleafuris & Hleafca & _); [by rewrite Htmplips |].
    destruct (x509_Parse_Create_validity _ _ _ _ _ _ _ Hcreate Hparsed) as [Hlnb Hlna].
    exists pubKey, ips, tmpl, {| pem.Type_ := "CERTIFICATE"; pem.Bytes := der |}, leaf,
      (spiffeURL (api.TrustDomain s) role id).
    split_and!; try done.
    + rewrite HcertPEM. apply pem_Decode_Encode.
    + by rewrite Hleafuris.
    + by apply pathSegments_spiffeURL.
    + by rewrite Hleafca.
    + by rewrite Hlnb, Hnb.
    + by rewrite Hlna, Hna.
    + intros Hwhole. rewrite Hlnb, Hlna, Hnb, Hna. split.
      * apply wholeSeconds_exact.
        change (env_now env - time.Minute) with (env_now env + (- time.Minute)).
        by apply whole_second_add.
      * apply wholeSeconds_exact. by apply whole_second_add.
  - intros c spiffeID pubKey ttl' dnsNames ips env'. apply IssueWorkloadCert_nonpositive_ttl.
Qed.

Lemma issued_leaf_invariants_witness :
  ∃ block leaf uri,
    plain.pem_Decode [x2d; x00] = Some block
    ∧ plain.x509_ParseCertificate (pem.Bytes block) = Ok leaf
    ∧ x509.URIs leaf = [uri]
    ∧ url.Host uri = "mycorp.internal"%string
    ∧ pathSegments uri = ["connector"; "c1"]%string
    ∧ x509.NotBefore leaf = plain.issueInstant - time.Minute
    ∧ x509.NotAfter leaf = plain.issueInstant + 5 * time.Minute.
Proof.
  destruct (@issued_leaf_invariants plain.library plain_laws plain_validity plain.server
              plain.env "connector" "c1" (5 * time.Minute) [x2d; x00])
    as ((pubKey & ips & tmpl & block & leaf & uri & _ & _ & _ & _ & _ & Hdecode & _ & Hparse
         & Huris & _ & Hhost & Hpath & _ & _ & _ & Hdates) & _).
  - reflexivity.
  - reflexivity.
  - apply (@issued_EnrollConnector plain.library plain.server plain.env
             (plain.request "10.0.0.5")
             (fst (@api.EnrollConnector plain.library plain.server plain.env
                     (plain.request "10.0.0.5")))
             {| controllerpb.Certificate := [x2d; x00];
                controllerpb.CaCertificate := [x2d; x00] |}).
    vm_compute. reflexivity.
  - destruct Hdates as [Hnb Hna]; [reflexivity |].
    exists block, leaf, uri. by split_and!.
Defined.

(** ** C6: the private IP of a connector enrollment *)

Lemma EnrollConnector_missing_field `{Library} s env req :
  controllerpb.PrivateIp req = EmptyString ∨ controllerpb.Version req = EmptyString →
  ∃ msg, api.EnrollConnector s env req = (s, Err (status_Error InvalidArgument msg)).
Proof.
  intros Hmissing. unfold api.EnrollConnector.
  destruct (api.validID (controllerpb.Id req)); cbn; [| eauto].
  case_bool_decide; [eauto |]. case_bool_decide; [eauto |].
  by destruct Hmissing.
Qed.

(** C6.  Take a request with a valid id, a non-empty private IP and
    version, a public key that parses and a token the store accepts, on a
    controller with an initialised CA, and let the SPIFFE ID parse with
    scheme spiffe, the serial be drawn and the leaf be signed without
    error.  Then EnrollConnector succeeds whether or not the private IP
    parses: the signed leaf has no IP SAN when it does not parse and
    exactly the parsed address when it does.  A request with an empty
    private IP or an empty version is answered InvalidArgument and changes
    nothing. *)
Theorem EnrollConnector_private_ip `{Library}
    (s : api.EnrollmentServer) env req ts ts' c caCert caKey pubKey uri serial der :
  api.validID (controllerpb.Id req) = true →
  controllerpb.PrivateIp req ≠ EmptyString →
  controllerpb.Version req ≠ EmptyString →
  api.parsePublicKey (controllerpb.PublicKey req) = Ok pubKey →
  api.Tokens s = Some ts →
  state.ConsumeToken ts (controllerpb.Token req) (controllerpb.Id req)
    (env_now env) (env_io env) = (ts', None) →
  api.CA s = Some c → ca.Cert c = Some caCert → ca.Key c = Some caKey →
  url_Parse (spiffeString (api.TrustDomain s) "connector" (controllerpb.Id req)) = Ok uri →
  url.Scheme uri = "spiffe"%string →
  env_serial env = Ok serial →
  let ips := match net_ParseIP (controllerpb.PrivateIp req) with
             | Some ip => [ip]
             | None => []
             end in
  let leaf := ca.tmpl uri serial (env_now env) (5 * time.Minute) [] ips in
  x509_CreateCertificate (env_entropy env) leaf caCert pubKey caKey = Ok der →
  (∃ s' resp, api.EnrollConnector s env req = (s', Ok resp)
              ∧ signedLeaf (api.CA s)
                  (spiffeString (api.TrustDomain s) "connector" (controllerpb.Id req))
                  pubKey (5 * time.Minute) [] ips env (controllerpb.Certificate resp) leaf)
  ∧ (net_ParseIP (controllerpb.PrivateIp req) = None → x509.IPAddresses leaf = [])
  ∧ (∀ ip, net_ParseIP (controllerpb.PrivateIp req) = Some ip →
           x509.IPAddresses leaf = [ip])
  ∧ (∀ s0 env0 req0,
       controllerpb.PrivateIp req0 = EmptyString ∨ controllerpb.Version req0 = EmptyString →
       ∃ msg, api.EnrollConnector s0 env0 req0
              = (s0, Err (status_Error InvalidArgument msg))).
Proof.
  intros Hvalid Hip Hver Hkey Htokens Hconsume Hca Hcert Hcakey Hparse Hscheme Hserial
    ips leaf Hsign.
  assert (Hissue :
    ca.IssueWorkloadCert (api.CA s)
      (spiffeString (api.TrustDomain s) "connector" (controllerpb.Id req)) pubKey
      (5 * time.Minute) [] ips env
    = Ok (pem_EncodeToMemory {| pem.Type_ := "CERTIFICATE"; pem.Bytes := der |})).
  { rewrite Hca. by apply (IssueWorkloadCert_ok c caCert caKey _ _ _ _ _ _ uri serial). }
  split_and!.
  - unfold api.EnrollConnector. rewrite Hvalid. cbn.
    rewrite !bool_decide_eq_false_2 by done. rewrite Hkey.
    unfold api.authorizeConnectorToken. rewrite Htokens, Hconsume. cbn.
    change ("spiffe://" +:+ api.TrustDomain s +:+ "/connector/" +:+ controllerpb.Id req)
      with (spiffeString (api.TrustDomain s) "connector" (controllerpb.Id req)).
    fold ips. rewrite Hissue. eexists _, _. split; [reflexivity |]. cbn.
    exists c, caCert, caKey, uri, serial, der.
    by split_and!.
  - intros Hnone. subst leaf ips. by rewrite Hnone.
  - intros ip Hsome. subst leaf ips. by rewrite Hsome.
  - intros s0 env0 req0. apply EnrollConnector_missing_field.
Qed.

Lemma EnrollConnector_private_ip_witness :
  ∃ s' resp,
    @api.EnrollConnector plain.library plain.server plain.env (plain.request "not-an-ip")
    = (s', Ok resp)
    ∧ @signedLeaf plain.library (api.CA plain.server)
        (spiffeString "mycorp.internal" "connector" "c1") (mkPublicKey [x01])
        (5 * time.Minute) [] [] plain.env (controllerpb.Certificate resp)
        plain.leafWithoutIP.
Proof.
  destruct (@EnrollConnector_private_ip plain.library plain.server plain.env
              (plain.request "not-an-ip") plain.tokenStore
              (fst (@state.ConsumeToken plain.library plain.tokenStore plain.token "c1"
                      plain.issueInstant None))
              {| ca.Cert := Some plain.caCert; ca.Key := Some (mkSigner [x01]) |}
              plain.caCert (mkSigner [x01]) (mkPublicKey [x01])
              (spiffeURL "mycorp.internal" "connector" "c1") 7 [x01])
    as ((s' & resp & Henroll & Hsigned) & _);
    try reflexivity; try (intros ?; discriminate).
  exists s', resp. split; [exact Henroll | exact Hsigned].
Defined.

(** ** C8: enroll, then parse *)

(** C8.  Under a DNS-like trust domain, the certificate a successful
    EnrollConnector returns decodes as one CERTIFICATE block that parses
    into a leaf whose only URI SAN prints as spiffe://td/connector/id, and
    when the private IP of the request parses, the IP SANs of that leaf
    hold an address equal to it. *)
Theorem enroll_parse_roundtrip `{L : Library} `{!LibraryLaws L}
    (s : api.EnrollmentServer) env req s' resp :
  dnsLike (api.TrustDomain s) = true →
  api.EnrollConnector s env req = (s', Ok resp) →
  ∃ block leaf,
    pem_Decode (controllerpb.Certificate resp) = Some block
    ∧ pem.Type_ block = "CERTIFICATE"%string
    ∧ x509_ParseCertificate (pem.Bytes block) = Ok leaf
    ∧ URL_String <$> x509.URIs leaf
      = [spiffeString (api.TrustDomain s) "connector" (controllerpb.Id req)]
    ∧ (∀ ip, net_ParseIP (controllerpb.PrivateIp req) = Some ip →
             ∃ ip', ip' ∈ x509.IPAddresses leaf ∧ IP_Equal ip' ip = true).
Proof.
  intros Hhost Henroll.
  apply EnrollConnector_ok_inv in Henroll as (Hvalid & _ & _ & pubKey & _ & Hissue).
  pose proof (validID_clean _ Hvalid) as Hid.
  assert (Hrole : cleanSegment "connector" = true) by reflexivity.
  destruct (issue_spiffe _ _ _ _ _ _ _ _ _ _ Hhost Hrole Hid Hissue)
    as (tmpl & Hsigned & Huris & Hips & _).
  destruct Hsigned as (c0 & caCert & caKey & uri & serial & der & _ & _ & _ & _ & _ & _
                       & Hcreate & ->).
  destruct (x509_Parse_Create _ _ _ _ _ _ _ _ _ Hcreate Huris Hhost Hrole Hid)
    as (leaf & Hparsed & Hleafuris & _ & Hleafips).
  { rewrite Hips. destruct (net_ParseIP (controllerpb.PrivateIp req)) as [ip |] eqn:Hip;
      [| constructor].
    constructor; [| constructor]. right. by apply (net_ParseIP_length _ _ Hip). }
  eexists _, leaf. split_and!.
  - apply pem_Decode_Encode.
  - done.
  - done.
  - rewrite Hleafuris, Huris. cbn. f_equal. by apply URL_String_spiffe.
  - intros ip Hip. rewrite Hips, Hip in Hleafips.
    apply Forall2_cons_inv_r in Hleafips as (ip' & rest & Heq & _ & ->).
    exists ip'. split; [apply list_elem_of_here | done].
Qed.

Lemma enroll_parse_roundtrip_witness :
  ∃ block leaf,
    plain.pem_Decode [x2d; x00] = Some block
    ∧ plain.x509_ParseCertificate (pem.Bytes block) = Ok leaf
    ∧ plain.URL_String <$> x509.URIs leaf = ["spiffe://mycorp.internal/connector/c1"%string]
    ∧ ∃ ip', ip' ∈ x509.IPAddresses leaf ∧ IP_Equal ip' plain.ip_10_0_0_5 = true.
Proof.
  destruct (@enroll_parse_roundtrip plain.library plain_laws plain.server plain.env
              (plain.request "10.0.0.5")
              (fst (@api.EnrollConnector plain.library plain.server plain.env
                      (plain.request "10.0.0.5")))
              {| controllerpb.Certificate := [x2d; x00];
                 controllerpb.CaCertificate := [x2d; x00] |})
    as (block & leaf & Hdecode & _ & Hparse & Huri & Hip).
  - reflexivity.
  - vm_compute. reflexivity.
  - exists block, leaf. split_and!; [done | done | done |].
    by apply Hip.
Defined.

(** * Further properties of the code *)

(** ** The persistent token store *)

Lemma CreateToken_stores `{Library} (s : state.TokenStore) now raw io :
  let token := hex_EncodeToString raw in
  let s' := fst (state.CreateToken s now (Ok raw) io) in
  state.tokens s' !! state.hashToken token
  = Some {| state.TokenRecord.Hash := state.hashToken token;
            state.TokenRecord.ExpiresAt :=
              if 0 <? state.ttl s then now + state.ttl s else now + tenYears;
            state.TokenRecord.Used := false;
            state.TokenRecord.ConnectorID := EmptyString |}
  ∧ state.ttl s' = state.ttl s ∧ state.path s' = state.path s.
Proof.
  intros token s'. subst s'. unfold state.CreateToken. cbn zeta. fold token.
  destruct (state.saveLocked _ io); cbn; rewrite lookup_insert_eq; by destruct (0 <? _).
Qed.

Lemma ConsumeToken_expired `{Library} (s : state.TokenStore) token id now io rec :
  token ≠ EmptyString → id ≠ EmptyString →
  state.tokens s !! state.hashToken token = Some rec →
  state.TokenRecord.ExpiresAt rec ≠ time.zero →
  state.TokenRecord.ExpiresAt rec < now →
  state.ConsumeToken s token id now io = (s, Some (errors_New "token expired")).
Proof.
  intros Htok Hid Hrec Hnz Hlate. unfold state.ConsumeToken.
  rewrite !decide_False by done. rewrite Hrec.
  unfold time.IsZero, time.After, time.zero in *.
  apply Z.eqb_neq in Hnz. apply Z.ltb_lt in Hlate. by rewrite Hnz, Hlate.
Qed.

(** X1.  A token minted by [CreateToken] on a store with a positive TTL
    is accepted by [ConsumeToken] at every instant up to and including its
    expiry, creation time plus TTL, and refused as expired, the store
    untouched, at every later instant. *)
Theorem CreateToken_then_ConsumeToken `{Library} (s : state.TokenStore) now raw id t :
  length raw = 16%nat → 0 < state.ttl s → now + state.ttl s ≠ time.zero →
  id ≠ EmptyString →
  let token := hex_EncodeToString raw in
  let s' := fst (state.CreateToken s now (Ok raw) None) in
  (t ≤ now + state.ttl s → snd (state.ConsumeToken s' token id t None) = None)
  ∧ (now + state.ttl s < t →
     ∀ io, state.ConsumeToken s' token id t io = (s', Some (errors_New "token expired"))).
Proof.
  intros Hlen Hpos Hnz Hid token s'.
  assert (Htok : token ≠ EmptyString).
  { apply hex_EncodeToString_nonempty. by destruct raw. }
  destruct (CreateToken_stores s now raw None) as (Hrec & _). fold token s' in Hrec.
  apply Z.ltb_lt in Hpos. rewrite Hpos in Hrec. split.
  - intros Hle.
    rewrite (ConsumeToken_accepts s' token id t _ Htok Hid Hrec) by (by right).
    cbn. apply saveLocked_no_io.
  - intros Hlate io. by apply (ConsumeToken_expired s' token id t io _ Htok Hid Hrec).
Qed.

Lemma CreateToken_then_ConsumeToken_witness :
  let s := state.NewTokenStore (10 * time.Minute) EmptyString None in
  let s' := fst (@state.CreateToken plain.library s plain.issueInstant (Ok plain.rawToken) None) in
  snd (@state.ConsumeToken plain.library s' plain.token "c1"
         (plain.issueInstant + 10 * time.Minute) None) = None
  ∧ snd (@state.ConsumeToken plain.library s' plain.token "c1"
           (plain.issueInstant + 10 * time.Minute + 1) None)
    = Some (errors_New "token expired").
Proof.
  intros s s'.
  destruct (@CreateToken_then_ConsumeToken plain.library s plain.issueInstant plain.rawToken
              "c1" (plain.issueInstant + 10 * time.Minute)) as (Hin & _);
    [reflexivity | reflexivity | discriminate | discriminate |].
  destruct (@CreateToken_then_ConsumeToken plain.library s plain.issueInstant plain.rawToken
              "c1" (plain.issueInstant + 10 * time.Minute + 1)) as (_ & Hout);
    [reflexivity | reflexivity | discriminate | discriminate |].
  split.
  - apply Hin. reflexivity.
  - exact (f_equal snd (Hout eq_refl None)).
Defined.

(** X2.  [ConsumeToken] never creates or deletes a token and never changes
    a hash, an expiry or a [Used] flag: whatever it returns, the store
    holds the same keys, every record other than the one of the presented
    token is the same, and that one differs at most in its connector id.
    The TTL and the path of the store are kept. *)
Theorem ConsumeToken_frame `{Library} (s : state.TokenStore) token id now io :
  let s' := fst (state.ConsumeToken s token id now io) in
  dom (state.tokens s') = dom (state.tokens s)
  ∧ (∀ h, h ≠ state.hashToken token → state.tokens s' !! h = state.tokens s !! h)
  ∧ (∀ rec', state.tokens s' !! state.hashToken token = Some rec' →
       ∃ rec, state.tokens s !! state.hashToken token = Some rec
              ∧ state.TokenRecord.Hash rec' = state.TokenRecord.Hash rec
              ∧ state.TokenRecord.ExpiresAt rec' = state.TokenRecord.ExpiresAt rec
              ∧ state.TokenRecord.Used rec' = state.TokenRecord.Used rec)
  ∧ state.ttl s' = state.ttl s ∧ state.path s' = state.path s.
Proof.
  intros s'. subst s'. unfold state.ConsumeToken.
  repeat case_decide; cbn; try by (split_and!; eauto).
  destruct (state.tokens s !! state.hashToken token) as [rec |] eqn:Hrec; cbn;
    [| split_and!; try done; intros ?; by rewrite Hrec].
  destruct (negb _ && _); cbn; [split_and!; try done; naive_solver |].
  split_and!; try done.
  - rewrite dom_insert_L. apply elem_of_dom_2 in Hrec.
    apply subseteq_union_1_L. by apply singleton_subseteq_l.
  - intros h Hh. by rewrite lookup_insert_ne.
  - intros rec'. rewrite lookup_insert_eq. intros [= <-]. by exists rec.
Qed.

(** X3.  A write to the token file that fails is not rolled back.
    [ConsumeToken] then returns the write error although the record is
    already bound to the new connector id in memory, and [CreateToken]
    returns the error and no token although the record of the token it
    drew stays in the store. *)
Theorem save_failure_not_rolled_back `{Library} (s : state.TokenStore) token id now e rec :
  state.path s ≠ EmptyString →
  token ≠ EmptyString → id ≠ EmptyString →
  state.tokens s !! state.hashToken token = Some rec →
  (state.TokenRecord.ExpiresAt rec = time.zero ∨ now ≤ state.TokenRecord.ExpiresAt rec) →
  (∃ s', state.ConsumeToken s token id now (Some e) = (s', Some e)
         ∧ state.TokenRecord.ConnectorID <$> state.tokens s' !! state.hashToken token
           = Some id)
  ∧ (∀ raw, ∃ s',
       state.CreateToken s now (Ok raw) (Some e) = (s', Err e)
       ∧ is_Some (state.tokens s' !! state.hashToken (hex_EncodeToString raw))).
Proof.
  intros Hpath Htok Hid Hrec Hlive. split.
  - rewrite (ConsumeToken_accepts s token id now rec Htok Hid Hrec Hlive). cbn.
    eexists. split.
    + unfold state.saveLocked. cbn. by rewrite decide_False.
    + cbn. by rewrite lookup_insert_eq.
  - intros raw. unfold state.CreateToken, state.saveLocked. cbn.
    rewrite decide_False by done. eexists. split; [reflexivity |].
    cbn. by rewrite lookup_insert_eq.
Qed.

Lemma save_failure_not_rolled_back_witness :
  let s := state.NewTokenStore 0 "/var/lib/grpccontroller/tokens.json" None in
  let s1 := fst (@state.CreateToken plain.library s plain.issueInstant (Ok plain.rawToken) None) in
  ∃ s', @state.ConsumeToken plain.library s1 plain.token "c1" plain.issueInstant
          (Some (errors_New "disk full"))
        = (s', Some (errors_New "disk full"))
        ∧ state.TokenRecord.ConnectorID
            <$> state.tokens s' !! @state.hashToken plain.library plain.token
          = Some "c1"%string.
Proof.
  intros s s1.
  destruct (@save_failure_not_rolled_back plain.library s1 plain.token "c1" plain.issueInstant
              (errors_New "disk full")
              {| state.TokenRecord.Hash := @state.hashToken plain.library plain.token;
                 state.TokenRecord.ExpiresAt := plain.issueInstant + tenYears;
                 state.TokenRecord.Used := false;
                 state.TokenRecord.ConnectorID := EmptyString |})
    as (Hconsume & _);
    [discriminate | discriminate | discriminate | by vm_compute | right; by vm_compute |].
  exact Hconsume.
Defined.

(** ** The in-memory token store *)

(** X4.  In the in-memory store a fresh token is accepted once at any
    instant up to its expiry, creation time plus TTL, which marks it used
    and binds it to the connector, and is refused as expired at any later
    instant.  The TTL is taken as given, so a store built with a TTL that
    is not positive mints tokens that are expired at every later instant. *)
Theorem mem_CreateToken_then_ConsumeToken `{Library} (s : state_mem.TokenStore) now raw id t :
  raw ≠ [] → id ≠ EmptyString →
  let token := hex_EncodeToString raw in
  let s' := fst (state_mem.CreateToken s now (Ok raw)) in
  (t ≤ now + state_mem.ttl s →
   ∃ s'', state_mem.ConsumeToken s' token id t = (s'', None)
          ∧ state_mem.tokens s'' !! state_mem.hashToken token
            = Some {| state.TokenRecord.Hash := state_mem.hashToken token;
                      state.TokenRecord.ExpiresAt := now + state_mem.ttl s;
                      state.TokenRecord.Used := true;
                      state.TokenRecord.ConnectorID := id |})
  ∧ (now + state_mem.ttl s < t →
     state_mem.ConsumeToken s' token id t = (s', Some (errors_New "token expired")))
  ∧ (state_mem.ttl s ≤ 0 → now < t →
     state_mem.ConsumeToken s' token id t = (s', Some (errors_New "token expired"))).
Proof.
  intros Hraw Hid token s'.
  assert (Htok : token ≠ EmptyString) by by apply hex_EncodeToString_nonempty.
  assert (Hlate : now + state_mem.ttl s < t →
    state_mem.ConsumeToken s' token id t = (s', Some (errors_New "token expired"))).
  { intros Hlt. unfold state_mem.ConsumeToken. rewrite !decide_False by done.
    subst s'. cbn. fold token. rewrite lookup_insert_eq. cbn.
    unfold time.After, time.Add. apply Z.ltb_lt in Hlt. by rewrite Hlt. }
  split_and!; [| done | intros; apply Hlate; lia].
  intros Hle. unfold state_mem.ConsumeToken. rewrite !decide_False by done.
  subst s'. cbn. fold token. rewrite lookup_insert_eq. cbn.
  unfold time.After, time.Add. apply Z.ltb_ge in Hle. rewrite Hle.
  eexists. split; [reflexivity |]. cbn. by rewrite lookup_insert_eq.
Qed.

Lemma mem_CreateToken_then_ConsumeToken_witness :
  let s' := fst (@state_mem.CreateToken plain.library (state_mem.NewTokenStore 0)
                   plain.issueInstant (Ok plain.rawToken)) in
  @state_mem.ConsumeToken plain.library s' plain.token "c1" (plain.issueInstant + 1)
  = (s', Some (errors_New "token expired")).
Proof.
  intros s'.
  destruct (@mem_CreateToken_then_ConsumeToken plain.library (state_mem.NewTokenStore 0)
              plain.issueInstant plain.rawToken "c1" (plain.issueInstant + 1))
    as (_ & _ & Hnever); [discriminate | discriminate |].
  apply Hnever; [reflexivity | reflexivity].
Defined.

(** ** The shape of a token *)

Lemma hexdigit_hexRune (b : byte) :
  hexRune (hexdigit (N.shiftr (Byte.to_N b) 4)) = true
  ∧ hexRune (hexdigit (N.land (Byte.to_N b) 15)) = true.
Proof. destruct b; split; reflexivity. Qed.

Lemma fromHexChar_hexdigit (b : byte) :
  Byte.of_N (16 * fromHexChar (hexdigit (N.shiftr (Byte.to_N b) 4))
             + fromHexChar (hexdigit (N.land (Byte.to_N b) 15)))%N = Some b.
Proof. destruct b; reflexivity. Qed.

Lemma hex_EncodeToString_length (raw : bytes) :
  String.length (hex_EncodeToString raw) = (2 * length raw)%nat.
Proof. induction raw as [| b raw IH]; [done |]. cbn. rewrite IH. lia. Qed.

Lemma hex_EncodeToString_allHex (raw : bytes) :
  allHex (hex_EncodeToString raw) = true.
Proof.
  induction raw as [| b raw IH]; [done |]. cbn [hex_EncodeToString allHex].
  destruct (hexdigit_hexRune b) as [-> ->]. by rewrite IH.
Qed.

Lemma hex_EncodeToString_inj (raw1 raw2 : bytes) :
  hex_EncodeToString raw1 = hex_EncodeToString raw2 → raw1 = raw2.
Proof.
  revert raw2. induction raw1 as [| b1 raw1 IH]; intros [| b2 raw2]; try done.
  cbn [hex_EncodeToString]. intros [= Hhi Hlo Hrest].
  pose proof (fromHexChar_hexdigit b1) as H1.
  rewrite Hhi, Hlo, fromHexChar_hexdigit in H1.
  injection H1 as ->. f_equal. by apply IH.
Qed.

(** X5.  The token [CreateToken] hands out for the sixteen bytes it drew
    is 32 characters long, all of them lower-case hexadecimal digits; it is
    filed under its SHA-256 digest, with that digest as the record's own
    hash; and two calls hand out the same token only when they drew the
    same bytes. *)
Theorem CreateToken_token_shape `{Library} (s : state.TokenStore) now raw io s' token expires :
  length raw = 16%nat →
  state.CreateToken s now (Ok raw) io = (s', Ok (token, expires)) →
  String.length token = 32%nat ∧ allHex token = true
  ∧ (state.TokenRecord.Hash <$> state.tokens s' !! state.hashToken token)
    = Some (state.hashToken token)
  ∧ (∀ s2 now2 raw2 io2 s2' expires2,
       state.CreateToken s2 now2 (Ok raw2) io2 = (s2', Ok (token, expires2)) →
       raw2 = raw).
Proof.
  intros Hlen Hcreate.
  assert (Hinv : ∀ s now raw io s' token expires,
    state.CreateToken s now (Ok raw) io = (s', Ok (token, expires)) →
    token = hex_EncodeToString raw ∧ s' = fst (state.CreateToken s now (Ok raw) io)).
  { clear. intros s now raw io s' token expires Hc. split; [| by rewrite Hc].
    unfold state.CreateToken in Hc. cbn zeta in Hc.
    destruct (state.saveLocked _ io); by inversion Hc. }
  destruct (Hinv _ _ _ _ _ _ _ Hcreate) as [-> ->]. split_and!.
  - by rewrite hex_EncodeToString_length, Hlen.
  - apply hex_EncodeToString_allHex.
  - destruct (CreateToken_stores s now raw io) as (Hrec & _). cbn zeta in Hrec.
    by rewrite Hrec.
  - intros s2 now2 raw2 io2 s2' expires2 Hcreate2.
    destruct (Hinv _ _ _ _ _ _ _ Hcreate2) as [Heq _].
    symmetry. by apply hex_EncodeToString_inj.
Qed.

Lemma CreateToken_token_shape_witness :
  String.length plain.token = 32%nat ∧ allHex plain.token = true.
Proof.
  destruct (@CreateToken_token_shape plain.library
              (state.NewTokenStore 0 EmptyString None) plain.issueInstant plain.rawToken None
              (fst (@state.CreateToken plain.library (state.NewTokenStore 0 EmptyString None)
                      plain.issueInstant (Ok plain.rawToken) None))
              plain.token (plain.issueInstant + tenYears))
    as (Hlen & Hhex & _); [reflexivity | reflexivity |].
  split; [exact Hlen | exact Hhex].
Defined.

(** ** The connector registry *)

Lemma keyedByID_NewRegistry : keyedByID state.NewRegistry.
Proof. intros id rec Hrec. cbn in Hrec. by rewrite lookup_empty in Hrec. Qed.

Lemma connectorOrNew_ID (r : state.Registry) id :
  keyedByID r → state.ConnectorRecord.ID (state.connectorOrNew r id) = id.
Proof.
  intros Hkeyed. unfold state.connectorOrNew.
  destruct (state.connectors r !! id) as [rec |] eqn:Hrec; cbn; [by apply Hkeyed | done].
Qed.

(** X6.  In a registry whose records are each stored under their own id,
    [Get] right after [Register] finds the connector and returns exactly
    the id, address and version just registered, stamped with the time of
    the call; and both [Register] and [RecordHeartbeat] keep every record
    stored under its own id. *)
Theorem Register_then_Get (r : state.Registry) id ip ver now :
  keyedByID r →
  state.Get (state.Register r id ip ver now) id
  = ({| state.ConnectorRecord.ID := id;
        state.ConnectorRecord.PrivateIP := ip;
        state.ConnectorRecord.Version := ver;
        state.ConnectorRecord.LastSeen := now |}, true)
  ∧ keyedByID (state.Register r id ip ver now)
  ∧ keyedByID (state.RecordHeartbeat r id ip now).
Proof.
  intros Hkeyed. split_and!.
  - unfold state.Get, state.Register. cbn. rewrite lookup_insert_eq.
    by rewrite connectorOrNew_ID.
  - intros id' rec'. unfold state.Register. cbn.
    destruct (decide (id' = id)) as [-> | Hne].
    + rewrite lookup_insert_eq. intros [= <-]. cbn. by apply connectorOrNew_ID.
    + rewrite lookup_insert_ne by done. apply Hkeyed.
  - intros id' rec'. unfold state.RecordHeartbeat. cbn.
    destruct (decide (id' = id)) as [-> | Hne].
    + rewrite lookup_insert_eq. intros [= <-]. cbn. by apply connectorOrNew_ID.
    + rewrite lookup_insert_ne by done. apply Hkeyed.
Qed.

Lemma Register_then_Get_witness :
  state.Get (state.Register state.NewRegistry "c1" "10.0.0.5" "1.2.0" plain.issueInstant) "c1"
  = ({| state.ConnectorRecord.ID := "c1";
        state.ConnectorRecord.PrivateIP := "10.0.0.5";
        state.ConnectorRecord.Version := "1.2.0";
        state.ConnectorRecord.LastSeen := plain.issueInstant |}, true).
Proof.
  destruct (Register_then_Get state.NewRegistry "c1" "10.0.0.5" "1.2.0" plain.issueInstant
              keyedByID_NewRegistry) as (Hget & _).
  exact Hget.
Defined.

(** X7.  A heartbeat from a connector the registry has never seen, whatever
    its id, the empty one included, is not refused: it creates a record
    with that id, the reported address, an empty version and the time of
    the call, where [Get] found nothing before. *)
Theorem RecordHeartbeat_unknown (r : state.Registry) id ip now :
  state.connectors r !! id = None →
  snd (state.Get r id) = false
  ∧ state.Get (state.RecordHeartbeat r id ip now) id
    = ({| state.ConnectorRecord.ID := id;
          state.ConnectorRecord.PrivateIP := ip;
          state.ConnectorRecord.Version := EmptyString;
          state.ConnectorRecord.LastSeen := now |}, true).
Proof.
  intros Hnone. unfold state.Get, state.RecordHeartbeat, state.connectorOrNew.
  rewrite Hnone. cbn. rewrite lookup_insert_eq. split; [done |].
  by destruct (decide (ip = EmptyString)) as [-> |].
Qed.

Lemma RecordHeartbeat_unknown_witness :
  state.Get (state.RecordHeartbeat state.NewRegistry EmptyString "10.0.0.9" plain.issueInstant)
            EmptyString
  = ({| state.ConnectorRecord.ID := EmptyString;
        state.ConnectorRecord.PrivateIP := "10.0.0.9";
        state.ConnectorRecord.Version := EmptyString;
        state.ConnectorRecord.LastSeen := plain.issueInstant |}, true).
Proof.
  destruct (RecordHeartbeat_unknown state.NewRegistry EmptyString "10.0.0.9" plain.issueInstant)
    as (_ & Hget); [reflexivity | exact Hget].
Defined.

(** X8.  Both listings come most recently seen first: in the list of
    connectors and in the list of tunnelers no entry is followed, at any
    distance, by one seen later. *)
Theorem listings_most_recent_first
    (r : state.Registry) (t : state.TunnelerStatusRegistry) :
  StronglySorted (λ a b, state.ConnectorRecord.LastSeen b ≤ state.ConnectorRecord.LastSeen a)
                 (state.Registry_List r)
  ∧ StronglySorted (λ a b, state.TunnelerRecord.LastSeen b ≤ state.TunnelerRecord.LastSeen a)
                   (state.TunnelerStatus_List t).
Proof.
  split.
  - apply StronglySorted_merge_sort.
    + intros a b c Hab Hbc. lia.
    + intros a b. lia.
  - apply StronglySorted_merge_sort.
    + intros a b c Hab Hbc. lia.
    + intros a b. lia.
Qed.

(** ** The tunneler allowlist of the controller *)

Lemma orderedOnce_New : orderedOnce state.NewTunnelerRegistry.
Proof.
  split; [constructor |]. intros id. cbn. rewrite lookup_empty. split.
  - by intros ?%elem_of_nil.
  - by intros [? ?].
Qed.

Lemma orderedOnce_Add (r : state.TunnelerRegistry) id spiffeID :
  orderedOnce r → orderedOnce (state.Add r id spiffeID).
Proof.
  intros [Hnodup Horder]. unfold state.Add.
  destruct (decide (id = EmptyString ∨ spiffeID = EmptyString)); [done |].
  destruct (decide (is_Some (state.byID r !! id))) as [Hin | Hout]; split; cbn.
  - done.
  - intros id'. rewrite Horder. destruct (decide (id' = id)) as [-> | Hne].
    + by rewrite lookup_insert_eq.
    + by rewrite lookup_insert_ne.
  - apply NoDup_app. split_and!; [done | | apply NoDup_singleton].
    intros id' Hid' ->%list_elem_of_singleton. by apply Hout, Horder.
  - intros id'. rewrite elem_of_app, list_elem_of_singleton, Horder.
    destruct (decide (id' = id)) as [-> | Hne].
    + rewrite lookup_insert_eq. split; [by eexists | by right].
    + rewrite lookup_insert_ne by done. split; [by intros [? | ?] | by left].
Qed.

Lemma TunnelerRegistry_List_length (r : state.TunnelerRegistry) :
  orderedOnce r → length (state.TunnelerRegistry_List r) = size (state.byID r).
Proof.
  intros [Hnodup Horder]. unfold state.TunnelerRegistry_List.
  assert (Hlen : ∀ l : list string, (∀ id, id ∈ l → is_Some (state.byID r !! id)) →
                 length (omap (λ id, state.byID r !! id) l) = length l).
  { induction l as [| id l IH]; intros Hall; [done |]. cbn.
    destruct (Hall id) as [info ->]; [by left |]. cbn. f_equal. apply IH.
    intros id' Hid'. apply Hall. by right. }
  rewrite Hlen by (intros id; apply Horder).
  rewrite <- size_dom, <- (size_list_to_set (C := gset string)) by done.
  f_equal. apply set_eq. intros id.
  by rewrite elem_of_list_to_set, elem_of_dom, Horder.
Qed.

(** X9.  An allowlist whose order names each enrolled tunneler exactly once
    stays so under [Add], and its listing then has one entry per enrolled
    tunneler.  [Add] with an empty id or an empty SPIFFE ID changes
    nothing. *)
Theorem Add_keeps_order (r : state.TunnelerRegistry) id spiffeID :
  orderedOnce r →
  orderedOnce (state.Add r id spiffeID)
  ∧ length (state.TunnelerRegistry_List (state.Add r id spiffeID))
    = size (state.byID (state.Add r id spiffeID))
  ∧ state.Add r EmptyString spiffeID = r
  ∧ state.Add r id EmptyString = r.
Proof.
  intros Hr. split_and!.
  - by apply orderedOnce_Add.
  - by apply TunnelerRegistry_List_length, orderedOnce_Add.
  - unfold state.Add. rewrite decide_True; [done | by left].
  - unfold state.Add. rewrite decide_True; [done | by right].
Qed.

Lemma Add_keeps_order_witness :
  length (state.TunnelerRegistry_List
            (state.Add (state.Add state.NewTunnelerRegistry "t1" "spiffe://example.org/tunneler/t1")
                       "t1" "spiffe://example.org/tunneler/t1")) = 1%nat.
Proof.
  destruct (Add_keeps_order
              (state.Add state.NewTunnelerRegistry "t1" "spiffe://example.org/tunneler/t1")
              "t1" "spiffe://example.org/tunneler/t1"
              (orderedOnce_Add _ _ _ orderedOnce_New)) as (_ & Hlen & _).
  exact Hlen.
Defined.

(** X10.  Enrolling a tunneler that is not yet on the allowlist appends it
    to the listing, behind the entries already there; enrolling one that is
    keeps the listing's length and, at the place it already had, lists it
    with its id and the new SPIFFE ID. *)
Theorem Add_listing (r : state.TunnelerRegistry) id spiffeID :
  orderedOnce r → id ≠ EmptyString → spiffeID ≠ EmptyString →
  let info := {| state.TunnelerInfo.ID := id; state.TunnelerInfo.SPIFFEID := spiffeID |} in
  (state.byID r !! id = None →
   state.TunnelerRegistry_List (state.Add r id spiffeID)
   = state.TunnelerRegistry_List r ++ [info])
  ∧ (∀ old, state.byID r !! id = Some old →
     ∀ i, state.TunnelerRegistry_List (state.Add r id spiffeID) !! i
          = if decide (state.order r !! i = Some id) then Some info
            else state.TunnelerRegistry_List r !! i)
  ∧ info ∈ state.TunnelerRegistry_List (state.Add r id spiffeID).
Proof.
  intros [Hnodup Horder] Hid Hsp info.
  assert (Hmap : ∀ l : list string, (∀ id', id' ∈ l → is_Some (state.byID r !! id')) →
    omap (λ id', <[id := info]> (state.byID r) !! id') l
    = (λ id', if decide (id' = id) then info
              else default info (state.byID r !! id')) <$> l
    ∧ omap (λ id', state.byID r !! id') l
      = (λ id', default info (state.byID r !! id')) <$> l).
  { induction l as [| id' l IH]; intros Hall; [done |].
    destruct IH as [IH1 IH2]; [intros ? ?; apply Hall; by right |].
    destruct (Hall id') as [info' Hinfo']; [by left |]. cbn.
    rewrite IH1, IH2, Hinfo'. destruct (decide (id' = id)) as [-> | Hne].
    - by rewrite lookup_insert_eq.
    - by rewrite lookup_insert_ne, Hinfo'. }
  destruct (Hmap (state.order r)) as [Hnew Hold]; [intros ?; apply Horder |].
  assert (Hadd : state.Add r id spiffeID
                 = {| state.byID := <[id := info]> (state.byID r);
                      state.order := if decide (is_Some (state.byID r !! id))
                                     then state.order r else state.order r ++ [id] |}).
  { unfold state.Add. rewrite decide_False; [done | by intros [? | ?]]. }
  split_and!.
  - intros Hfresh. rewrite Hadd. unfold state.TunnelerRegistry_List. cbn.
    rewrite decide_False by (rewrite Hfresh; by intros [? ?]).
    rewrite omap_app. cbn. rewrite lookup_insert_eq. cbn. f_equal.
    rewrite Hnew, Hold. apply list_fmap_ext. intros i id' Hi.
    rewrite decide_False; [done |]. intros ->.
    apply list_elem_of_lookup_2, Horder in Hi. rewrite Hfresh in Hi. by destruct Hi.
  - intros old Hsome i. rewrite Hadd. unfold state.TunnelerRegistry_List. cbn.
    rewrite decide_True by (by rewrite Hsome).
    rewrite Hnew, Hold, !list_lookup_fmap.
    destruct (state.order r !! i) as [id' |] eqn:Hi; cbn.
    + destruct (decide (id' = id)) as [-> | Hne].
      * by rewrite decide_True.
      * rewrite decide_False; [done | congruence].
    + by rewrite decide_False.
  - rewrite Hadd. unfold state.TunnelerRegistry_List. cbn.
    apply list_elem_of_omap. exists id. split; [| by rewrite lookup_insert_eq].
    destruct (decide (is_Some (state.byID r !! id))) as [Hin | Hout].
    + by apply Horder.
    + apply elem_of_app. right. by apply list_elem_of_singleton.
Qed.

Lemma Add_listing_witness :
  state.TunnelerRegistry_List
    (state.Add (state.Add state.NewTunnelerRegistry "t1" "spiffe://example.org/tunneler/t1")
               "t2" "spiffe://example.org/tunneler/t2")
  = [ {| state.TunnelerInfo.ID := "t1";
         state.TunnelerInfo.SPIFFEID := "spiffe://example.org/tunneler/t1" |};
      {| state.TunnelerInfo.ID := "t2";
         state.TunnelerInfo.SPIFFEID := "spiffe://example.org/tunneler/t2" |} ].
Proof.
  destruct (Add_listing
              (state.Add state.NewTunnelerRegistry "t1" "spiffe://example.org/tunneler/t1")
              "t2" "spiffe://example.org/tunneler/t2"
              (orderedOnce_Add _ _ _ orderedOnce_New)) as (Hfresh & _);
    [discriminate | discriminate |].
  rewrite Hfresh; reflexivity.
Defined.

(** ** The tunneler status registry *)

(** X11.  [Record] ignores a report without a tunneler id.  For any other
    id it stamps that tunneler's record with the time of the call, keeps
    the SPIFFE ID and the connector id on file wherever the report leaves
    them empty, and touches no other tunneler's record. *)
Theorem TunnelerStatus_Record_frame
    (r : state.TunnelerStatusRegistry) id spiffeID connectorID now :
  state.TunnelerStatus_Record r EmptyString spiffeID connectorID now = r
  ∧ (id ≠ EmptyString →
     (∃ rec, state.tunnelers (state.TunnelerStatus_Record r id spiffeID connectorID now) !! id
             = Some rec
             ∧ state.TunnelerRecord.LastSeen rec = now
             ∧ (spiffeID ≠ EmptyString → state.TunnelerRecord.SPIFFEID rec = spiffeID)
             ∧ (connectorID ≠ EmptyString → state.TunnelerRecord.ConnectorID rec = connectorID)
             ∧ (∀ old, state.tunnelers r !! id = Some old →
                  state.TunnelerRecord.ID rec = state.TunnelerRecord.ID old
                  ∧ (spiffeID = EmptyString →
                     state.TunnelerRecord.SPIFFEID rec = state.TunnelerRecord.SPIFFEID old)
                  ∧ (connectorID = EmptyString →
                     state.TunnelerRecord.ConnectorID rec
                     = state.TunnelerRecord.ConnectorID old)))
     ∧ (∀ id', id' ≠ id →
          state.tunnelers (state.TunnelerStatus_Record r id spiffeID connectorID now) !! id'
          = state.tunnelers r !! id')).
Proof.
  split; [done |]. intros Hid. unfold state.TunnelerStatus_Record.
  rewrite decide_False by done. cbn. split.
  - rewrite lookup_insert_eq. eexists. split; [reflexivity |]. cbn. split_and!.
    + done.
    + intros Hsp. by rewrite decide_False.
    + intros Hc. by rewrite decide_False.
    + intros old ->. cbn. split_and!; [done | |].
      * intros ->. by rewrite decide_True.
      * intros ->. by rewrite decide_True.
  - intros id' Hne. by rewrite lookup_insert_ne.
Qed.

(** ** The connector's schedule: renewals and restarts *)

(** X12.  Neither scheduler ever names an instant sooner than ten seconds
    from now, whatever the expiry and the total TTL, overflowing ones
    included.  When the certificate has at least ten seconds left and the
    thirty-fold of a positive total TTL fits a Duration, the instant
    [nextRenewal] names is not after the expiry either. *)
Theorem nextRenewal_bounds now notAfter totalTTL :
  0 < totalTTL → totalTTL * 30 ≤ time.maxDuration →
  now + 10 * time.Second ≤ notAfter →
  nextRenewal now notAfter totalTTL ≤ notAfter
  ∧ (∀ notAfter' ttl, now + 10 * time.Second ≤ nextRenewal now notAfter' ttl)
  ∧ (∀ notAfter', now + 10 * time.Second ≤ RunV1.nextRenewal now notAfter').
Proof.
  intros Hpos Hfit Hleft. split_and!.
  - rewrite nextRenewal_positive_ttl by done.
    assert (0 ≤ totalTTL * 30 / 100) by (apply Z.div_pos; lia). lia.
  - intros notAfter' ttl. unfold nextRenewal, time.Add, time.Before.
    repeat case_match; rewrite ?Z.ltb_lt, ?Z.ltb_ge in *; lia.
  - intros notAfter'. unfold RunV1.nextRenewal, time.Add, time.Before.
    repeat case_match; rewrite ?Z.ltb_lt, ?Z.ltb_ge in *;
      unfold time.Second in *; lia.
Qed.

Lemma nextRenewal_bounds_witness :
  nextRenewal 0 (300 * time.Second) (360 * time.Second) ≤ 300 * time.Second
  ∧ 0 + 10 * time.Second ≤ nextRenewal 0 (300 * time.Second) (2 ^ 62).
Proof.
  destruct (nextRenewal_bounds 0 (300 * time.Second) (360 * time.Second))
    as (Hupper & Hlower & _); [done | done | done |].
  split; [exact Hupper | apply Hlower].
Defined.

Lemma backoffAfter_capped (n : nat) :
  run.backoffAfter (4 + n) = 32 * time.Second.
Proof.
  induction n as [| n IH]; [reflexivity |].
  replace (4 + S n)%nat with (S (4 + n)) by lia.
  unfold run.backoffAfter in *. by rewrite Nat.iter_succ, IH.
Qed.

(** X13.  The wait between restarts of the connector's server and of its
    control-plane session starts at two seconds, doubles after each turn
    and settles, from the fifth turn on, at thirty-two seconds: the test
    against thirty seconds is made before the doubling.  The wait never
    shrinks, whatever the outcome of a turn. *)
Theorem backoff_schedule (n : nat) :
  run.backoffAfter n = 2 ^ (Z.of_nat (Nat.min n 4) + 1) * time.Second
  ∧ 2 * time.Second ≤ run.backoffAfter n ≤ 32 * time.Second
  ∧ run.backoffAfter n ≤ run.backoffAfter (S n).
Proof.
  assert (Hform : ∀ m, run.backoffAfter m = 2 ^ (Z.of_nat (Nat.min m 4) + 1) * time.Second).
  { intros m. destruct (Nat.le_gt_cases 4 m) as [Hge | Hlt].
    - replace m with (4 + (m - 4))%nat at 1 by lia. rewrite backoffAfter_capped.
      by rewrite Nat.min_r.
    - do 4 (destruct m as [| m]; [reflexivity |]). lia. }
  assert (Hpow : ∀ m, 2 ≤ 2 ^ (Z.of_nat (Nat.min m 4) + 1) ≤ 32).
  { intros m. split.
    - change 2 with (2 ^ 1) at 1. apply Z.pow_le_mono_r; lia.
    - change 32 with (2 ^ 5). apply Z.pow_le_mono_r; lia. }
  split; [| split].
  - apply Hform.
  - rewrite Hform. pose proof (Hpow n). unfold time.Second. lia.
  - destruct (Nat.le_gt_cases 4 n) as [Hge | Hlt].
    + replace (S n) with (4 + (S n - 4))%nat by lia.
      replace n with (4 + (n - 4))%nat at 1 by lia. by rewrite !backoffAfter_capped.
    + do 4 (destruct n as [| n]; [by vm_compute |]). lia.
Qed.

(** ** The connector's allowlist of tunnelers *)

Lemma Replace_elem (items : list run.tunnelerInfo) (acc : gset string) id :
  id ∈ foldl (λ m item, if bool_decide (run.SPIFFEID item = EmptyString) then m
                        else {[run.SPIFFEID item]} ∪ m) acc items
  ↔ id ∈ acc ∨ (id ≠ EmptyString ∧ ∃ item, item ∈ items ∧ run.SPIFFEID item = id).
Proof.
  revert acc. induction items as [| item items IH]; intros acc; cbn [foldl].
  - split; [by left |]. intros [? | (_ & item & Hin & _)]; [done |].
    by apply elem_of_nil in Hin.
  - rewrite IH. case_bool_decide as Hempty.
    + split.
      * intros [? | (Hne & item' & Hin & Heq)]; [by left |].
        right. split; [done |]. exists item'. split; [by right | done].
      * intros [? | (Hne & item' & Hin & Heq)]; [by left |].
        apply elem_of_cons in Hin as [-> | Hin]; [congruence |].
        right. split; [done |]. by exists item'.
    + rewrite elem_of_union, elem_of_singleton. split.
      * intros [[-> | ?] | (Hne & item' & Hin & Heq)].
        -- right. split; [done |]. exists item. split; [by left | done].
        -- by left.
        -- right. split; [done |]. exists item'. split; [by right | done].
      * intros [? | (Hne & item' & Hin & Heq)]; [left; by right |].
        apply elem_of_cons in Hin as [-> | Hin]; [left; by left |].
        right. split; [done |]. by exists item'.
Qed.

Lemma Allowed_Replace (a : run.tunnelerAllowlist) items id :
  run.Allowed (run.Replace a items) id = true
  ↔ id ≠ EmptyString ∧ ∃ item, item ∈ items ∧ run.SPIFFEID item = id.
Proof.
  unfold run.Allowed, run.Replace. cbn. rewrite bool_decide_eq_true, Replace_elem.
  split; [intros [Hin | ?]; [by apply elem_of_empty in Hin | done] | by right].
Qed.

Lemma Allowed_Add (a : run.tunnelerAllowlist) spiffeID id :
  run.Allowed (run.Add a spiffeID) id = true
  ↔ run.Allowed a id = true ∨ (spiffeID ≠ EmptyString ∧ id = spiffeID).
Proof.
  unfold run.Allowed, run.Add.
  destruct (decide (spiffeID = EmptyString)) as [Hempty | Hempty];
    [rewrite (bool_decide_eq_true_2 (spiffeID = EmptyString)) by done
    | rewrite (bool_decide_eq_false_2 (spiffeID = EmptyString)) by done]; cbn.
  - rewrite !bool_decide_eq_true. split; [by left | by intros [? | [? _]]].
  - rewrite !bool_decide_eq_true, elem_of_union, elem_of_singleton.
    split; [intros [-> | ?]; [by right | by left] | intros [? | [_ ->]]; [by right | by left]].
Qed.

(** X14.  After [Replace] the allowlist admits exactly the non-empty SPIFFE
    IDs of the items given, whatever it admitted before; [Add] admits one
    more SPIFFE ID and revokes none, and does nothing for the empty one; a
    new allowlist admits nobody. *)
Theorem allowlist_Replace_Add (a : run.tunnelerAllowlist) items spiffeID id :
  (run.Allowed (run.Replace a items) id = true
   ↔ id ≠ EmptyString ∧ ∃ item, item ∈ items ∧ run.SPIFFEID item = id)
  ∧ (run.Allowed (run.Add a spiffeID) id = true
     ↔ run.Allowed a id = true ∨ (spiffeID ≠ EmptyString ∧ id = spiffeID))
  ∧ run.Add a EmptyString = a
  ∧ run.Allowed run.newTunnelerAllowlist id = false.
Proof.
  split_and!.
  - apply Allowed_Replace.
  - apply Allowed_Add.
  - done.
  - unfold run.Allowed. cbn. by apply bool_decide_eq_false, not_elem_of_empty.
Qed.

(** X15.  A control message never makes the connector admit the empty
    SPIFFE ID.  Only a well-formed "tunneler_allowlist" message can revoke
    a tunneler: after any other message every SPIFFE ID admitted before is
    still admitted, and a message of another type than "tunneler_allow", or
    one whose payload does not parse, leaves the allowlist as it was. *)
Theorem handleControlMessage_effect
    (unmarshalItems : bytes → result error (list run.tunnelerInfo))
    (unmarshalItem : bytes → result error run.tunnelerInfo)
    (m : controlpb.ControlMessage) (a : run.tunnelerAllowlist) :
  ∃ a', run.handleControlMessage unmarshalItems unmarshalItem (Some m) (Some a) = Some a'
  ∧ (run.Allowed a EmptyString = false → run.Allowed a' EmptyString = false)
  ∧ (controlpb.Type_ m ≠ "tunneler_allowlist"%string →
     ∀ id, run.Allowed a id = true → run.Allowed a' id = true)
  ∧ (controlpb.Type_ m ≠ "tunneler_allowlist"%string →
     controlpb.Type_ m ≠ "tunneler_allow"%string → a' = a)
  ∧ (is_ok (unmarshalItems (controlpb.Payload m)) = false →
     is_ok (unmarshalItem (controlpb.Payload m)) = false → a' = a).
Proof.
  unfold run.handleControlMessage.
  destruct (String.eqb_spec (controlpb.Type_ m) "tunneler_allowlist") as [Hlist | Hlist].
  - destruct (unmarshalItems (controlpb.Payload m)) as [items | e];
      eexists; (split; [reflexivity |]); split_and!; try done.
    intros _. apply not_true_is_false. rewrite Allowed_Replace. by intros [? _].
  - destruct (String.eqb_spec (controlpb.Type_ m) "tunneler_allow") as [Hallow | Hallow];
      [| eexists; (split; [reflexivity |]); by split_and!].
    destruct (unmarshalItem (controlpb.Payload m)) as [item | e];
      eexists; (split; [reflexivity |]); split_and!; try done.
    + intros Hempty. apply not_true_is_false. rewrite Allowed_Add.
      intros [Hin | [Hne Heq]]; [by rewrite Hempty in Hin | done].
    + intros _ id Hid. apply Allowed_Add. by left.
Qed.

(** ** The tunneler id in a SPIFFE ID *)

Lemma split_go_segment a cur rest :
  strings.Contains a "/" = false →
  strings.split_go "/" 0 cur (a +:+ "/" +:+ rest)
  = (cur +:+ a) :: strings.split_go "/" 0 EmptyString rest.
Proof.
  intros Ha. rewrite (split_go_no_slash a _ _ Ha).
  rewrite append_cons, append_nil_l. destruct rest; reflexivity.
Qed.

Lemma Split_three_segments a b c :
  strings.Contains a "/" = false → strings.Contains b "/" = false →
  strings.Contains c "/" = false →
  strings.Split (a +:+ "/" +:+ b +:+ "/" +:+ c) "/" = [a; b; c].
Proof.
  intros Ha Hb Hc. unfold strings.Split.
  rewrite (split_go_segment a _ _ Ha), (split_go_segment b _ _ Hb), !append_nil_l.
  rewrite <- (append_nil_r c) at 1.
  by rewrite (split_go_no_slash c _ _ Hc), append_nil_l.
Qed.

(** X16.  From the SPIFFE ID the controller issues to a tunneler,
    spiffe://<trust domain>/tunneler/<id> with no "/" inside the trust
    domain or the id, [parseTunnelerID] reads back the id; from the SPIFFE
    ID of any other role, and from the empty string, it reads the empty
    id. *)
Theorem parseTunnelerID_spiffeString (td role id : string) :
  strings.Contains td "/" = false → strings.Contains role "/" = false →
  strings.Contains id "/" = false →
  run.parseTunnelerID (spiffeString td "tunneler" id) = id
  ∧ (role ≠ "tunneler"%string → run.parseTunnelerID (spiffeString td role id) = EmptyString)
  ∧ run.parseTunnelerID EmptyString = EmptyString.
Proof.
  intros Htd Hrole Hid.
  assert (Hparse : ∀ r, strings.Contains r "/" = false →
    run.parseTunnelerID (spiffeString td r id)
    = if negb (String.eqb r "tunneler") then EmptyString else id).
  { intros r Hr. unfold run.parseTunnelerID, spiffeString.
    rewrite bool_decide_eq_false_2 by done.
    by rewrite TrimPrefix_append, Split_three_segments. }
  split_and!.
  - by rewrite Hparse.
  - intros Hne. rewrite Hparse by done. apply String.eqb_neq in Hne. by rewrite Hne.
  - done.
Qed.

Lemma parseTunnelerID_spiffeString_witness :
  run.parseTunnelerID "spiffe://example.org/tunneler/t1" = "t1"%string.
Proof.
  destruct (parseTunnelerID_spiffeString "example.org" "connector" "t1")
    as (Hid & _); [reflexivity | reflexivity | reflexivity |].
  exact Hid.
Defined.

(** ** The admin routes *)

Lemma CreateToken_no_io `{Library} (s : state.TokenStore) now raw :
  state.CreateToken s now (Ok raw) None
  = (fst (state.CreateToken s now (Ok raw) None),
     Ok (hex_EncodeToString raw,
         if 0 <? state.ttl s then now + state.ttl s else now + tenYears)).
Proof.
  unfold state.CreateToken. cbn zeta. rewrite saveLocked_no_io.
  by destruct (0 <? state.ttl s).
Qed.

(** X17.  The two authorisation wrappers fail closed.  The wrapped handler
    runs only when the server's token is configured and the request carries
    it, as "Bearer <token>" in Authorization for the admin routes and
    verbatim in X-Internal-Token for the internal one; every other request
    is answered 503 (no token configured) or 401 with the server unchanged.
    In particular a request without the header never reaches the handler,
    whatever the configuration. *)
Theorem auth_wrappers_fail_closed {P : Type} (s : admin.Server)
    (next : admin_http.Request → admin.Server * admin.Response P) (r : admin_http.Request) :
  (admin_http.adminAuth s next r = next r
   ∧ admin.AdminAuthToken s ≠ EmptyString
   ∧ admin_http.Authorization r = ("Bearer " +:+ admin.AdminAuthToken s)%string
   ∨ (∃ msg code, admin_http.adminAuth s next r = (s, admin.http_Error msg code)
                  ∧ (code = 503 ∨ code = 401)))
  ∧ (admin_http.internalAuth s next r = next r
     ∧ admin.InternalAuthToken s ≠ EmptyString
     ∧ admin_http.XInternalToken r = admin.InternalAuthToken s
     ∨ (∃ msg code, admin_http.internalAuth s next r = (s, admin.http_Error msg code)
                    ∧ (code = 503 ∨ code = 401)))
  ∧ (admin_http.Authorization r = EmptyString →
     ∃ msg code, admin_http.adminAuth s next r = (s, admin.http_Error msg code))
  ∧ (admin_http.XInternalToken r = EmptyString →
     ∃ msg code, admin_http.internalAuth s next r = (s, admin.http_Error msg code)).
Proof.
  unfold admin_http.adminAuth, admin_http.internalAuth. split_and!.
  - case_bool_decide as Hcfg; [right; eexists _, _; split; [done | by left] |].
    destruct (String.eqb_spec (admin_http.Authorization r)
                ("Bearer " +:+ admin.AdminAuthToken s)) as [Heq | Hne]; cbn.
    + by left.
    + right. eexists _, _. split; [done | by right].
  - case_bool_decide as Hcfg; [right; eexists _, _; split; [done | by left] |].
    destruct (String.eqb_spec (admin_http.XInternalToken r) (admin.InternalAuthToken s))
      as [Heq | Hne]; cbn.
    + by left.
    + right. eexists _, _. split; [done | by right].
  - intros Hnone. case_bool_decide as Hcfg; [by eexists _, _ |].
    rewrite Hnone. by eexists _, _.
  - intros Hnone. case_bool_decide as Hcfg; [by eexists _, _ |].
    rewrite Hnone.
    destruct (String.eqb_spec EmptyString (admin.InternalAuthToken s)) as [Heq | Hne]; cbn;
      [done | by eexists _, _].
Qed.

(** X18.  Through the routes: a token minted by an authorised POST to the
    token route is accepted by an authorised POST to the consume route that
    presents it with a connector id, at any instant up to the expiry the
    first answer announced; the second answer is 200 "ok" and the store then
    holds the token bound to that connector. *)
Theorem routes_create_then_consume `{Library} (s s1 : admin.Server) now t raw token expires
    (r1 r2 : admin_http.Request) id :
  admin.AdminAuthToken s ≠ EmptyString → admin.InternalAuthToken s ≠ EmptyString →
  raw ≠ [] → id ≠ EmptyString →
  admin_http.Method r1 = "POST"%string →
  admin_http.Authorization r1 = ("Bearer " +:+ admin.AdminAuthToken s)%string →
  admin_http.Method r2 = "POST"%string →
  admin_http.XInternalToken r2 = admin.InternalAuthToken s →
  admin_http.Body r2 = Some {| admin_http.Token := token; admin_http.ConnectorID := id |} →
  admin_http.adminAuth s (admin_http.handleCreateToken s now (Ok raw) None) r1
  = (s1, admin.writeJSON admin.StatusOK (token, expires)) →
  t ≤ expires →
  ∃ s2, admin_http.internalAuth s1 (admin_http.handleConsumeToken s1 t None) r2
        = (s2, admin.writeJSON admin.StatusOK "ok"%string)
        ∧ state.TokenRecord.ConnectorID
            <$> state.tokens (admin.Tokens s2) !! state.hashToken token
          = Some id.
Proof.
  intros Hadmin Hinternal Hraw Hid Hm1 Hauth1 Hm2 Hauth2 Hbody Hcreate Hlive.
  unfold admin_http.adminAuth in Hcreate.
  rewrite bool_decide_eq_false_2, Hauth1, String.eqb_refl in Hcreate by done.
  cbn [negb] in Hcreate. unfold admin_http.handleCreateToken in Hcreate.
  rewrite Hm1, String.eqb_refl, CreateToken_no_io in Hcreate. cbn [negb] in Hcreate.
  pose proof (CreateToken_stores (admin.Tokens s) now raw None) as (Hrec & _).
  cbn zeta in Hrec.
  set (ts := fst (state.CreateToken (admin.Tokens s) now (Ok raw) None)) in *.
  inversion Hcreate; subst s1 token expires; clear Hcreate.
  unfold admin_http.internalAuth. cbn.
  rewrite bool_decide_eq_false_2, Hauth2, String.eqb_refl by done. cbn.
  unfold admin_http.handleConsumeToken. rewrite Hm2, Hbody. cbn.
  rewrite bool_decide_eq_false_2 by done.
  assert (Htok : hex_EncodeToString raw ≠ EmptyString)
    by by apply hex_EncodeToString_nonempty.
  rewrite (ConsumeToken_accepts ts (hex_EncodeToString raw) id t _ Htok Hid Hrec)
    by (by right).
  cbn. rewrite saveLocked_no_io. eexists. split; [reflexivity |].
  cbn. by rewrite lookup_insert_eq.
Qed.

Lemma routes_create_then_consume_witness :
  let s := {| admin.Tokens := state.NewTokenStore (10 * time.Minute) EmptyString None;
              admin.Reg := state.NewRegistry;
              admin.Tunnelers := None;
              admin.AdminAuthToken := "admin-secret";
              admin.InternalAuthToken := "internal-secret" |} in
  let r1 := {| admin_http.Method := "POST";
               admin_http.Authorization := "Bearer admin-secret";
               admin_http.XInternalToken := EmptyString;
               admin_http.Body := None |} in
  let r2 := {| admin_http.Method := "POST";
               admin_http.Authorization := EmptyString;
               admin_http.XInternalToken := "internal-secret";
               admin_http.Body := Some {| admin_http.Token := plain.token;
                                          admin_http.ConnectorID := "c1" |} |} in
  let s1 := fst (admin_http.adminAuth s
                   (@admin_http.handleCreateToken plain.library s plain.issueInstant
                      (Ok plain.rawToken) None) r1) in
  ∃ s2, admin_http.internalAuth s1
          (@admin_http.handleConsumeToken plain.library s1
             (plain.issueInstant + 10 * time.Minute) None) r2
        = (s2, admin.writeJSON admin.StatusOK "ok"%string).
Proof.
  intros s r1 r2 s1.
  destruct (@routes_create_then_consume plain.library s s1 plain.issueInstant
              (plain.issueInstant + 10 * time.Minute) plain.rawToken plain.token
              (plain.issueInstant + 10 * time.Minute) r1 r2 "c1")
    as (s2 & Hconsume & _);
    [discriminate | discriminate | discriminate | discriminate
    | reflexivity | reflexivity | reflexivity | reflexivity | reflexivity
    | reflexivity | reflexivity |].
  exists s2. exact Hconsume.
Defined.

(** X19.  The consume route answers 200 only when the store accepted the
    token for the connector id of the body, and then with the body "ok".
    Every refusal is a 405, a 400 or a 401, and a 405 or 400 leaves the
    server as it was; a token the store refuses, and equally a token file
    that cannot be written, is answered 401, never 500. *)
Theorem handleConsumeToken_status `{Library} (s : admin.Server) now io
    (r : admin_http.Request) :
  let s' := fst (admin_http.handleConsumeToken s now io r) in
  match snd (admin_http.handleConsumeToken s now io r) with
  | admin.writeJSON code payload =>
      code = 200 ∧ payload = "ok"%string ∧ admin_http.Method r = "POST"%string
      ∧ ∃ req, admin_http.Body r = Some req
               ∧ admin_http.ConnectorID req ≠ EmptyString
               ∧ state.ConsumeToken (admin.Tokens s) (admin_http.Token req)
                   (admin_http.ConnectorID req) now io
                 = (admin.Tokens s', None)
  | admin.http_Error msg code =>
      (code = 405 ∨ code = 400 ∨ code = 401)
      ∧ (code ≠ 401 → s' = s)
      ∧ (code = 401 →
         ∃ req e, admin_http.Body r = Some req
                  ∧ snd (state.ConsumeToken (admin.Tokens s) (admin_http.Token req)
                           (admin_http.ConnectorID req) now io) = Some e
                  ∧ msg = ("token invalid: " +:+ Error e)%string)
  end.
Proof.
  unfold admin_http.handleConsumeToken.
  destruct (String.eqb_spec (admin_http.Method r) "POST") as [Hpost | Hpost]; cbn;
    [| split_and!; [by left | done | done]].
  destruct (admin_http.Body r) as [req |]; cbn;
    [| split_and!; [right; by left | done | done]].
  case_bool_decide as Hid; cbn; [split_and!; [right; by left | done | done] |].
  destruct (state.ConsumeToken _ _ _ now io) as [ts [e |]] eqn:Hconsume; cbn.
  - split_and!; [right; by right | by intros [] |]. intros _.
    exists req, e. by rewrite Hconsume.
  - split_and!; try done. by exists req.
Qed.

(** ** The transport check of package tlsutil *)

Lemma split_go_nonempty sep skip cur s : strings.split_go sep skip cur s ≠ [].
Proof.
  revert skip cur. induction s as [| c s IH]; intros skip cur; [done |].
  cbn [strings.split_go]. destruct skip; [| apply IH].
  destruct (strings.HasPrefix _ _); [done | apply IH].
Qed.

Lemma extractAndVerifySPIFFE_ok_inv `{Library} ctx trustDomain roles spiffeID role :
  api.extractAndVerifySPIFFE ctx trustDomain roles = Ok (spiffeID, role) →
  ∃ cert rest uri id,
    api.ctx_peer ctx = Some {| api.peer_AuthInfo := api.TLSInfo (cert :: rest) |}
    ∧ x509.URIs cert = [uri]
    ∧ url.Scheme uri = "spiffe"%string
    ∧ url.Host uri = trustDomain
    ∧ pathSegments uri = [role; id]
    ∧ (roles = ∅ ∨ role ∈ roles)
    ∧ spiffeID = URL_String uri.
Proof.
  unfold api.extractAndVerifySPIFFE, pathSegments. intros Hok.
  destruct (api.ctx_peer ctx) as [[[[| cert rest] |]] |]; cbn in Hok; try done.
  destruct (x509.URIs cert) as [| uri [| ? ?]] eqn:Huris; cbn in Hok; try done.
  destruct (String.eqb_spec (url.Scheme uri) "spiffe") as [Hscheme |]; cbn in Hok; [| done].
  destruct (String.eqb_spec (url.Host uri) trustDomain) as [Hhost |]; cbn in Hok; [| done].
  destruct (strings.Split (strings.TrimPrefix (url.Path uri) "/") "/")
    as [| r [| id [| ? ?]]] eqn:Hsplit; try done.
  destruct (negb (bool_decide (roles = ∅)) && negb (bool_decide (r ∈ roles)))
    eqn:Hroles; [done |].
  inversion Hok; subst; clear Hok.
  exists cert, rest, uri, id. split_and!; try done.
  apply andb_false_iff in Hroles as [Hempty | Hmember].
  - left. apply negb_false_iff in Hempty. by apply bool_decide_eq_true in Hempty.
  - right. apply negb_false_iff in Hmember. by apply bool_decide_eq_true in Hmember.
Qed.

Lemma verifySPIFFEURI_first_segment (uri : url.URL) trustDomain expectedRole role rest :
  url.Scheme uri = "spiffe"%string → url.Host uri = trustDomain →
  pathSegments uri = role :: rest →
  expectedRole = EmptyString ∨ role = expectedRole →
  tlsutil.verifySPIFFEURI uri trustDomain expectedRole = None.
Proof.
  intros Hscheme Hhost Hsplit Hrole. unfold tlsutil.verifySPIFFEURI.
  unfold pathSegments in Hsplit.
  rewrite Hscheme, Hhost, !String.eqb_refl, Hsplit. cbn [negb].
  destruct Hrole as [-> | ->]; [done |].
  rewrite String.eqb_refl. cbn [negb]. by rewrite andb_false_r.
Qed.

(** X20.  [verifySPIFFEURI] accepts a URI exactly when its scheme is
    spiffe, its host is the trust domain and, an expected role being given,
    the first segment of its path is that role: the number of segments and
    the id are not looked at.  Its error "invalid SPIFFE path" is never
    returned, a split yielding at least one part. *)
Theorem verifySPIFFEURI_accepts (uri : url.URL) (trustDomain expectedRole : string) :
  (tlsutil.verifySPIFFEURI uri trustDomain expectedRole = None
   ↔ url.Scheme uri = "spiffe"%string ∧ url.Host uri = trustDomain
     ∧ (expectedRole = EmptyString ∨ head (pathSegments uri) = Some expectedRole))
  ∧ tlsutil.verifySPIFFEURI uri trustDomain expectedRole
    ≠ Some (errors_New "invalid SPIFFE path").
Proof.
  unfold tlsutil.verifySPIFFEURI, pathSegments.
  destruct (String.eqb_spec (url.Scheme uri) "spiffe") as [Hscheme | Hscheme]; cbn;
    [| split; [split; [done | by intros [? _]] | done]].
  destruct (String.eqb_spec (url.Host uri) trustDomain) as [Hhost | Hhost]; cbn;
    [| split; [split; [done | by intros (_ & ? & _)] | done]].
  destruct (strings.Split (strings.TrimPrefix (url.Path uri) "/") "/")
    as [| role parts] eqn:Hsplit; [by apply split_go_nonempty in Hsplit |].
  case_bool_decide as Hexp; cbn.
  - split; [| done]. split; [intros _; split_and!; [done | done | by left] | done].
  - destruct (String.eqb_spec role expectedRole) as [Hrole | Hrole]; cbn.
    + split; [| done]. split; [| done]. intros _. split_and!; [done | done |].
      right. by rewrite Hrole.
    + split; [| done]. split; [done |]. intros (_ & _ & [? | [= ?]]); done.
Qed.

(** X21.  Whatever peer the interceptor admits with some role, the
    transport check admits too, for that role and for no particular role.
    The converse fails: a leaf whose URI names the role alone, with no id
    segment, passes the transport check and is refused by the interceptor
    for the format of its path. *)
Theorem VerifyPeerSPIFFE_weaker `{Library} (trustDomain : string) (roles : gset string) :
  (∀ ctx certs spiffeID role rawCerts chains,
     api.ctx_peer ctx = Some {| api.peer_AuthInfo := api.TLSInfo certs |} →
     api.extractAndVerifySPIFFE ctx trustDomain roles = Ok (spiffeID, role) →
     rawCerts ≠ [] →
     tlsutil.VerifyPeerSPIFFE rawCerts (certs :: chains) trustDomain role = None
     ∧ tlsutil.VerifyPeerSPIFFE rawCerts (certs :: chains) trustDomain EmptyString = None)
  ∧ (∀ ctx cert uri role rawCerts,
       api.ctx_peer ctx = Some {| api.peer_AuthInfo := api.TLSInfo [cert] |} →
       x509.URIs cert = [uri] → url.Scheme uri = "spiffe"%string →
       url.Host uri = trustDomain → url.Path uri = ("/" +:+ role)%string →
       strings.Contains role "/" = false → rawCerts ≠ [] →
       tlsutil.VerifyPeerSPIFFE rawCerts [[cert]] trustDomain role = None
       ∧ api.extractAndVerifySPIFFE ctx trustDomain roles
         = Err (errors_New "invalid SPIFFE path format")).
Proof.
  split.
  - intros ctx certs spiffeID role rawCerts chains Hpeer Hok Hraw.
    apply extractAndVerifySPIFFE_ok_inv in Hok
      as (cert & rest & uri & id & Hpeer' & Huris & Hscheme & Hhost & Hsplit & _ & _).
    rewrite Hpeer in Hpeer'. injection Hpeer' as ->.
    unfold tlsutil.VerifyPeerSPIFFE. destruct rawCerts as [| raw rawCerts]; [done |].
    rewrite Huris. split.
    + apply (verifySPIFFEURI_first_segment uri trustDomain role role [id]); try done.
      by right.
    + apply (verifySPIFFEURI_first_segment uri trustDomain EmptyString role [id]); try done.
      by left.
  - intros ctx cert uri role rawCerts Hpeer Huris Hscheme Hhost Hpath Hrole Hraw.
    assert (Hsplit : pathSegments uri = [role]).
    { unfold pathSegments. rewrite Hpath, TrimPrefix_append. unfold strings.Split.
      rewrite <- (append_nil_r role) at 1.
      by rewrite (split_go_no_slash role _ _ Hrole), append_nil_l. }
    split.
    + unfold tlsutil.VerifyPeerSPIFFE. destruct rawCerts as [| raw rawCerts]; [done |].
      rewrite Huris.
      apply (verifySPIFFEURI_first_segment uri trustDomain role role []); try done.
      by right.
    + unfold api.extractAndVerifySPIFFE. rewrite Hpeer. cbn.
      rewrite Huris, Hscheme, Hhost, !String.eqb_refl. cbn.
      unfold pathSegments in Hsplit. by rewrite Hsplit.
Qed.

(** X22.  [EqualCAPEM] is a partial equivalence on PEM inputs: it is
    symmetric and transitive, it holds of an input with itself exactly when
    that input decodes, and it never holds when one side does not decode.
    It compares the bytes of the first block only, so two inputs that
    decode to the same bytes are equal whatever the type of their block. *)
Theorem EqualCAPEM_partial_equivalence `{Library} (a b c : bytes) :
  tlsutil.EqualCAPEM a b = tlsutil.EqualCAPEM b a
  ∧ (tlsutil.EqualCAPEM a b = true → tlsutil.EqualCAPEM b c = true →
     tlsutil.EqualCAPEM a c = true)
  ∧ (tlsutil.EqualCAPEM a a = true ↔ is_Some (pem_Decode a))
  ∧ (pem_Decode a = None → tlsutil.EqualCAPEM a b = false)
  ∧ (∀ ab bb, pem_Decode a = Some ab → pem_Decode b = Some bb →
       pem.Bytes ab = pem.Bytes bb → tlsutil.EqualCAPEM a b = true).
Proof.
  unfold tlsutil.EqualCAPEM. split_and!.
  - destruct (pem_Decode a) as [ab |], (pem_Decode b) as [bb |]; try done.
    apply bool_decide_ext. split; by intros ->.
  - destruct (pem_Decode a) as [ab |], (pem_Decode b) as [bb |],
      (pem_Decode c) as [cb |]; try done.
    rewrite !bool_decide_eq_true. by intros -> ->.
  - destruct (pem_Decode a) as [ab |].
    + rewrite bool_decide_eq_true. split; [by eexists | done].
    + split; [done | by intros [? ?]].
  - by intros ->.
  - intros ab bb -> -> Heq. by apply bool_decide_eq_true.
Qed.

(** X23.  No certificate the controller issues to a workload is taken for a
    CA: under a DNS-like trust domain, for clean role and id segments and IP
    addresses of 4 or 16 bytes, [ParseAndValidateCA] refuses the PEM that
    [IssueWorkloadCert] returned, as not a valid CA. *)
Theorem ParseAndValidateCA_rejects_leaf `{L : Library} `{!LibraryLaws L}
    c host role id pubKey ttl dnsNames ipAddrs env certPEM :
  dnsLike host = true → cleanSegment role = true → cleanSegment id = true →
  Forall (λ ip : net.IP, length ip = 4%nat ∨ length ip = 16%nat) ipAddrs →
  ca.IssueWorkloadCert c (spiffeString host role id) pubKey ttl dnsNames ipAddrs env
  = Ok certPEM →
  tlsutil.ParseAndValidateCA certPEM = Err (errors_New "certificate is not a valid CA").
Proof.
  intros Hhost Hrole Hid Hips Hok.
  destruct (issue_spiffe _ _ _ _ _ _ _ _ _ _ Hhost Hrole Hid Hok)
    as (leaf & Hsigned & Huris & Hleafips & Hca & _).
  destruct Hsigned as (c0 & caCert & caKey & uri & serial & der & _ & _ & _ & _ & _
                       & Hleaf & Hcreate & ->).
  destruct (x509_Parse_Create _ _ _ _ _ _ host role id Hcreate Huris Hhost Hrole Hid)
    as (parsed & Hparse & _ & Hparsedca & _); [by rewrite Hleafips |].
  unfold tlsutil.ParseAndValidateCA. rewrite pem_Decode_Encode. cbn.
  rewrite Hparse. cbn. by rewrite Hparsedca, Hca.
Qed.

Lemma ParseAndValidateCA_rejects_leaf_witness :
  ∃ certPEM,
    @ca.IssueWorkloadCert plain.library (api.CA plain.server)
      (spiffeString "mycorp.internal" "connector" "c1") (mkPublicKey [x01])
      (5 * time.Minute) [] [plain.ip_10_0_0_5] plain.env = Ok certPEM
    ∧ @tlsutil.ParseAndValidateCA plain.library certPEM
      = Err (errors_New "certificate is not a valid CA").
Proof.
  exists [x2d; x00]. split; [reflexivity |].
  apply (@ParseAndValidateCA_rejects_leaf plain.library plain_laws (api.CA plain.server)
           "mycorp.internal" "connector" "c1" (mkPublicKey [x01]) (5 * time.Minute) []
           [plain.ip_10_0_0_5] plain.env);
    [reflexivity | reflexivity | reflexivity | | reflexivity].
  constructor; [by right | constructor].
Defined.

(** ** The connector's interceptor with an allowlist *)

(** X24.  Behind the connector's interceptor a peer with the role tunneler
    reaches the handler only if the allowlist admits its SPIFFE ID: after
    an allowlist message has been applied, exactly the tunnelers named in
    it, by a non-empty SPIFFE ID, get through, and any other is refused
    with "tunneler not allowed".  Peers of other roles are not checked
    against the allowlist, and without an allowlist nobody is. *)
Theorem allowlist_interceptor `{Library} {Req Resp : Type} (trustDomain : string)
    (allowedRoles : list string) (ctx : api.Ctx) (req : Req)
    (handler : api.Ctx → Req → result error Resp) spiffeID role :
  api.extractAndVerifySPIFFE ctx trustDomain (api.makeRoleSet allowedRoles)
  = Ok (spiffeID, role) →
  (∀ a items,
     role = "tunneler"%string →
     spiffe.UnaryInterceptorWithAllowlist trustDomain
       (Some (run.Allowed (run.Replace a items))) allowedRoles ctx req handler
     = if bool_decide (spiffeID ≠ EmptyString
                       ∧ Exists (λ item, run.SPIFFEID item = spiffeID) items)
       then handler (api.withIdentity ctx spiffeID role) req
       else Err (errors_New "tunneler not allowed"))
  ∧ (∀ allowed,
       role ≠ "tunneler"%string →
       spiffe.UnaryInterceptorWithAllowlist trustDomain (Some allowed) allowedRoles
         ctx req handler
       = handler (api.withIdentity ctx spiffeID role) req)
  ∧ spiffe.UnaryInterceptorWithAllowlist trustDomain None allowedRoles ctx req handler
    = handler (api.withIdentity ctx spiffeID role) req.
Proof.
  intros Hok. unfold spiffe.UnaryInterceptorWithAllowlist. rewrite Hok. split_and!.
  - intros a items ->. cbn.
    destruct (run.Allowed (run.Replace a items) spiffeID) eqn:Hallowed; cbn.
    + apply Allowed_Replace in Hallowed as (Hne & item & Hin & Heq).
      rewrite bool_decide_eq_true_2; [done |]. split; [done |].
      apply Exists_exists. by exists item.
    + rewrite bool_decide_eq_false_2; [done |]. intros (Hne & Hex).
      apply Exists_exists in Hex as (item & Hin & Heq).
      assert (run.Allowed (run.Replace a items) spiffeID = true) as Hyes
        by (apply Allowed_Replace; split; [done | by exists item]).
      by rewrite Hyes in Hallowed.
  - intros allowed Hrole. apply String.eqb_neq in Hrole. by rewrite Hrole.
  - done.
Qed.

Lemma allowlist_interceptor_witness :
  @spiffe.UnaryInterceptorWithAllowlist plain.library unit string "mycorp.internal"
    (Some (run.Allowed (run.Replace run.newTunnelerAllowlist []))) ["tunneler"%string]
    (plain.peerCtx "/tunneler/t1") tt (λ _ _, Ok "handler ran"%string)
  = Err (errors_New "tunneler not allowed").
Proof.
  destruct (@allowlist_interceptor plain.library unit string "mycorp.internal"
              ["tunneler"%string] (plain.peerCtx "/tunneler/t1") tt
              (λ _ _, Ok "handler ran"%string)
              "spiffe://mycorp.internal/tunneler/t1" "tunneler")
    as (Hrefused & _); [by vm_compute |].
  rewrite (Hrefused run.newTunnelerAllowlist [] eq_refl). reflexivity.
Defined.

(** ** The enrollment service: failures and effects *)

Lemma authorizeConnectorToken_cases `{Library} (s : api.EnrollmentServer) token id env :
  api.authorizeConnectorToken s token id env
  = (s, Some (status_Error FailedPrecondition "token service unavailable"))
  ∨ ∃ ts ts' err,
      api.Tokens s = Some ts
      ∧ state.ConsumeToken ts token id (env_now env) (env_io env) = (ts', err)
      ∧ api.authorizeConnectorToken s token id env
        = (api.withTokens s ts', api.consumeOutcome err).
Proof.
  unfold api.authorizeConnectorToken. destruct (api.Tokens s) as [ts |]; [| by left].
  right. destruct (state.ConsumeToken ts token id (env_now env) (env_io env))
    as [ts' err] eqn:Hconsume.
  by exists ts, ts', err.
Qed.

Lemma identityFromContext_error (s : api.EnrollmentServer) ctx e :
  api.identityFromContext s ctx = Err e → ∃ msg, e = status_Error Unauthenticated msg.
Proof.
  unfold api.identityFromContext, api.SPIFFEIDFromContext, api.RoleFromContext.
  destruct (api.ctx_spiffe_id ctx); cbn; [| intros [= <-]; eauto].
  destruct (api.ctx_spiffe_role ctx); cbn; [| intros [= <-]; eauto].
  destruct (bool_decide _ || _); [intros [= <-]; eauto | done].
Qed.

(** X25.  Every failure of the three endpoints is a gRPC status error,
    never a bare Go error.  An enrollment is never answered
    Unauthenticated; a failed one leaves the connector registry and the
    tunneler allowlist as they were, and, when the code is InvalidArgument
    or FailedPrecondition, the whole server, the token store included.  A
    renewal is never answered FailedPrecondition. *)
Theorem endpoint_failures `{Library} (s : api.EnrollmentServer) (ctx : api.Ctx) env req :
  (∀ s' e, api.EnrollConnector s env req = (s', Err e) ∨ api.EnrollTunneler s env req = (s', Err e) →
     ∃ c msg, e = status_Error c msg ∧ c ≠ Unauthenticated
              ∧ api.Registry s' = api.Registry s ∧ api.Notifier s' = api.Notifier s
              ∧ (c = InvalidArgument ∨ c = FailedPrecondition → s' = s))
  ∧ (∀ e, api.Renew s ctx env req = Err e →
       ∃ c msg, e = status_Error c msg ∧ c ≠ FailedPrecondition).
Proof.
  split.
  - intros s' e [Hfail | Hfail].
    + unfold api.EnrollConnector in Hfail.
      destruct (api.validID (controllerpb.Id req)); cbn in Hfail;
        [| inversion Hfail; subst; eexists _, _; by split_and!].
      case_bool_decide; [inversion Hfail; subst; eexists _, _; by split_and! |].
      case_bool_decide; [inversion Hfail; subst; eexists _, _; by split_and! |].
      destruct (api.parsePublicKey _) as [pubKey | e0];
        [| inversion Hfail; subst; eexists _, _; by split_and!].
      destruct (authorizeConnectorToken_cases s (controllerpb.Token req)
                  (controllerpb.Id req) env) as [Hauth | (ts & ts' & err & _ & _ & Hauth)];
        rewrite Hauth in Hfail.
      * inversion Hfail; subst; eexists _, _; by split_and!.
      * destruct err as [e0 |]; cbn in Hfail;
          [inversion Hfail; subst; eexists _, _; split_and!; try done; by intros [? | ?] |].
        destruct (ca.IssueWorkloadCert _ _ _ _ _ _ env) as [certPEM | e0]; [done |].
        inversion Hfail; subst; eexists _, _; split_and!; try done; by intros [? | ?].
    + unfold api.EnrollTunneler in Hfail.
      destruct (api.validID (controllerpb.Id req)); cbn in Hfail;
        [| inversion Hfail; subst; eexists _, _; by split_and!].
      case_bool_decide; [inversion Hfail; subst; eexists _, _; by split_and! |].
      destruct (api.parsePublicKey _) as [pubKey | e0];
        [| inversion Hfail; subst; eexists _, _; by split_and!].
      destruct (authorizeConnectorToken_cases s (controllerpb.Token req)
                  (controllerpb.Id req) env) as [Hauth | (ts & ts' & err & _ & _ & Hauth)];
        rewrite Hauth in Hfail.
      * inversion Hfail; subst; eexists _, _; by split_and!.
      * destruct err as [e0 |]; cbn in Hfail;
          [inversion Hfail; subst; eexists _, _; split_and!; try done; by intros [? | ?] |].
        destruct (ca.IssueWorkloadCert _ _ _ _ _ _ env) as [certPEM | e0]; [done |].
        inversion Hfail; subst; eexists _, _; split_and!; try done; by intros [? | ?].
  - intros e Hfail. unfold api.Renew in Hfail.
    destruct (api.validID (controllerpb.Id req)); cbn in Hfail;
      [| inversion Hfail; subst; by eexists _, _].
    destruct (api.parsePublicKey _) as [pubKey | e0];
      [| inversion Hfail; subst; by eexists _, _].
    destruct (api.identityFromContext s ctx) as [[role id] | e0] eqn:Hident.
    + destruct (negb (id =? controllerpb.Id req)%string);
        [inversion Hfail; subst; by eexists _, _ |].
      destruct (ca.IssueWorkloadCert _ _ _ _ _ _ env) as [certPEM | e0]; [done |].
      inversion Hfail; subst; by eexists _, _.
    + apply identityFromContext_error in Hident as [msg ->].
      inversion Hfail; subst; by eexists _, _.
Qed.

Lemma EnrollConnector_ok_state `{Library} s env req s' resp :
  api.EnrollConnector s env req = (s', Ok resp) →
  ∃ ts ts',
    api.Tokens s = Some ts
    ∧ state.ConsumeToken ts (controllerpb.Token req) (controllerpb.Id req)
        (env_now env) (env_io env) = (ts', None)
    ∧ s' = api.registerConnector (api.withTokens s ts') (controllerpb.Id req)
             (controllerpb.PrivateIp req) (controllerpb.Version req) (env_now env)
    ∧ controllerpb.CaCertificate resp = api.CAPEM s.
Proof.
  unfold api.EnrollConnector. intros Hok.
  destruct (api.validID (controllerpb.Id req)); [| done]. cbn in Hok.
  case_bool_decide as Hip; [done |]. case_bool_decide as Hver; [done |].
  destruct (api.parsePublicKey (controllerpb.PublicKey req)) as [pubKey | e]; [| done].
  destruct (authorizeConnectorToken_cases s (controllerpb.Token req)
              (controllerpb.Id req) env) as [Hauth | (ts & ts' & err & Hts & Hconsume & Hauth)];
    rewrite Hauth in Hok; [done |].
  destruct err as [e |]; [done |]. cbn in Hok.
  destruct (ca.IssueWorkloadCert _ _ _ _ _ _ env) as [certPEM | e]; [| done].
  inversion Hok; subst; clear Hok. by exists ts, ts'.
Qed.

(** X26.  A successful connector enrollment answers with the controller's
    CA certificate, has consumed the token for the connector id of the
    request, and has registered the connector: in a registry that keeps
    its records under their ids, [Get] then finds the connector with the
    private IP and the version of the request and the time of the call.
    The CA, the trust domain and the tunneler allowlist are untouched. *)
Theorem EnrollConnector_effects `{Library} (s s' : api.EnrollmentServer) env req resp r :
  api.EnrollConnector s env req = (s', Ok resp) →
  api.Registry s = Some r → keyedByID r →
  controllerpb.CaCertificate resp = api.CAPEM s
  ∧ (∃ ts ts', api.Tokens s = Some ts ∧ api.Tokens s' = Some ts'
               ∧ state.ConsumeToken ts (controllerpb.Token req) (controllerpb.Id req)
                   (env_now env) (env_io env) = (ts', None))
  ∧ (∃ r', api.Registry s' = Some r'
           ∧ state.Get r' (controllerpb.Id req)
             = ({| state.ConnectorRecord.ID := controllerpb.Id req;
                   state.ConnectorRecord.PrivateIP := controllerpb.PrivateIp req;
                   state.ConnectorRecord.Version := controllerpb.Version req;
                   state.ConnectorRecord.LastSeen := env_now env |}, true)
           ∧ ∀ id, id ≠ controllerpb.Id req →
                   state.connectors r' !! id = state.connectors r !! id)
  ∧ api.CA s' = api.CA s ∧ api.TrustDomain s' = api.TrustDomain s
  ∧ api.Notifier s' = api.Notifier s.
Proof.
  intros Hok Hreg Hkeyed.
  apply EnrollConnector_ok_state in Hok as (ts & ts' & Hts & Hconsume & -> & Hca).
  unfold api.registerConnector. cbn. rewrite Hreg. cbn. split_and!; try done.
  - by exists ts, ts'.
  - eexists. split; [reflexivity |]. split.
    + unfold state.Get, state.Register. cbn. rewrite lookup_insert_eq.
      by rewrite connectorOrNew_ID.
    + intros id Hne. unfold state.Register. cbn. by rewrite lookup_insert_ne.
Qed.

Lemma EnrollConnector_effects_witness :
  ∃ r', api.Registry (fst (@api.EnrollConnector plain.library plain.server plain.env
                             (plain.request "10.0.0.5"))) = Some r'
        ∧ state.Get r' "c1"
          = ({| state.ConnectorRecord.ID := "c1";
                state.ConnectorRecord.PrivateIP := "10.0.0.5";
                state.ConnectorRecord.Version := "1.0";
                state.ConnectorRecord.LastSeen := plain.issueInstant |}, true).
Proof.
  destruct (@EnrollConnector_effects plain.library plain.server
              (fst (@api.EnrollConnector plain.library plain.server plain.env
                      (plain.request "10.0.0.5")))
              plain.env (plain.request "10.0.0.5")
              {| controllerpb.Certificate := [x2d; x00];
                 controllerpb.CaCertificate := [x2d; x00] |}
              state.NewRegistry)
    as (_ & _ & (r' & Hreg & Hget & _) & _);
    [by vm_compute | reflexivity | exact keyedByID_NewRegistry |].
  exists r'. split; [exact Hreg | exact Hget].
Defined.

Lemma Add_listed (r : state.TunnelerRegistry) id spiffeID :
  orderedOnce r → id ≠ EmptyString → spiffeID ≠ EmptyString →
  {| state.TunnelerInfo.ID := id; state.TunnelerInfo.SPIFFEID := spiffeID |}
  ∈ state.TunnelerRegistry_List (state.Add r id spiffeID).
Proof.
  intros [_ Horder] Hid Hsp. unfold state.Add.
  rewrite decide_False by (by intros [? | ?]).
  unfold state.TunnelerRegistry_List. cbn.
  apply list_elem_of_omap. exists id. split; [| by rewrite lookup_insert_eq].
  destruct (decide (is_Some (state.byID r !! id))) as [Hin | Hout].
  - by apply Horder.
  - apply elem_of_app. right. by apply list_elem_of_singleton.
Qed.

Lemma spiffeString_nonempty host role id : spiffeString host role id ≠ EmptyString.
Proof. discriminate. Qed.

Lemma validID_nonempty id : api.validID id = true → id ≠ EmptyString.
Proof. intros Hv ->. by vm_compute in Hv. Qed.

(** X27.  A successful tunneler enrollment puts the tunneler on the
    allowlist the connectors are sent: the listing of the notifier's
    allowlist then holds the id of the request with the SPIFFE ID
    spiffe://<trust domain>/tunneler/<id>, and the allowlist still names
    each tunneler once.  The connector registry is not touched. *)
Theorem EnrollTunneler_allowlisted `{Library} (s s' : api.EnrollmentServer) env req resp n :
  api.EnrollTunneler s env req = (s', Ok resp) →
  api.Notifier s = Some n → orderedOnce n →
  (∃ n', api.Notifier s' = Some n' ∧ orderedOnce n'
         ∧ {| state.TunnelerInfo.ID := controllerpb.Id req;
              state.TunnelerInfo.SPIFFEID :=
                spiffeString (api.TrustDomain s) "tunneler" (controllerpb.Id req) |}
           ∈ state.TunnelerRegistry_List n')
  ∧ api.Registry s' = api.Registry s
  ∧ controllerpb.CaCertificate resp = api.CAPEM s.
Proof.
  unfold api.EnrollTunneler. intros Hok Hnotifier Hn.
  destruct (api.validID (controllerpb.Id req)) eqn:Hvalid; [| done]. cbn in Hok.
  case_bool_decide as Htok; [done |].
  destruct (api.parsePublicKey (controllerpb.PublicKey req)) as [pubKey | e]; [| done].
  destruct (authorizeConnectorToken_cases s (controllerpb.Token req)
              (controllerpb.Id req) env) as [Hauth | (ts & ts' & err & Hts & Hconsume & Hauth)];
    rewrite Hauth in Hok; [done |].
  destruct err as [e |]; [done |]. cbn in Hok.
  change ("spiffe://" +:+ api.TrustDomain s +:+ "/tunneler/" +:+ controllerpb.Id req)
    with (spiffeString (api.TrustDomain s) "tunneler" (controllerpb.Id req)) in Hok.
  destruct (ca.IssueWorkloadCert _ _ _ _ _ _ env) as [certPEM | e]; [| done].
  inversion Hok; subst; clear Hok.
  unfold api.notifyTunneler. cbn. rewrite Hnotifier. cbn. split_and!; try done.
  eexists. split; [reflexivity |]. split.
  - by apply orderedOnce_Add.
  - apply Add_listed; [done | by apply validID_nonempty | apply spiffeString_nonempty].
Qed.

Lemma EnrollTunneler_allowlisted_witness :
  ∃ n', api.Notifier (fst (@api.EnrollTunneler signing.library signing.server plain.env
                             signing.request)) = Some n'
        ∧ state.TunnelerRegistry_List n'
          = [ {| state.TunnelerInfo.ID := "t1";
                 state.TunnelerInfo.SPIFFEID := "spiffe://mycorp.internal/tunneler/t1" |} ].
Proof.
  destruct (@EnrollTunneler_allowlisted signing.library signing.server
              (fst (@api.EnrollTunneler signing.library signing.server plain.env
                      signing.request))
              plain.env signing.request
              {| controllerpb.Certificate := [x2d; x00];
                 controllerpb.CaCertificate := [x2d; x00] |}
              state.NewTunnelerRegistry)
    as ((n' & Hnotifier & _ & _) & _);
    [by vm_compute | reflexivity | exact orderedOnce_New |].
  exists n'. split; [exact Hnotifier |].
  vm_compute in Hnotifier. injection Hnotifier as <-. reflexivity.
Defined.

(** X28.  The IP SAN of a renewed certificate is read from the registry
    at the time of the renewal.  The template [Renew] has signed for the
    certificate it returns carries, for the role connector, the address
    that the private IP on record for the request's id parses into, and no
    address when it does not parse, when the id is not on record, when the
    controller has no registry, or for another role.  So a renewal made in
    the state a successful connector enrollment left carries the addresses
    of that enrollment, and one made after a heartbeat that named the
    connector with a private IP carries the heartbeat's. *)
Theorem Renew_ip_from_registry `{Library} (s : api.EnrollmentServer) ctx env req resp role :
  api.Renew s ctx env req = Ok resp →
  api.ctx_spiffe_role ctx = Some role →
  ∃ pubKey ips tmpl,
    signedLeaf (api.CA s) (spiffeString (api.TrustDomain s) role (controllerpb.Id req))
      pubKey (renewTTL role) [] ips env (controllerpb.Certificate resp) tmpl
    ∧ x509.IPAddresses tmpl = ips
    ∧ ips = (if String.eqb role "connector" then
               match api.Registry s with
               | Some r =>
                   match state.connectors r !! controllerpb.Id req with
                   | Some rec =>
                       match net_ParseIP (state.ConnectorRecord.PrivateIP rec) with
                       | Some ip => [ip]
                       | None => []
                       end
                   | None => []
                   end
               | None => []
               end
             else [])
    ∧ (∀ s0 env0 req0 resp0,
         api.EnrollConnector s0 env0 req0 = (s, Ok resp0) → is_Some (api.Registry s0) →
         controllerpb.Id req0 = controllerpb.Id req → role = "connector"%string →
         ips = match net_ParseIP (controllerpb.PrivateIp req0) with
               | Some ip => [ip]
               | None => []
               end)
    ∧ (∀ r0 ip now,
         api.Registry s
         = Some (state.RecordHeartbeat r0 (controllerpb.Id req) ip now) →
         ip ≠ EmptyString → role = "connector"%string →
         ips = match net_ParseIP ip with
               | Some ip => [ip]
               | None => []
               end).
Proof.
  intros Hrenew Hrole.
  apply (Renew_ok_inv _ _ _ _ _ role) in Hrenew as (_ & pubKey & Hok); [| done].
  apply IssueWorkloadCert_ok_inv in Hok as (_ & uri & tmpl & _ & _ & _ & Hips & _ & _ & _ & Hsigned).
  assert (Hread : api.renewIPAddrs s role (controllerpb.Id req)
                  = (if String.eqb role "connector" then
                       match api.Registry s with
                       | Some r =>
                           match state.connectors r !! controllerpb.Id req with
                           | Some rec =>
                               match net_ParseIP (state.ConnectorRecord.PrivateIP rec) with
                               | Some ip => [ip]
                               | None => []
                               end
                           | None => []
                           end
                       | None => []
                       end
                     else [])).
  { unfold api.renewIPAddrs, state.Get.
    destruct (String.eqb role "connector"); [| done].
    destruct (api.Registry s) as [r |]; [| done].
    by destruct (state.connectors r !! controllerpb.Id req). }
  exists pubKey, (api.renewIPAddrs s role (controllerpb.Id req)), tmpl.
  split_and!; [done | done | done | |].
  - intros s0 env0 req0 resp0 Henroll [r Hreg] Hsame ->.
    apply EnrollConnector_ok_state in Henroll as (ts & ts' & _ & _ & -> & _).
    rewrite Hread. unfold api.registerConnector. cbn. rewrite Hreg. cbn.
    unfold state.Register. cbn. by rewrite Hsame, lookup_insert_eq.
  - intros r0 ip now Hreg Hip ->. rewrite Hread, Hreg. cbn.
    unfold state.RecordHeartbeat. cbn. rewrite lookup_insert_eq. cbn.
    by rewrite decide_False.
Qed.

Lemma Renew_ip_from_registry_witness :
  let s := fst (@api.EnrollConnector plain.library plain.server plain.env
                  (plain.request "10.0.0.5")) in
  let ctx := {| api.ctx_peer := None;
                api.ctx_spiffe_id := Some "spiffe://mycorp.internal/connector/c1";
                api.ctx_spiffe_role := Some "connector" |} in
  ∃ pubKey tmpl,
    @signedLeaf plain.library (api.CA s) (spiffeString "mycorp.internal" "connector" "c1")
      pubKey (5 * time.Minute) [] [plain.ip_10_0_0_5] plain.env [x2d; x00] tmpl
    ∧ x509.IPAddresses tmpl = [plain.ip_10_0_0_5].
Proof.
  intros s ctx.
  destruct (@Renew_ip_from_registry plain.library s ctx plain.env (plain.request "10.0.0.5")
              {| controllerpb.Certificate := [x2d; x00];
                 controllerpb.CaCertificate := [x2d; x00] |} "connector")
    as (pubKey & ips & tmpl & Hsigned & Htmpl & Hips & _); [by vm_compute | reflexivity |].
  assert (Heq : ips = [plain.ip_10_0_0_5]) by (rewrite Hips; by vm_compute).
  rewrite Heq in Hsigned, Htmpl. exists pubKey, tmpl.
  split; [exact Hsigned | exact Htmpl].
Defined.

(** ** From an issued certificate to a renewal *)

Lemma extractAndVerifySPIFFE_spiffeURL `{L : Library} `{!LibraryLaws L}
    ctx leaf rest host role id (roles : gset string) :
  dnsLike host = true → cleanSegment role = true → cleanSegment id = true →
  api.ctx_peer ctx = Some {| api.peer_AuthInfo := api.TLSInfo (leaf :: rest) |} →
  x509.URIs leaf = [spiffeURL host role id] →
  roles = ∅ ∨ role ∈ roles →
  api.extractAndVerifySPIFFE ctx host roles = Ok (spiffeString host role id, role).
Proof.
  intros Hhost Hrole Hid Hpeer Huris Hroles.
  unfold api.extractAndVerifySPIFFE. rewrite Hpeer. cbn [api.peer_AuthInfo]. rewrite Huris.
  change (url.Scheme (spiffeURL host role id)) with "spiffe"%string.
  change (url.Host (spiffeURL host role id)) with host.
  rewrite !String.eqb_refl. cbn [negb].
  pose proof (pathSegments_spiffeURL host role id Hrole Hid) as Hsplit.
  unfold pathSegments in Hsplit. rewrite Hsplit.
  assert (Hallowed : negb (bool_decide (roles = ∅)) && negb (bool_decide (role ∈ roles))
                     = false).
  { apply andb_false_iff. destruct Hroles as [Hempty | Hmember].
    - left. by rewrite bool_decide_eq_true_2.
    - right. by rewrite bool_decide_eq_true_2. }
  rewrite Hallowed. by rewrite URL_String_spiffe.
Qed.

(** X29.  The certificate the controller issued lets its holder renew its
    own id and no other.  For a peer whose leaf carries the one URI
    spiffe://<trust domain>/<role>/<id>, with a DNS-like trust domain, clean
    segments and an allowed role, the interceptor runs [Renew] with exactly
    that role and id as the caller's identity; a request, otherwise valid,
    that names another id is answered PermissionDenied. *)
Theorem issued_identity_renews_itself `{L : Library} `{!LibraryLaws L}
    (s : api.EnrollmentServer) ctx leaf rest role id
    (unauthenticated : gset string) (allowed : list string) fullMethod env req :
  dnsLike (api.TrustDomain s) = true → cleanSegment role = true → cleanSegment id = true →
  api.ctx_peer ctx = Some {| api.peer_AuthInfo := api.TLSInfo (leaf :: rest) |} →
  x509.URIs leaf = [spiffeURL (api.TrustDomain s) role id] →
  fullMethod ∉ unauthenticated → role ∈ allowed →
  let ctx' := api.withIdentity ctx (spiffeString (api.TrustDomain s) role id) role in
  api.UnaryAuthInterceptor (api.TrustDomain s) unauthenticated allowed ctx req fullMethod
    (λ c r, api.Renew s c env r)
  = api.Renew s ctx' env req
  ∧ api.identityFromContext s ctx' = Ok (role, id)
  ∧ (api.validID (controllerpb.Id req) = true →
     is_ok (api.parsePublicKey (controllerpb.PublicKey req)) = true →
     controllerpb.Id req ≠ id →
     api.Renew s ctx' env req = Err (status_Error PermissionDenied "id mismatch for renewal")).
Proof.
  intros Hhost Hrole Hid Hpeer Huris Hmethod Hallowed ctx'.
  destruct (cleanSegment_inv _ Hrole) as [Hrolene _].
  destruct (cleanSegment_inv _ Hid) as [Hidne Hidslash].
  assert (Hset : role ∈ api.makeRoleSet allowed).
  { unfold api.makeRoleSet. destruct allowed as [| r0 allowed]; [by apply elem_of_nil in Hallowed |].
    apply elem_of_list_to_set, list_elem_of_filter. by split. }
  assert (Hident : api.identityFromContext s ctx' = Ok (role, id))
    by by apply identityFromContext_spiffe.
  split_and!.
  - unfold api.UnaryAuthInterceptor. rewrite bool_decide_eq_false_2 by done.
    rewrite (extractAndVerifySPIFFE_spiffeURL ctx leaf rest _ role id); try done. by right.
  - done.
  - intros Hvalid Hkey Hne. unfold api.Renew. rewrite Hvalid. cbn [negb].
    destruct (api.parsePublicKey (controllerpb.PublicKey req)) as [pubKey | e]; [| done].
    rewrite Hident. assert (id ≠ controllerpb.Id req) as Hne'%String.eqb_neq by done.
    by rewrite Hne'.
Qed.

Lemma issued_identity_renews_itself_witness :
  @api.UnaryAuthInterceptor plain.library _ _ "mycorp.internal" ∅ ["connector"%string]
    (plain.peerCtx "/connector/c1")
    {| controllerpb.Id := "c2"; controllerpb.PublicKey := [x2d; x01];
       controllerpb.Token := EmptyString; controllerpb.PrivateIp := EmptyString;
       controllerpb.Version := EmptyString |}
    "/controller.v1.EnrollmentService/Renew"
    (λ c r, @api.Renew plain.library plain.server c plain.env r)
  = Err (status_Error PermissionDenied "id mismatch for renewal").
Proof.
  destruct (@issued_identity_renews_itself plain.library plain_laws plain.server
              (plain.peerCtx "/connector/c1")
              (ca.tmpl (spiffeURL "mycorp.internal" "connector" "c1") 9 plain.issueInstant
                       (5 * time.Minute) [] [])
              [] "connector" "c1" ∅ ["connector"%string]
              "/controller.v1.EnrollmentService/Renew" plain.env
              {| controllerpb.Id := "c2"; controllerpb.PublicKey := [x2d; x01];
                 controllerpb.Token := EmptyString; controllerpb.PrivateIp := EmptyString;
                 controllerpb.Version := EmptyString |})
    as (Hrun & _ & Hdenied);
    [reflexivity | reflexivity | reflexivity | reflexivity | reflexivity
    | apply not_elem_of_empty | by left |].
  etransitivity; [exact Hrun |].
  apply Hdenied; [reflexivity | reflexivity | discriminate].
Defined.

(** ** The controller's control-plane stream *)

Lemma record_keeps unmarshal (s : control_plane.ControlPlaneServer) now msg :
  control_plane.clients (control_plane.record unmarshal s now msg) = control_plane.clients s
  ∧ control_plane.tunnelers (control_plane.record unmarshal s now msg)
    = control_plane.tunnelers s.
Proof.
  unfold control_plane.record. destruct s as [[r |] tun [ts |] cl];
    destruct (String.eqb (controlpb.Type_ msg) "heartbeat"),
      (String.eqb (controlpb.Type_ msg) "tunneler_heartbeat");
    cbn; try done; by destruct (unmarshal _).
Qed.

Lemma loop_keeps unmarshal (s : control_plane.ControlPlaneServer) incoming closing outcomes sent :
  control_plane.clients (control_plane.loop unmarshal s incoming closing outcomes sent).1.1
  = control_plane.clients s
  ∧ control_plane.tunnelers (control_plane.loop unmarshal s incoming closing outcomes sent).1.1
    = control_plane.tunnelers s.
Proof.
  revert s outcomes sent.
  induction incoming as [| [now msg] incoming IH]; intros s outcomes sent; [done |].
  cbn [control_plane.loop]. destruct (record_keeps unmarshal s now msg) as [Hc Ht].
  destruct (String.eqb (controlpb.Type_ msg) "ping").
  - destruct (control_plane.send outcomes) as [[e |] outcomes']; [done |].
    destruct (IH (control_plane.record unmarshal s now msg) outcomes'
                (sent ++ [controlpb.typed "pong"])) as [-> ->]. done.
  - destruct (IH (control_plane.record unmarshal s now msg) outcomes sent) as [-> ->]. done.
Qed.

Lemma send_succeeds (outcomes : list (option error)) :
  Forall (eq None) outcomes →
  (control_plane.send outcomes).1 = None ∧ Forall (eq None) (control_plane.send outcomes).2.
Proof. intros [| o rest <- Hrest]; by cbn. Qed.

Lemma loop_all_sent unmarshal (s : control_plane.ControlPlaneServer) incoming closing
    outcomes sent :
  Forall (eq None) outcomes →
  control_plane.loop unmarshal s incoming closing outcomes sent
  = (foldl (λ st tm, control_plane.record unmarshal st tm.1 tm.2) s incoming,
     sent ++ replicate (length (filter (λ tm, controlpb.Type_ tm.2 = "ping"%string) incoming))
                       (controlpb.typed "pong"),
     closing).
Proof.
  revert s outcomes sent.
  induction incoming as [| [now msg] incoming IH]; intros s outcomes sent Hsends.
  - cbn. by rewrite app_nil_r.
  - cbn [control_plane.loop foldl]. rewrite filter_cons. cbn [fst snd].
    destruct (String.eqb_spec (controlpb.Type_ msg) "ping") as [Hping | Hping].
    + destruct (send_succeeds outcomes Hsends) as [Hsent Hrest].
      destruct (control_plane.send outcomes) as [o outcomes']. cbn in Hsent, Hrest.
      subst o. rewrite (IH _ _ _ Hrest), decide_True by done. cbn.
      by rewrite <- app_assoc.
    + rewrite (IH _ _ _ Hsends), decide_False by done. done.
Qed.

(** X30.  A control-plane session of a peer with the role connector.  When
    [Connect] returns, however the stream ended, the peer's SPIFFE ID is no
    longer among the clients, even if it was before the call, and the
    allowlist is as it was.  When no send fails, the peer has been sent the
    allowlist snapshot, if any, and after it one pong for each ping; every
    message has been applied to the registries in the order received; and
    the error returned is the one that ended the stream, none for a clean
    end.  A heartbeat is filed under the connector id its message carries,
    whatever the identity of the stream. *)
Theorem Connect_session (marshal : list state.TunnelerInfo.t → result error bytes)
    (unmarshal : bytes → result error control_plane.HeartbeatPayload)
    (s : control_plane.ControlPlaneServer) (stream : control_plane.Stream) :
  api.ctx_spiffe_role (control_plane.stream_ctx stream) = Some "connector"%string →
  let spiffeID := (api.SPIFFEIDFromContext (control_plane.stream_ctx stream)).1 in
  let final := (control_plane.Connect marshal unmarshal s stream).1.1 in
  control_plane.clients final = control_plane.clients s ∖ {[spiffeID]}
  ∧ control_plane.tunnelers final = control_plane.tunnelers s
  ∧ (Forall (eq None) (control_plane.stream_send stream) →
     control_plane.Connect marshal unmarshal s stream
     = (control_plane.removeClient
          (foldl (λ st tm, control_plane.record unmarshal st tm.1 tm.2)
                 (control_plane.addClient s spiffeID) (control_plane.stream_recv stream))
          spiffeID,
        (control_plane.sendAllowlist marshal s (control_plane.stream_send stream)).1
        ++ replicate (length (filter (λ tm, controlpb.Type_ tm.2 = "ping"%string)
                                     (control_plane.stream_recv stream)))
                     (controlpb.typed "pong"),
        control_plane.stream_end stream))
  ∧ (∀ st now msg r,
       controlpb.Type_ msg = "heartbeat"%string → control_plane.registry st = Some r →
       control_plane.registry (control_plane.record unmarshal st now msg)
       = Some (state.RecordHeartbeat r (controlpb.ConnectorId msg)
                 (controlpb.PrivateIp msg) now)).
Proof.
  intros Hrole spiffeID final. subst final.
  unfold control_plane.Connect, api.RoleFromContext. rewrite Hrole. cbn [negb orb String.eqb].
  change (("connector" =? "connector")%string) with true. cbn [negb orb].
  destruct (api.SPIFFEIDFromContext (control_plane.stream_ctx stream)) as [sid ok] eqn:Hsid.
  cbn in spiffeID. subst spiffeID.
  assert (Hallow : ∀ outcomes,
    control_plane.sendAllowlist marshal (control_plane.addClient s sid) outcomes
    = control_plane.sendAllowlist marshal s outcomes) by done.
  rewrite Hallow.
  destruct (control_plane.sendAllowlist marshal s (control_plane.stream_send stream))
    as [sent0 outcomes0] eqn:Hsnapshot.
  split_and!.
  - pose proof (loop_keeps unmarshal (control_plane.addClient s sid)
                  (control_plane.stream_recv stream) (control_plane.stream_end stream)
                  outcomes0 sent0) as [Hclients _].
    destruct (control_plane.loop _ _ _ _ _ _) as [[s1 sent] err]. cbn in *.
    rewrite Hclients. apply set_eq. intros x.
    rewrite !elem_of_difference, elem_of_union.
    split; [by intros [[? | ?] ?] | intros [? ?]; split; [by right | done]].
  - pose proof (loop_keeps unmarshal (control_plane.addClient s sid)
                  (control_plane.stream_recv stream) (control_plane.stream_end stream)
                  outcomes0 sent0) as [_ Htunnelers].
    destruct (control_plane.loop _ _ _ _ _ _) as [[s1 sent] err]. cbn in *.
    by rewrite Htunnelers.
  - intros Hsends.
    assert (Hrest : Forall (eq None) outcomes0).
    { unfold control_plane.sendAllowlist in Hsnapshot.
      destruct (control_plane.tunnelers s) as [reg |]; [| by inversion Hsnapshot; subst].
      destruct (marshal _); [| by inversion Hsnapshot; subst].
      destruct (send_succeeds _ Hsends) as [_ Hrest].
      destruct (control_plane.send _) as [[e |] rest]; by inversion Hsnapshot; subst. }
    by rewrite (loop_all_sent _ _ _ _ _ _ Hrest).
  - intros st now msg r Htype Hreg. unfold control_plane.record.
    rewrite Htype, Hreg. by cbn.
Qed.

Lemma Connect_session_witness :
  let ctx := {| api.ctx_peer := None;
                api.ctx_spiffe_id := Some "spiffe://mycorp.internal/connector/c1";
                api.ctx_spiffe_role := Some "connector" |} in
  let heartbeat := {| controlpb.Type_ := "heartbeat"; controlpb.ConnectorId := "c2";
                      controlpb.PrivateIp := "10.0.0.9"; controlpb.Status := "ok";
                      controlpb.Payload := [] |} in
  let stream := {| control_plane.stream_ctx := ctx;
                   control_plane.stream_recv :=
                     [(plain.issueInstant, controlpb.typed "ping");
                      (plain.issueInstant + 1, heartbeat)];
                   control_plane.stream_end := None;
                   control_plane.stream_send := [] |} in
  let s := {| control_plane.registry := Some state.NewRegistry;
              control_plane.tunnelers := None;
              control_plane.tunnelerStatus := None;
              control_plane.clients := ∅ |} in
  control_plane.Connect (λ _, Ok []) (λ _, Err (errors_New "unexpected end of JSON input"))
    s stream
  = ({| control_plane.registry :=
          Some (state.RecordHeartbeat state.NewRegistry "c2" "10.0.0.9"
                  (plain.issueInstant + 1));
        control_plane.tunnelers := None;
        control_plane.tunnelerStatus := None;
        control_plane.clients :=
          ({[ "spiffe://mycorp.internal/connector/c1"%string ]} ∪ ∅)
          ∖ {[ "spiffe://mycorp.internal/connector/c1"%string ]} |},
     [controlpb.typed "pong"], None).
Proof.
  intros ctx heartbeat stream s.
  destruct (Connect_session (λ _, Ok []) (λ _, Err (errors_New "unexpected end of JSON input"))
              s stream) as (_ & _ & Hrun & _); [reflexivity |].
  rewrite (Hrun (Forall_nil_2 _)). reflexivity.
Defined.
